(** * The Yap tree-sitter grammars, embedded

    The repository holds three drafts of one tree-sitter grammar:
    [src/grammar.js] and the two grammars of [src/unnamed/part_000].
    A tree-sitter grammar is a value built with the DSL functions
    [seq], [choice], [repeat], [prec.left], ...; this file embeds that
    value as a Rocq term, gives it the usual context-free reading
    (which token sequences a rule derives), and reads the declared
    precedences the way the parser generator does when it settles a
    conflict. *)

From Stdlib Require Import List String Ascii ZArith Bool Arith Lia.
Import ListNotations.
Open Scope string_scope.

(** ** Regular expressions of the lexical rules *)

Module Regex.

Inductive Item : Type :=
| One (c : ascii)
| Range (lo hi : ascii).

Inductive t : Type :=
| Null
| Eps
| Dot
| Lit (c : ascii)
| Class (negated : bool) (items : list Item)
| Cat (a b : t)
| Alt (a b : t)
| Star (a : t).

Definition in_item (c : ascii) (i : Item) : bool :=
  match i with
  | One d => Ascii.eqb c d
  | Range lo hi =>
      Nat.leb (nat_of_ascii lo) (nat_of_ascii c)
      && Nat.leb (nat_of_ascii c) (nat_of_ascii hi)
  end.

Definition in_class (negated : bool) (items : list Item) (c : ascii) : bool :=
  xorb negated (existsb (in_item c) items).

Definition newline : ascii := ascii_of_nat 10.

Fixpoint nullable (r : t) : bool :=
  match r with
  | Null | Dot | Lit _ | Class _ _ => false
  | Eps | Star _ => true
  | Cat a b => nullable a && nullable b
  | Alt a b => nullable a || nullable b
  end.

Definition cat (a b : t) : t :=
  match a with
  | Null => Null
  | Eps => b
  | _ => Cat a b
  end.

Definition alt (a b : t) : t :=
  match a, b with
  | Null, _ => b
  | _, Null => a
  | _, _ => Alt a b
  end.

Fixpoint deriv (c : ascii) (r : t) : t :=
  match r with
  | Null | Eps => Null
  | Dot => if Ascii.eqb c newline then Null else Eps
  | Lit d => if Ascii.eqb c d then Eps else Null
  | Class n items => if in_class n items c then Eps else Null
  | Cat a b =>
      alt (cat (deriv c a) b) (if nullable a then deriv c b else Null)
  | Alt a b => alt (deriv c a) (deriv c b)
  | Star a => cat (deriv c a) (Star a)
  end.

(** [matches r s]: the whole of [s] is a lexeme of [r]. *)
Fixpoint matches (r : t) (s : string) : bool :=
  match s with
  | EmptyString => nullable r
  | String c s' => matches (deriv c r) s'
  end.

Definition plus (r : t) : t := Cat r (Star r).

Fixpoint times (n : nat) (r : t) : t :=
  match n with
  | O => Eps
  | S k => Cat r (times k r)
  end.

Fixpoint lit (s : string) : t :=
  match s with
  | EmptyString => Eps
  | String c s' => Cat (Lit c) (lit s')
  end.

End Regex.

(** ** The grammar DSL

    [$.name] is [Sym "name"]; a JavaScript string is [Str], a regular
    expression literal is [Pattern].  The n-ary [seq] and [choice] of
    the DSL are folded to the right. *)

Inductive Assoc : Type := AssocLeft | AssocRight.

Inductive Rule : Type :=
| Blank
| Str (s : string)
| Pattern (re : Regex.t)
| Sym (name : string)
| Seq (a b : Rule)
| Choice (a b : Rule)
| Repeat (r : Rule)
| Prec (assoc : option Assoc) (n : Z) (r : Rule)
| Field (name : string) (r : Rule)
| Alias (r : Rule) (name : string)
| Token (r : Rule).

Record Grammar : Type := mkGrammar {
  name : string;
  conflicts : list (list string);
  extras : list Rule;
  word : option string;
  supertypes : list string;
  rules : list (string * Rule)
}.

Module Dsl.

Fixpoint seq (rs : list Rule) : Rule :=
  match rs with
  | [] => Blank
  | [r] => r
  | r :: rest => Seq r (seq rest)
  end.

Fixpoint choice (rs : list Rule) : Rule :=
  match rs with
  | [] => Blank
  | [r] => r
  | r :: rest => Choice r (choice rest)
  end.

Definition optional (r : Rule) : Rule := Choice r Blank.
Definition repeat (r : Rule) : Rule := Repeat r.
Definition repeat1 (r : Rule) : Rule := Seq r (Repeat r).
Definition prec (n : Z) (r : Rule) : Rule := Prec None n r.
Definition prec_left (n : Z) (r : Rule) : Rule := Prec (Some AssocLeft) n r.
Definition prec_right (n : Z) (r : Rule) : Rule := Prec (Some AssocRight) n r.
(** [prec.right(rule)], the number left out: it defaults to 0. *)
Definition prec_right_default (r : Rule) : Rule := prec_right 0 r.
Definition field (f : string) (r : Rule) : Rule := Field f r.
Definition alias (r : Rule) (n : string) : Rule := Alias r n.
Definition token (r : Rule) : Rule := Token r.

(** The helper functions at the end of the grammar files. *)
Definition sep1 (rule : Rule) (separator : string) : Rule :=
  seq [rule; repeat (seq [Str separator; rule])].
Definition commaSep1 (rule : Rule) : Rule :=
  seq [rule; repeat (seq [Str ","; rule])].
Definition parens (rule : Rule) : Rule := seq [Str "("; rule; Str ")"].
Definition buildDomain (rule : Rule) : Rule := sep1 rule ",".

End Dsl.

(** Characters that cannot be written inside a string literal here. *)
Definition dquote : ascii := ascii_of_nat 34.
Definition backslash : ascii := ascii_of_nat 92.
Definition str1 (c : ascii) : string := String c EmptyString.

Module Lexical.
Import Regex.

Definition az : Item := Range "a" "z".
Definition AZ : Item := Range "A" "Z".
Definition digit : Item := Range "0" "9".

(** [/\s/] *)
Definition whitespace : Regex.t :=
  Class false [One " "; One (ascii_of_nat 9); One (ascii_of_nat 10);
               One (ascii_of_nat 11); One (ascii_of_nat 12); One (ascii_of_nat 13)].

(** [/[0-9]+/] *)
Definition digits : Regex.t := plus (Class false [digit]).

(** The string pattern: a double quote, then any number of simple escapes
    (backslash and one of the quote, b f n r t / or backslash), of unicode
    escapes (backslash, u, four hexadecimal digits) or of characters other
    than the quote and the backslash, then a double quote. *)
Definition string_re : Regex.t :=
  Cat (Lit dquote)
    (Cat (Star
       (Alt (Cat (Lit backslash)
               (Class false [One dquote; One "b"; One "f"; One "n"; One "r";
                             One "t"; One "/"; One backslash]))
       (Alt (Cat (Lit backslash)
               (Cat (Lit "u")
                  (times 4 (Class false [Range "a" "f"; Range "A" "F"; digit]))))
            (Class true [One dquote; One backslash]))))
       (Lit dquote)).

(** [/.*/] *)
Definition rest_of_line : Regex.t := Star Dot.

(** [/[^*]*\*+([^/*][^*]*\*+)*/] *)
Definition block_comment_body : Regex.t :=
  Cat (Star (Class true [One "*"]))
    (Cat (plus (Lit "*"))
       (Star (Cat (Class true [One "/"; One "*"])
                (Cat (Star (Class true [One "*"])) (plus (Lit "*")))))).

(** [/[a-zA-Z][a-zA-Z0-9]*/], the identifier of src/grammar.js *)
Definition identifier_plain : Regex.t :=
  Cat (Class false [az; AZ]) (Star (Class false [az; AZ; digit])).

(** [IDENTIFIER_PATTERN = /[a-zA-Z_][a-zA-Z0-9_']*/] of both grammars of
    src/unnamed/part_000 *)
Definition IDENTIFIER_PATTERN : Regex.t :=
  Cat (Class false [az; AZ; One "_"])
      (Star (Class false [az; AZ; digit; One "_"; One "'"])).

(** [new RegExp(":" + IDENTIFIER_PATTERN.source)] *)
Definition label_re : Regex.t := Cat (Lit ":") IDENTIFIER_PATTERN.

End Lexical.

(** The regular expression a [token(...)] rule stands for. *)
Fixpoint lex_regex (r : Rule) : Regex.t :=
  match r with
  | Blank => Regex.Eps
  | Str s => Regex.lit s
  | Pattern re => re
  | Sym _ => Regex.Null
  | Seq a b => Regex.Cat (lex_regex a) (lex_regex b)
  | Choice a b => Regex.Alt (lex_regex a) (lex_regex b)
  | Repeat a => Regex.Star (lex_regex a)
  | Prec _ _ a | Field _ a | Alias a _ | Token a => lex_regex a
  end.

(** The comment token, the same in the three grammars. *)
Definition comment_rule : Rule :=
  Dsl.token (Dsl.choice [
    Dsl.seq [Str "//"; Pattern Lexical.rest_of_line];
    Dsl.seq [Str "/*"; Pattern Lexical.block_comment_body; Str "/"]
  ]).

Declare Scope rule_scope.
Delimit Scope rule_scope with rule.
Notation "'$' x" := (Sym x) (at level 1, x at level 0) : rule_scope.
Open Scope rule_scope.
Open Scope Z_scope.

(** ** src/grammar.js *)

Module GrammarJs.
Import Dsl.

Module PRECEDENCE.
Definition projection : Z := 70.
Definition application : Z := 60.
Module arithmetic.
Definition multiplicative : Z := 54.
Definition additive : Z := 53.
Definition concat : Z := 52.
Definition relational : Z := 51.
End arithmetic.
Module logical.
Definition and : Z := 42.
Definition or : Z := 41.
End logical.
Module types.
Definition annotation : Z := 32.
Definition modal : Z := 31.
End types.
Module control.
Definition pipeline : Z := 22.
Definition continuations : Z := 21.
End control.
Module syntactic.
Definition arrow : Z := 11.
Definition tag : Z := 11.
End syntactic.
(** Every entry of the object, by its path. *)
Definition entries : list (string * Z) :=
    [("projection", projection); ("application", application);
     ("arithmetic.multiplicative", arithmetic.multiplicative);
     ("arithmetic.additive", arithmetic.additive);
     ("arithmetic.concat", arithmetic.concat);
     ("arithmetic.relational", arithmetic.relational);
     ("logical.and", logical.and); ("logical.or", logical.or);
     ("types.annotation", types.annotation); ("types.modal", types.modal);
     ("control.pipeline", control.pipeline);
     ("control.continuations", control.continuations);
     ("syntactic.arrow", syntactic.arrow); ("syntactic.tag", syntactic.tag)].
End PRECEDENCE.

Definition commaSep (rule : Rule) : Rule := optional (commaSep1 rule).

(** [optional(seq('|', $.identifier))], written out at each use in the
    source. *)
Definition tail : Rule := optional (seq [Str "|"; $"identifier"]).

Definition rule_table : list (string * Rule) := [
  ("source_file", choice [$"module"; $"script"]);
  ("module", seq [$"exports"; repeat $"import"; $"script"]);
  ("script", seq [$"statement"; repeat (seq [Str ";"; $"statement"]); optional (Str ";")]);
  ("exports", choice [
     seq [Str "export"; Str "*"; Str ";"];
     seq [Str "export"; Str "("; commaSep $"identifier"; Str ")"; Str ";"]]);
  ("import", choice [
     seq [Str "import"; $"string"; Str ";"];
     seq [Str "import"; $"string"; Str "("; commaSep $"identifier"; Str ")"; Str ";"]]);
  ("statement", choice [$"letdec"; $"using"; $"foreign"; $"expr"]);
  ("letdec", choice [
     seq [Str "let"; field "name" $"identifier"; Str "="; field "value" $"expr"];
     seq [Str "let"; field "name" $"identifier"; Str ":"; field "type" $"type";
          Str "="; field "value" $"expr"]]);
  ("using", seq [Str "using"; $"ann"; optional (seq [Str "as"; $"identifier"])]);
  ("foreign", seq [Str "foreign"; $"identifier"; Str ":"; $"type"]);
  ("type", choice [$"pi"; $"mu"; $"variant"; $"dict"; $"row"; $"modal_type"; $"expr"; $"ann"]);
  ("ann", prec_right PRECEDENCE.types.annotation (seq [$"type"; Str ":"; $"type"]));
  ("modal_type", choice [
     prec PRECEDENCE.types.modal
       (seq [Str "<"; $"quantity"; Str ">"; $"type"; Str "[|"; $"lambda"; Str "|]"]);
     prec PRECEDENCE.types.modal (seq [Str "<"; $"quantity"; Str ">"; $"type"]);
     prec PRECEDENCE.types.modal (seq [$"type"; Str "[|"; $"lambda"; Str "|]"])]);
  ("mu", prec_right PRECEDENCE.syntactic.arrow
     (seq [Str "μ"; field "name" $"identifier"; Str "->"; field "body" $"type"]));
  ("expr", choice [$"lambda"; $"match"; $"block"; $"reset"; $"shift"; $"resume";
                   $"operation"; $"application"; $"atom"]);
  ("application", choice [
     prec_left PRECEDENCE.application
       (seq [field "function" $"expr"; field "argument" $"atom"]);
     prec_left PRECEDENCE.application
       (seq [field "function" $"expr"; Str "@"; field "argument" $"atom"])]);
  ("operation", choice [
     prec_left PRECEDENCE.arithmetic.multiplicative
       (seq [$"expr"; choice [Str "*"; Str "/"; Str "%"]; $"expr"]);
     prec_left PRECEDENCE.arithmetic.additive
       (seq [$"expr"; choice [Str "+"; Str "-"]; $"expr"]);
     prec_left PRECEDENCE.arithmetic.concat
       (seq [$"expr"; choice [Str "<>"; Str "++"]; $"expr"]);
     prec_left PRECEDENCE.arithmetic.relational
       (seq [$"expr"; choice [Str "=="; Str "!="; Str "<="; Str ">="; Str "<"; Str ">"]; $"expr"]);
     prec_left PRECEDENCE.control.pipeline
       (seq [$"expr"; choice [Str "|>"; Str "<|"]; $"expr"]);
     prec_left PRECEDENCE.logical.and (seq [$"expr"; Str "&&"; $"expr"]);
     prec_left PRECEDENCE.logical.or (seq [$"expr"; Str "||"; $"expr"])]);
  ("atom", choice [$"variable"; $"hole"; $"literal"; $"struct"; $"tuple"; $"projection";
                   $"injection"; $"list"; $"tagged"; $"parenthesized"]);
  ("parenthesized", seq [Str "("; $"type"; Str ")"]);
  ("variable", choice [$"identifier"; $"label"]);
  ("hole", Str "_");
  ("label", seq [Str ":"; $"identifier"]);
  ("literal", choice [$"string"; $"number"; $"boolean"; Str "Type"; Str "Unit"; Str "!"; Str "Row"]);
  ("string", Pattern Lexical.string_re);
  ("number", token (choice [
     seq [Pattern Lexical.digits; Str "."; Pattern Lexical.digits];
     Pattern Lexical.digits]));
  ("boolean", choice [Str "true"; Str "false"]);
  ("lambda", prec_right PRECEDENCE.syntactic.arrow (choice [
     seq [Str (str1 backslash); field "params" (repeat1 $"param"); Str "->"; field "body" $"type"];
     seq [Str (str1 backslash); field "params" (repeat1 $"param"); Str "=>"; field "body" $"type"]]));
  ("param", choice [$"identifier"; seq [Str "("; $"typed_param"; Str ")"]]);
  ("typed_param", seq [$"identifier"; Str ":"; $"type"]);
  ("pi", choice [
     prec_right PRECEDENCE.syntactic.arrow
       (seq [field "domain" $"type"; Str "->"; field "codomain" $"type"]);
     prec_right PRECEDENCE.syntactic.arrow
       (seq [field "domain" $"type"; Str "=>"; field "codomain" $"type"])]);
  ("row", seq [Str "["; commaSep $"key_value"; tail; Str "]"]);
  ("key_value", seq [$"key"; Str ":"; $"type"]);
  ("key", choice [$"identifier"; Pattern Lexical.digits]);
  ("struct", choice [
     seq [Str "{"; Str "}"];
     seq [Str "{"; commaSep $"key_value"; tail; Str "}"]]);
  ("tuple", seq [Str "{"; commaSep1 $"type"; tail; Str "}"]);
  ("list", choice [
     seq [Str "["; Str "]"];
     seq [Str "["; commaSep1 $"type"; tail; Str "]"]]);
  ("variant", seq [Str "|"; sep1 $"tagged" "|"]);
  ("tagged", prec_right PRECEDENCE.syntactic.tag
     (seq [Str "#"; field "tag" $"identifier"; field "payload" $"type"]));
  ("dict", seq [Str "{"; Str "["; $"type"; Str "]"; Str ":"; $"type"; Str "}"]);
  ("projection", choice [
     prec_left PRECEDENCE.projection
       (seq [field "record" $"atom"; Str "."; field "key" $"identifier"]);
     seq [Str "."; field "key" $"identifier"]]);
  ("injection", choice [
     seq [Str "{"; field "record" $"expr"; Str "|"; field "updates" (commaSep $"assignment"); Str "}"];
     seq [Str "{"; Str "|"; field "updates" (commaSep $"assignment"); Str "}"]]);
  ("assignment", seq [field "key" $"identifier"; Str "="; field "value" $"type"]);
  ("block", choice [
     seq [Str "{"; field "statements" (repeat (seq [$"statement"; Str ";"]));
          optional (field "return" $"return_statement"); Str "}"];
     seq [Str "{"; field "return" $"return_statement"; Str "}"]]);
  ("return_statement", seq [Str "return"; field "value" $"ann"; Str ";"]);
  ("match", seq [Str "match"; field "subject" $"type"; repeat1 (field "branch" $"alternative")]);
  ("alternative", seq [Str "|"; field "pattern" $"pattern"; Str "->"; field "body" $"type"]);
  ("pattern", choice [$"pattern_variable"; $"pattern_literal"; $"pattern_tagged";
                      $"pattern_struct"; $"pattern_tuple"; $"pattern_list";
                      $"pattern_row"; $"wildcard"]);
  ("pattern_variable", $"identifier");
  ("pattern_literal", $"literal");
  ("pattern_tagged", prec_right PRECEDENCE.syntactic.tag
     (seq [Str "#"; field "tag" $"identifier"; field "payload" $"pattern"]));
  ("pattern_struct", choice [
     seq [Str "{"; Str "}"];
     seq [Str "{"; commaSep $"pattern_key_value"; tail; Str "}"]]);
  ("pattern_tuple", seq [Str "{"; commaSep1 $"pattern"; tail; Str "}"]);
  ("pattern_list", choice [
     seq [Str "["; Str "]"];
     seq [Str "["; commaSep1 $"pattern"; tail; Str "]"]]);
  ("pattern_row", seq [Str "["; commaSep $"pattern_key_value"; tail; Str "]"]);
  ("pattern_key_value", seq [$"identifier"; Str ":"; $"pattern"]);
  ("wildcard", Str "_");
  ("reset", prec_right PRECEDENCE.control.continuations (seq [Str "reset"; $"type"]));
  ("shift", prec_right PRECEDENCE.control.continuations (seq [Str "shift"; $"type"]));
  ("resume", prec_right PRECEDENCE.control.continuations (seq [Str "resume"; $"type"]));
  ("quantity", choice [Str "0"; Str "1"; Str "*"]);
  ("identifier", Pattern Lexical.identifier_plain);
  ("comment", comment_rule)
].

Definition grammar : Grammar := {|
  name := "yap";
  conflicts := [["struct"; "block"]; ["variable"; "key"]; ["row"; "list"];
                ["type"; "injection"]; ["modal_type"]; ["variant"]; ["match"];
                ["list"; "dict"]; ["pattern_list"; "pattern_row"]];
  extras := [Pattern Lexical.whitespace; $"comment"];
  word := Some "identifier";
  supertypes := ["type"; "expr"; "pattern"; "atom"; "statement"];
  rules := rule_table
|}.

End GrammarJs.

(** ** src/unnamed/part_000, first grammar *)

Module Draft1.
Import Dsl.

Module PRECEDENCE.
Module arithmetic.
Definition multiplicative : Z := 54.
Definition additive : Z := 53.
Definition concat : Z := 52.
Definition relational : Z := 51.
End arithmetic.
Module logical.
Definition and : Z := 42.
Definition or : Z := 41.
End logical.
Module types.
Module modal.
Definition multiple : Z := 32.
Definition single : Z := 31.
End modal.
End types.
Module control.
Definition pipeline : Z := 22.
Definition continuations : Z := 21.
End control.
Module syntactic.
Definition field : Z := 80.
Definition injection : Z := 71.
Definition projection : Z := 70.
Definition tail : Z := 62.
Definition unary : Z := 61.
Definition application : Z := 60.
Definition arrow : Z := 13.
Definition tag : Z := 12.
Definition key : Z := 11.
Definition base : Z := 10.
End syntactic.
Definition entries : list (string * Z) :=
    [("arithmetic.multiplicative", arithmetic.multiplicative);
     ("arithmetic.additive", arithmetic.additive);
     ("arithmetic.concat", arithmetic.concat);
     ("arithmetic.relational", arithmetic.relational);
     ("logical.and", logical.and); ("logical.or", logical.or);
     ("types.modal.multiple", types.modal.multiple);
     ("types.modal.single", types.modal.single);
     ("control.pipeline", control.pipeline);
     ("control.continuations", control.continuations);
     ("syntactic.field", syntactic.field);
     ("syntactic.injection", syntactic.injection);
     ("syntactic.projection", syntactic.projection);
     ("syntactic.tail", syntactic.tail); ("syntactic.unary", syntactic.unary);
     ("syntactic.application", syntactic.application);
     ("syntactic.arrow", syntactic.arrow); ("syntactic.tag", syntactic.tag);
     ("syntactic.key", syntactic.key); ("syntactic.base", syntactic.base)].
End PRECEDENCE.

Definition commaSep (rule : Rule) : Rule := optional (sep1 rule ",").

(** [prec.right(PRECEDENCE.syntactic.tail, optional(field("tail", seq('|', $.identifier))))] *)
Definition tail : Rule :=
  prec_right PRECEDENCE.syntactic.tail
    (optional (field "tail" (seq [Str "|"; $"identifier"]))).

(** [prec.right(PRECEDENCE.syntactic.base, optional(seq('|', $.identifier)))] *)
Definition pattern_tail : Rule :=
  prec_right PRECEDENCE.syntactic.base (optional (seq [Str "|"; $"identifier"])).

Definition rule_table : list (string * Rule) := [
  ("source_file", choice [$"module"; $"script"]);
  ("module", seq [$"exports"; repeat $"import"; $"script"]);
  ("script", seq [$"statement"; repeat (seq [Str ";"; $"statement"]); optional (Str ";")]);
  ("exports", choice [
     seq [Str "export"; Str "*"; Str ";"];
     seq [Str "export"; Str "("; sep1 $"identifier" ","; Str ")"; Str ";"]]);
  ("import", choice [
     seq [Str "import"; $"string"; Str ";"];
     seq [Str "import"; $"string"; Str "("; sep1 $"identifier" ","; Str ")"; Str ";"]]);
  ("statement", choice [$"letdec"; $"using"; $"foreign"; $"expr"]);
  ("letdec", choice [
     seq [Str "let"; field "name" $"identifier"; Str "="; field "value" $"expr"];
     seq [Str "let"; field "name" $"identifier"; Str ":"; field "type" $"expr";
          Str "="; field "value" $"expr"]]);
  ("using", seq [Str "using"; $"expr"; optional (seq [Str "as"; $"identifier"])]);
  ("foreign", seq [Str "foreign"; $"identifier"; Str ":"; $"expr"]);
  ("type_expr", choice [$"pi"; $"arrow"; $"mu"; $"variant"; $"dict"; $"modal"]);
  ("modal", choice [
     prec_right PRECEDENCE.types.modal.multiple
       (seq [Str "<"; $"quantity"; Str ">"; $"expr"; Str "[|"; $"lambda"; Str "|]"]);
     prec_right PRECEDENCE.types.modal.single
       (seq [Str "<"; $"quantity"; Str ">"; $"expr"]);
     prec_right PRECEDENCE.types.modal.single
       (seq [$"expr"; Str "[|"; $"lambda"; Str "|]"])]);
  ("mu", prec_right PRECEDENCE.syntactic.arrow
     (seq [Str "μ"; field "name" $"identifier"; Str "->"; field "body" $"expr"]));
  ("expr", choice [$"type_expr"; $"lambda"; $"match"; $"block"; $"unary"; $"operation";
                   $"application"; $"annotation"; $"atom"]);
  ("annotation", prec_right PRECEDENCE.syntactic.base (seq [$"expr"; Str ":"; $"expr"]));
  ("unary", prec_right PRECEDENCE.syntactic.unary (seq [choice [Str "-"; Str "+"]; $"expr"]));
  ("application", choice [
     prec_left PRECEDENCE.syntactic.application
       (seq [field "function" $"expr"; field "argument" $"atom"]);
     prec_left PRECEDENCE.syntactic.application
       (seq [field "function" $"expr"; alias (Str "@") "implicit_application";
             field "argument" $"atom"])]);
  ("operation", choice [
     prec_left PRECEDENCE.arithmetic.multiplicative
       (seq [$"expr"; choice [Str "*"; Str "/"; Str "%"]; $"expr"]);
     prec_left PRECEDENCE.arithmetic.additive
       (seq [$"expr"; choice [Str "+"; Str "-"]; $"expr"]);
     prec_left PRECEDENCE.arithmetic.concat
       (seq [$"expr"; choice [Str "<>"; Str "++"]; $"expr"]);
     prec_left PRECEDENCE.arithmetic.relational
       (seq [$"expr"; choice [Str "=="; Str "!="; Str "<="; Str ">="; Str "<"; Str ">"]; $"expr"]);
     prec_left PRECEDENCE.control.pipeline
       (seq [$"expr"; choice [Str "|>"; Str "<|"]; $"expr"]);
     prec_left PRECEDENCE.logical.and (seq [$"expr"; Str "&&"; $"expr"]);
     prec_left PRECEDENCE.logical.or (seq [$"expr"; Str "||"; $"expr"])]);
  ("atom", choice [$"variable"; $"hole"; $"literal"; $"struct"; $"tuple"; $"projection";
                   $"injection"; $"row"; $"list"; $"tagged"; $"reset"; $"shift"; $"resume";
                   $"parenthesized"]);
  ("parenthesized", parens $"expr");
  ("variable", choice [$"identifier"; $"label"]);
  ("hole", Str "?");
  ("identifier", Pattern Lexical.IDENTIFIER_PATTERN);
  ("label", token (Pattern Lexical.label_re));
  ("literal", choice [$"string"; $"number"; $"boolean"; Str "Type"; Str "Unit"; Str "Row"; Str "!"]);
  ("string", Pattern Lexical.string_re);
  ("_digits", token (Pattern Lexical.digits));
  ("number", choice [prec_right 1 (seq [$"_digits"; Str "."; $"_digits"]); $"_digits"]);
  ("boolean", choice [Str "true"; Str "false"]);
  ("pi", choice [
     prec_right PRECEDENCE.syntactic.arrow
       (seq [field "domain" (parens (sep1 $"typing" ",")); alias (Str "->") "explicit_arrow";
             field "codomain" $"expr"]);
     prec_right PRECEDENCE.syntactic.arrow
       (seq [field "domain" (parens (sep1 $"typing" ",")); alias (Str "=>") "implicit_arrow";
             field "codomain" $"expr"])]);
  ("arrow", choice [
     prec_right PRECEDENCE.syntactic.arrow
       (seq [field "domain" (parens (sep1 $"expr" ",")); alias (Str "->") "explicit_arrow";
             field "codomain" $"expr"]);
     prec_right PRECEDENCE.syntactic.arrow
       (seq [field "domain" $"expr"; alias (Str "->") "explicit_arrow"; field "codomain" $"expr"]);
     prec_right PRECEDENCE.syntactic.arrow
       (seq [field "domain" (parens (sep1 $"expr" ",")); alias (Str "=>") "implicit_arrow";
             field "codomain" $"expr"]);
     prec_right PRECEDENCE.syntactic.arrow
       (seq [field "domain" $"expr"; alias (Str "=>") "implicit_arrow"; field "codomain" $"expr"])]);
  ("lambda", prec_right_default (choice [
     seq [Str (str1 backslash); field "params" $"params"; alias (Str "->") "explicit_arrow";
          field "body" $"expr"];
     seq [Str (str1 backslash); field "params" $"params"; alias (Str "=>") "implicit_arrow";
          field "body" $"expr"]]));
  ("params", choice [repeat1 $"param"; parens (sep1 $"param" ",")]);
  ("param", choice [$"identifier"; parens $"typing"]);
  ("typing", prec_right PRECEDENCE.syntactic.base (seq [$"identifier"; Str ":"; $"expr"]));
  ("row", seq [Str "["; sep1 $"key_value" ","; tail; Str "]"]);
  ("key_value", prec_right PRECEDENCE.syntactic.field (seq [$"key"; Str ":"; $"expr"]));
  ("key", prec_right PRECEDENCE.syntactic.key
     (choice [alias $"identifier" "field"; alias $"_digits" "index"]));
  ("struct", choice [
     seq [Str "{"; Str "}"];
     seq [Str "{"; sep1 $"key_value" ","; tail; Str "}"]]);
  ("tuple", seq [Str "{"; sep1 $"expr" ","; tail; Str "}"]);
  ("list", choice [
     seq [Str "["; Str "]"];
     seq [Str "["; sep1 $"expr" ","; tail; Str "]"]]);
  ("variant", prec_right PRECEDENCE.syntactic.base (seq [Str "|"; sep1 $"tagged" "|"]));
  ("tagged", prec_right PRECEDENCE.syntactic.tag
     (seq [Str "#"; field "tag" $"identifier"; field "payload" $"expr"]));
  ("dict", prec_right PRECEDENCE.syntactic.base
     (seq [Str "{"; Str "["; $"expr"; Str "]"; Str ":"; $"expr"; Str "}"]));
  ("projection", choice [
     prec_left PRECEDENCE.syntactic.projection
       (seq [field "record" $"atom"; Str "."; field "key" $"identifier"]);
     seq [Str "."; field "key" $"identifier"]]);
  ("injection", choice [
     prec_right PRECEDENCE.syntactic.injection
       (seq [Str "{"; field "record" $"expr"; Str "|"; field "updates" (sep1 $"assignment" ",");
             Str "}"]);
     prec_right PRECEDENCE.syntactic.injection
       (seq [Str "{"; Str "|"; field "updates" (sep1 $"assignment" ","); Str "}"])]);
  ("assignment", seq [field "key" $"identifier"; Str "="; field "value" $"expr"]);
  ("block", choice [
     seq [Str "{"; field "statements" (repeat (seq [$"statement"; Str ";"]));
          optional (field "return" $"return_statement"); Str "}"];
     seq [Str "{"; field "return" $"return_statement"; Str "}"]]);
  ("return_statement", seq [Str "return"; field "value" $"expr"; Str ";"]);
  ("match", prec_right PRECEDENCE.syntactic.base
     (seq [Str "match"; field "subject" $"expr"; repeat1 (field "branch" $"alternative")]));
  ("alternative", prec_right_default
     (seq [Str "|"; field "pattern" $"pattern"; Str "->"; field "body" $"expr"]));
  ("pattern", choice [$"variable"; $"literal"; $"pattern_tagged"; $"pattern_struct";
                      $"pattern_tuple"; $"pattern_list"; $"pattern_row"; $"wildcard"]);
  ("pattern_tagged", prec_right PRECEDENCE.syntactic.tag
     (seq [Str "#"; field "tag" $"identifier"; field "payload" $"pattern"]));
  ("pattern_struct", choice [
     seq [Str "{"; optional (seq [Str "|"; $"identifier"]); Str "}"];
     seq [Str "{"; sep1 $"pattern_key_value" ","; pattern_tail; Str "}"]]);
  ("pattern_tuple", seq [Str "{"; sep1 $"pattern" ","; pattern_tail; Str "}"]);
  ("pattern_list", choice [
     seq [Str "["; Str "]"];
     seq [Str "["; sep1 $"pattern" ","; pattern_tail; Str "]"]]);
  ("pattern_row", seq [Str "["; commaSep $"pattern_key_value"; pattern_tail; Str "]"]);
  ("pattern_key_value", seq [$"identifier"; Str ":"; $"pattern"]);
  ("wildcard", Str "_");
  ("reset", prec_right PRECEDENCE.control.continuations (seq [Str "reset"; $"expr"]));
  ("shift", prec_right PRECEDENCE.control.continuations (seq [Str "shift"; $"expr"]));
  ("resume", prec_right PRECEDENCE.control.continuations (seq [Str "resume"; $"expr"]));
  ("quantity", choice [Str "0"; Str "1"; Str "*"]);
  ("comment", comment_rule)
].

Definition grammar : Grammar := {|
  name := "yap";
  conflicts := [["struct"; "block"]; ["pattern_list"; "pattern_row"]];
  extras := [Pattern Lexical.whitespace; $"comment"];
  word := Some "identifier";
  supertypes := ["type_expr"; "expr"; "pattern"; "atom"; "statement"];
  rules := rule_table
|}.

End Draft1.

(** ** src/unnamed/part_000, second grammar *)

Module Draft2.
Import Dsl.

Module PRECEDENCE.
Module arithmetic.
Definition multiplicative : Z := 54.
Definition additive : Z := 53.
Definition concat : Z := 52.
Definition relational : Z := 51.
End arithmetic.
Module logical.
Definition and : Z := 42.
Definition or : Z := 41.
End logical.
Module types.
Module modal.
Definition multiple : Z := 32.
Definition single : Z := 31.
End modal.
End types.
Module control.
Definition pipeline : Z := 22.
Definition continuations : Z := 21.
End control.
Module syntactic.
Definition field : Z := 80.
Definition injection : Z := 71.
Definition projection : Z := 70.
Definition tail : Z := 62.
Definition unary : Z := 61.
Definition application : Z := 60.
Definition arrow : Z := 13.
Definition tag : Z := 12.
Definition key : Z := 11.
Definition domain : Z := 11.
Definition base : Z := 10.
End syntactic.
Definition entries : list (string * Z) :=
    [("arithmetic.multiplicative", arithmetic.multiplicative);
     ("arithmetic.additive", arithmetic.additive);
     ("arithmetic.concat", arithmetic.concat);
     ("arithmetic.relational", arithmetic.relational);
     ("logical.and", logical.and); ("logical.or", logical.or);
     ("types.modal.multiple", types.modal.multiple);
     ("types.modal.single", types.modal.single);
     ("control.pipeline", control.pipeline);
     ("control.continuations", control.continuations);
     ("syntactic.field", syntactic.field);
     ("syntactic.injection", syntactic.injection);
     ("syntactic.projection", syntactic.projection);
     ("syntactic.tail", syntactic.tail); ("syntactic.unary", syntactic.unary);
     ("syntactic.application", syntactic.application);
     ("syntactic.arrow", syntactic.arrow); ("syntactic.tag", syntactic.tag);
     ("syntactic.key", syntactic.key); ("syntactic.domain", syntactic.domain);
     ("syntactic.base", syntactic.base)].
End PRECEDENCE.

Definition commaSep (rule : Rule) : Rule := optional (sep1 rule ",").

(** [prec.right(PRECEDENCE.syntactic.tail, optional(field("tail", seq('|', $.identifier))))] *)
Definition tail : Rule :=
  prec_right PRECEDENCE.syntactic.tail
    (optional (field "tail" (seq [Str "|"; $"identifier"]))).

(** [prec.right(PRECEDENCE.syntactic.base, optional(field('tail', seq('|', $.identifier))))] *)
Definition pattern_tail : Rule :=
  prec_right PRECEDENCE.syntactic.base
    (optional (field "tail" (seq [Str "|"; $"identifier"]))).

(** The binder keyword of [mu] as the file holds it: the four bytes
    195 142 194 188. *)
Definition mu_keyword : string :=
  String (ascii_of_nat 195) (String (ascii_of_nat 142)
    (String (ascii_of_nat 194) (String (ascii_of_nat 188) EmptyString))).

Definition rule_table : list (string * Rule) := [
  ("source_file", choice [$"module"; $"script"]);
  ("module", seq [$"exports"; repeat $"import"; $"script"]);
  ("script", seq [$"statement"; repeat (seq [Str ";"; $"statement"]); optional (Str ";")]);
  ("exports", choice [
     seq [Str "export"; Str "*"; Str ";"];
     seq [Str "export"; Str "("; sep1 $"identifier" ","; Str ")"; Str ";"]]);
  ("import", choice [
     seq [Str "import"; $"string"; Str ";"];
     seq [Str "import"; $"string"; Str "("; sep1 $"identifier" ","; Str ")"; Str ";"]]);
  ("statement", choice [$"letdec"; $"using"; $"foreign"; $"type_expr"]);
  ("letdec", choice [
     seq [Str "let"; field "name" $"identifier"; Str "="; field "value" $"type_expr"];
     seq [Str "let"; field "name" $"identifier"; Str ":"; field "type" $"type_expr";
          Str "="; field "value" $"type_expr"]]);
  ("using", seq [Str "using"; $"expr"; optional (seq [Str "as"; $"identifier"])]);
  ("foreign", seq [Str "foreign"; $"identifier"; Str ":"; $"type_expr"]);
  ("type_expr", choice [$"pi"; $"arrow"; $"mu"; $"variant"; $"modal"; $"expr"]);
  ("modal", choice [
     prec_right PRECEDENCE.types.modal.multiple
       (seq [Str "<"; $"quantity"; Str ">"; $"expr"; Str "[|"; $"lambda"; Str "|]"]);
     prec_right PRECEDENCE.types.modal.single
       (seq [Str "<"; $"quantity"; Str ">"; $"expr"]);
     prec_right PRECEDENCE.types.modal.single
       (seq [$"expr"; Str "[|"; $"lambda"; Str "|]"])]);
  ("mu", prec_right PRECEDENCE.syntactic.arrow
     (seq [Str mu_keyword; field "name" $"identifier"; Str "->"; field "body" $"type_expr"]));
  ("expr", choice [$"lambda"; $"match"; $"unary"; $"operation"; $"application";
                   $"annotation"; $"atom"]);
  ("annotation", prec_right PRECEDENCE.syntactic.base
     (seq [field "expr" $"expr"; Str ":"; field "type" $"type_expr"]));
  ("unary", prec_right PRECEDENCE.syntactic.unary
     (seq [field "operator" (choice [Str "-"; Str "+"]); field "operand" $"expr"]));
  ("application",
     prec_right PRECEDENCE.syntactic.application
       (seq [field "function" $"atom"; field "argument" (repeat1 $"argument")]));
  ("argument", choice [field "explicit" $"atom"; seq [Str "@"; field "implicit" $"atom"]]);
  ("operation", choice [
     prec_left PRECEDENCE.arithmetic.multiplicative
       (seq [field "left" $"expr"; field "operator" (choice [Str "*"; Str "/"; Str "%"]);
             field "right" $"expr"]);
     prec_left PRECEDENCE.arithmetic.additive
       (seq [field "left" $"expr"; field "operator" (choice [Str "+"; Str "-"]);
             field "right" $"expr"]);
     prec_left PRECEDENCE.arithmetic.concat
       (seq [field "left" $"expr"; field "operator" (choice [Str "<>"; Str "++"]);
             field "right" $"expr"]);
     prec_left PRECEDENCE.arithmetic.relational
       (seq [field "left" $"expr";
             field "operator" (choice [Str "=="; Str "!="; Str "<="; Str ">="; Str "<"; Str ">"]);
             field "right" $"expr"]);
     prec_left PRECEDENCE.control.pipeline
       (seq [field "left" $"expr"; field "operator" (choice [Str "|>"; Str "<|"]);
             field "right" $"expr"]);
     prec_left PRECEDENCE.logical.and
       (seq [field "left" $"expr"; field "operator" (alias (Str "&&") "and");
             field "right" $"expr"]);
     prec_left PRECEDENCE.logical.or
       (seq [field "left" $"expr"; field "operator" (alias (Str "||") "or");
             field "right" $"expr"])]);
  ("atom", choice [$"variable"; $"hole"; $"literal"; $"dict"; $"struct"; $"tuple";
                   $"projection"; $"injection"; $"row"; $"list"; $"tagged"; $"reset";
                   $"shift"; $"resume"; $"parenthesized"; $"block"]);
  ("parenthesized", parens $"type_expr");
  ("variable", choice [$"identifier"; $"label"]);
  ("hole", Str "?");
  ("identifier", Pattern Lexical.IDENTIFIER_PATTERN);
  ("label", token (Pattern Lexical.label_re));
  ("literal", choice [$"string"; $"number"; $"boolean"; alias (Str "Type") "TypeOfTypes";
                      alias (Str "Unit") "Unit"; alias (Str "Row") "Row";
                      alias (Str "!") "Bang"]);
  ("string", Pattern Lexical.string_re);
  ("_digits", token (Pattern Lexical.digits));
  ("number", choice [prec_right 1 (seq [$"_digits"; Str "."; $"_digits"]); $"_digits"]);
  ("boolean", choice [Str "true"; Str "false"]);
  ("pi", choice [
     prec_right PRECEDENCE.syntactic.arrow
       (seq [field "domain" (alias $"pidomain" "domain");
             field "icit" (alias (Str "->") "explicit"); field "codomain" $"type_expr"]);
     prec_right PRECEDENCE.syntactic.arrow
       (seq [field "domain" (alias $"pidomain" "domain");
             field "icit" (alias (Str "=>") "implicit"); field "codomain" $"type_expr"])]);
  ("arrow", choice [
     prec_right PRECEDENCE.syntactic.arrow
       (seq [field "domain" (alias $"arrdomain" "domain");
             field "icit" (alias (Str "->") "explicit"); field "codomain" $"type_expr"]);
     prec_right PRECEDENCE.syntactic.arrow
       (seq [field "domain" (alias $"arrdomain" "domain");
             field "icit" (alias (Str "=>") "implicit"); field "codomain" $"type_expr"])]);
  ("pidomain", prec_right PRECEDENCE.syntactic.domain
     (parens (buildDomain (field "param" $"typing"))));
  ("arrdomain", choice [
     prec_right PRECEDENCE.syntactic.domain
       (parens (buildDomain (field "param" $"type_expr")));
     prec_right PRECEDENCE.syntactic.domain (field "param" $"expr")]);
  ("lambda", prec_right PRECEDENCE.syntactic.base (choice [
     seq [Str (str1 backslash); field "params" $"params";
          field "icit" (alias (Str "->") "explicit"); field "body" $"type_expr"];
     seq [Str (str1 backslash); field "params" $"params";
          field "icit" (alias (Str "=>") "implicit"); field "body" $"type_expr"]]));
  ("params", choice [repeat1 $"param"; parens (sep1 $"param" ",")]);
  ("param", choice [$"identifier"; parens $"typing"]);
  ("typing", prec_right PRECEDENCE.syntactic.base (seq [$"identifier"; Str ":"; $"type_expr"]));
  ("row", seq [Str "["; field "field" (sep1 $"key_value" ","); tail; Str "]"]);
  ("key_value", prec_right PRECEDENCE.syntactic.field
     (seq [field "key" $"key"; Str ":"; field "value" $"type_expr"]));
  ("key", prec_right PRECEDENCE.syntactic.key
     (choice [alias $"identifier" "field"; alias $"_digits" "index"]));
  ("struct", choice [
     seq [Str "{"; Str "}"];
     seq [Str "{"; field "field" (sep1 $"key_value" ","); tail; Str "}"]]);
  ("tuple", seq [Str "{"; field "element" (sep1 $"type_expr" ","); tail; Str "}"]);
  ("list", choice [
     seq [Str "["; Str "]"];
     seq [Str "["; sep1 (field "element" $"type_expr") ",";
          prec_right PRECEDENCE.syntactic.tail
            (optional (seq [Str "|"; field "tail" $"identifier"]));
          Str "]"]]);
  ("variant", prec_right PRECEDENCE.syntactic.tag
     (seq [Str "|"; sep1 (field "variant" $"tagged") "|"]));
  ("tagged", prec_right PRECEDENCE.syntactic.tag
     (seq [Str "#"; field "tag" $"identifier"; field "payload" $"expr"]));
  ("dict", prec_right PRECEDENCE.syntactic.base
     (seq [Str "{"; Str "["; field "index" $"expr"; Str "]"; Str ":";
           field "type" $"type_expr"; Str "}"]));
  ("projection", choice [
     prec_left PRECEDENCE.syntactic.projection
       (seq [field "record" $"atom"; Str "."; field "key" $"identifier"]);
     seq [Str "."; field "key" $"identifier"]]);
  ("injection", choice [
     prec_right PRECEDENCE.syntactic.injection
       (seq [Str "{"; field "record" $"expr"; Str "|";
             sep1 (field "updates" $"assignment") ","; Str "}"]);
     prec_right PRECEDENCE.syntactic.injection
       (seq [Str "{"; Str "|"; sep1 (field "updates" $"assignment") ","; Str "}"])]);
  ("assignment", seq [field "key" $"identifier"; Str "="; field "value" $"type_expr"]);
  ("block", choice [
     seq [Str "{"; repeat (seq [field "statement" $"statement"; Str ";"]);
          optional (field "return" $"return_statement"); Str "}"];
     seq [Str "{"; field "return" $"return_statement"; Str "}"]]);
  ("return_statement", seq [Str "return"; field "value" $"type_expr"; Str ";"]);
  ("match", prec_right PRECEDENCE.syntactic.base
     (seq [Str "match"; field "subject" $"expr"; repeat1 (field "branch" $"alternative")]));
  ("alternative", prec_right PRECEDENCE.syntactic.base
     (seq [Str "|"; field "pattern" $"pattern"; Str "->"; field "body" $"expr"]));
  ("pattern", choice [$"variable"; $"literal"; $"pattern_tagged"; $"pattern_struct";
                      $"pattern_tuple"; $"pattern_list"; $"pattern_row"; $"wildcard"]);
  ("pattern_tagged", prec_right PRECEDENCE.syntactic.tag
     (seq [Str "#"; field "tag" $"identifier"; field "payload" $"pattern"]));
  ("pattern_struct", choice [
     seq [Str "{"; optional (field "tail" (seq [Str "|"; $"identifier"])); Str "}"];
     seq [Str "{"; field "field" (sep1 $"pattern_key_value" ","); pattern_tail; Str "}"]]);
  ("pattern_tuple", seq [Str "{"; field "element" (sep1 $"pattern" ","); pattern_tail; Str "}"]);
  ("pattern_list", choice [
     seq [Str "["; Str "]"];
     seq [Str "["; field "element" (sep1 $"pattern" ","); pattern_tail; Str "]"]]);
  ("pattern_row", seq [Str "["; field "field" (commaSep $"pattern_key_value"); pattern_tail;
                       Str "]"]);
  ("pattern_key_value", seq [field "key" $"identifier"; Str ":"; field "pattern" $"pattern"]);
  ("wildcard", Str "_");
  ("reset", prec_right PRECEDENCE.control.continuations (seq [Str "reset"; field "body" $"expr"]));
  ("shift", prec_right PRECEDENCE.control.continuations (seq [Str "shift"; field "body" $"expr"]));
  ("resume", prec_right PRECEDENCE.control.continuations (seq [Str "resume"; field "body" $"expr"]));
  ("quantity", choice [Str "0"; Str "1"; Str "*"]);
  ("comment", comment_rule)
].

Definition grammar : Grammar := {|
  name := "yap";
  conflicts := [["struct"; "block"]; ["pattern_list"; "pattern_row"]];
  extras := [Pattern Lexical.whitespace; $"comment"];
  word := Some "identifier";
  supertypes := ["type_expr"; "expr"; "pattern"; "atom"; "statement"];
  rules := rule_table
|}.

End Draft2.

Close Scope Z_scope.

(** ** What a grammar derives

    A source text is taken after lexing, as the list of its lexemes; the
    extras (white space and comments) separate lexemes and are dropped.
    A string of the grammar matches the lexeme equal to it, a pattern or
    a [token(...)] rule matches one lexeme that it matches as a whole. *)

Definition lookup (G : Grammar) (n : string) : option Rule :=
  option_map snd (find (fun p => String.eqb (fst p) n) (rules G)).

(** The strings of a rule that are tokens of their own. *)
Fixpoint literals (r : Rule) : list string :=
  match r with
  | Str s => [s]
  | Seq a b | Choice a b => literals a ++ literals b
  | Repeat a | Prec _ _ a | Field _ a | Alias a _ => literals a
  | Blank | Pattern _ | Sym _ | Token _ => []
  end.

Definition word_regex (G : Grammar) : Regex.t :=
  match word G with
  | Some w => match lookup G w with Some r => lex_regex r | None => Regex.Null end
  | None => Regex.Null
  end.

(** [word: $ => $.identifier]: the strings of the grammar that the word
    rule matches are the keywords.  The generated parser reads a word as
    a keyword only where the grammar allows that keyword next; everywhere
    else the same lexeme is a word token.  The derivations below therefore
    let the word rule derive every lexeme of its pattern, keyword
    spellings included; [is_name] holds of the lexemes that are identifiers in
    every position. *)
Definition all_literals (G : Grammar) : list string :=
  flat_map (fun p => literals (snd p)) (rules G).

Definition keywords (G : Grammar) : list string :=
  filter (Regex.matches (word_regex G)) (all_literals G).

Definition is_keyword (G : Grammar) (s : string) : bool :=
  if Regex.matches (word_regex G) s then existsb (String.eqb s) (all_literals G)
  else false.




Inductive derives (G : Grammar) : Rule -> list string -> Prop :=
| D_Blank : derives G Blank []
| D_Str s : derives G (Str s) [s]
| D_Pattern re s : Regex.matches re s = true -> derives G (Pattern re) [s]
| D_Token r s : Regex.matches (lex_regex r) s = true -> derives G (Token r) [s]
| D_Sym n body ts : lookup G n = Some body -> derives G body ts -> derives G (Sym n) ts
| D_Seq a b t1 t2 : derives G a t1 -> derives G b t2 -> derives G (Seq a b) (t1 ++ t2)
| D_ChoiceL a b ts : derives G a ts -> derives G (Choice a b) ts
| D_ChoiceR a b ts : derives G b ts -> derives G (Choice a b) ts
| D_RepeatNil r : derives G (Repeat r) []
| D_RepeatCons r t1 t2 :
    derives G r t1 -> derives G (Repeat r) t2 -> derives G (Repeat r) (t1 ++ t2)
| D_Prec a n r ts : derives G r ts -> derives G (Prec a n r) ts
| D_Field f r ts : derives G r ts -> derives G (Field f r) ts
| D_Alias r n ts : derives G r ts -> derives G (Alias r n) ts.

(** [derivable G n ts]: the rule [n] derives the lexemes [ts].  Every node
    of kind [n] that the generated parser builds spells out a derivation,
    so lexemes that are not derivable from [n] are never a node of kind
    [n].  The other way round a derivation is one candidate reading: of
    the derivations of an input the parser builds the one that the
    declared precedences select (see [resolve] below), so [derivable]
    alone is a necessary condition for a node, not the parser's answer. *)
Definition derivable (G : Grammar) (n : string) (ts : list string) : Prop :=
  derives G (Sym n) ts.

(** ** A chart recogniser for one input

    The tests below are written with [if] rather than [&&] and [||] so
    that evaluation stops at the first failure.

    For a fixed input [w] the chart holds triples [(n, i, j)]: rule [n]
    derives the lexemes of [w] from position [i] up to [j].  The chart is
    grown from the empty one; once it is closed under the rules it holds
    exactly the derivable triples. *)

Section Chart.
Variable G : Grammar.
Variable w : list string.

Definition sub (i j : nat) : list string := firstn (j - i) (skipn i w).

Definition Chart : Type := list (string * nat * nat).

Definition holds (T : Chart) (n : string) (i j : nat) : bool :=
  existsb (fun e => match e with
                    | (m, a, b) =>
                        if Nat.eqb a i then if Nat.eqb b j then String.eqb m n else false
                        else false
                    end) T.

Fixpoint star (step : nat -> nat -> bool) (fuel i j : nat) : bool :=
  if Nat.eqb i j then true
  else match fuel with
       | O => false
       | S f => existsb (fun k => if step i k then star step f k j else false)
                        (List.seq (S i) (j - i))
       end.

Fixpoint eval (T : Chart) (r : Rule) (i j : nat) {struct r} : bool :=
  match r with
  | Blank => match sub i j with [] => true | _ => false end
  | Str s => match sub i j with [t] => String.eqb t s | _ => false end
  | Pattern re => match sub i j with [t] => Regex.matches re t | _ => false end
  | Token r' => match sub i j with [t] => Regex.matches (lex_regex r') t | _ => false end
  | Sym n => holds T n i j
  | Seq a b => existsb (fun k => if eval T a i k then eval T b k j else false)
                       (List.seq i (S (j - i)))
  | Choice a b => if eval T a i j then true else eval T b i j
  | Repeat a => star (eval T a) (List.length w) i j
  | Prec _ _ a | Field _ a | Alias a _ => eval T a i j
  end.

Definition spans : list (nat * nat) :=
  flat_map (fun i => map (pair i) (List.seq i (S (List.length w - i))))
           (List.seq 0 (S (List.length w))).

Definition fires (T : Chart) (body : Rule) (ij : nat * nat) : bool :=
  eval T body (fst ij) (snd ij).

(** The new triples of rule [n], put in front of the chart. *)
Definition add_rule (T : Chart) (n : string) : Chart :=
  match lookup G n with
  | Some body =>
      (map (fun ij => (n, fst ij, snd ij))
           (filter (fun ij => if holds T n (fst ij) (snd ij) then false
                              else fires T body ij) spans) ++ T)%list
  | None => T
  end.

(** One round: the rules from the last of the grammar to the first, each
    seeing the triples the round has added so far. *)
Definition grow (T : Chart) : Chart :=
  fold_left add_rule (rev (map fst (rules G))) T.

(** Rounds until one adds nothing; [None] when the fuel runs out first. *)
Fixpoint saturate (fuel : nat) (T : Chart) : option Chart :=
  match fuel with
  | O => None
  | S f =>
      let T' := grow T in
      if Nat.eqb (List.length T') (List.length T) then Some T else saturate f T'
  end.

Definition chart (fuel : nat) : option Chart := saturate fuel [].

(** A chart is closed when no rule has a triple to add. *)
Definition closed (T : Chart) : Prop :=
  forall n body ij,
    lookup G n = Some body -> In ij spans ->
    fires T body ij = true -> holds T n (fst ij) (snd ij) = true.

(** The invariant of a grown chart: every triple is derivable. *)
Definition sound (T : Chart) : Prop :=
  forall n i j, holds T n i j = true -> i <= j /\ derives G (Sym n) (sub i j).

End Chart.

(** [verdicts G k w rs]: one chart for [w], and for each rule of [rs]
    whether it derives the whole of [w]; [None] when [k] rounds do not
    close the chart. *)
Definition verdicts (G : Grammar) (k : nat) (w : list string) (rs : list Rule)
  : option (list bool) :=
  match chart G w k with
  | Some T => Some (map (fun r => eval w T r 0 (List.length w)) rs)
  | None => None
  end.

(** The kinds of node the whole input can be. *)
Definition kinds (G : Grammar) (k : nat) (w : list string) : option (list string) :=
  match chart G w k with
  | Some T => Some (filter (fun n => holds T n 0 (List.length w)) (map fst (rules G)))
  | None => None
  end.

(** [p] holds of every character of [s]. *)
Fixpoint string_forall (p : ascii -> bool) (s : string) : bool :=
  match s with
  | EmptyString => true
  | String c r => if p c then string_forall p r else false
  end.

(** The first and the following characters of an identifier. *)
Definition ident_start (c : ascii) : bool :=
  Regex.in_class false [Lexical.az; Lexical.AZ; Regex.One "_"] c.
Definition ident_part (c : ascii) : bool :=
  Regex.in_class false [Lexical.az; Lexical.AZ; Lexical.digit; Regex.One "_"; Regex.One "'"] c.

(** A lexeme of the shape [A-Za-z_][A-Za-z0-9_']*, character by character. *)
Definition ident_shape (s : string) : bool :=
  match s with
  | EmptyString => false
  | String c r => if ident_start c then string_forall ident_part r else false
  end.

(** ** Declared precedences and the conflicts they settle

    The generated parser is an LR automaton.  Where a token sequence has
    two readings the automaton meets a conflict, and the generator settles
    it from the precedences declared in the grammar: the reading declared
    higher wins, and between equal precedences the associativity of the
    completed production decides (left: complete it, right: go on
    reading).  A conflict listed under [conflicts] is left to the
    parser at run time. *)

Definition Level : Type := (Z * option Assoc)%type.

(** The alternatives of a rule, each with the precedence declared around
    it; none declared is precedence 0 without associativity. *)
Fixpoint productions (lv : Level) (r : Rule) : list (Level * Rule) :=
  match r with
  | Choice a b => productions lv a ++ productions lv b
  | Prec a n r' => productions (n, a) r'
  | _ => [(lv, r)]
  end.

Definition rule_productions (G : Grammar) (n : string) : list (Level * Rule) :=
  match lookup G n with
  | Some r => productions (0%Z, None) r
  | None => []
  end.

Definition levels (G : Grammar) (n : string) : list Level :=
  map fst (rule_productions G n).

(** The operators of the productions [seq(left, operator, right)]. *)
Definition infix_of (p : Level * Rule) : list (string * Level) :=
  match snd p with
  | Seq _ (Seq op r) =>
      match r with
      | Seq _ _ => []
      | _ => map (fun s => (s, fst p)) (literals op)
      end
  | _ => []
  end.

Definition infix_table (G : Grammar) (n : string) : list (string * Level) :=
  flat_map infix_of (rule_productions G n).

Inductive Action : Type := Shift | Reduce | Unresolved.

(** A production is complete and the next token continues another one. *)
Definition resolve (completed next : Level) : Action :=
  if (fst next >? fst completed)%Z then Shift
  else if (fst next <? fst completed)%Z then Reduce
  else match snd completed with
       | Some AssocLeft => Reduce
       | Some AssocRight => Shift
       | None => Unresolved
       end.


(** Two productions are complete at once: [n] is kept and [m] dropped when
    every production of [n] is declared above every production of [m]. *)
Definition outranks (G : Grammar) (n m : string) : bool :=
  forallb (fun a => forallb (fun b => (fst b <? fst a)%Z) (levels G m)) (levels G n).

(** The automaton on a chain of operands and infix operators. *)
Inductive Tok (A : Type) : Type :=
| Operand (a : A)
| Operator (op : string).
Arguments Operand {A} a.
Arguments Operator {A} op.

Inductive Tree (A : Type) : Type :=
| Leaf (a : A)
| Node (l : Tree A) (op : string) (r : Tree A).
Arguments Leaf {A} a.
Arguments Node {A} l op r.

Section InfixParser.
Variable A : Type.
Variable table : list (string * Level).

Definition level_of (op : string) : option Level :=
  option_map snd (find (fun p => String.eqb (fst p) op) table).

Definition Pending : Type := (Tree A * string * Level)%type.

(** Complete the pending productions that win against the next operator. *)
Fixpoint unwind (stack : list Pending) (cur : Tree A) (next : Level)
  : option (list Pending * Tree A) :=
  match stack with
  | [] => Some ([], cur)
  | (l, op, lv) :: rest =>
      match resolve lv next with
      | Reduce => unwind rest (Node l op cur) next
      | Shift => Some (stack, cur)
      | Unresolved => None
      end
  end.

Fixpoint finish (stack : list Pending) (cur : Tree A) : Tree A :=
  match stack with
  | [] => cur
  | (l, op, _) :: rest => finish rest (Node l op cur)
  end.

Fixpoint run (stack : list Pending) (cur : Tree A) (input : list (Tok A))
  : option (Tree A) :=
  match input with
  | [] => Some (finish stack cur)
  | Operator op :: Operand b :: rest =>
      match level_of op with
      | Some lv =>
          match unwind stack cur lv with
          | Some (stack', cur') => run ((cur', op, lv) :: stack') (Leaf b) rest
          | None => None
          end
      | None => None
      end
  | _ => None
  end.

Definition parse_infix (input : list (Tok A)) : option (Tree A) :=
  match input with
  | Operand a :: rest => run [] (Leaf a) rest
  | _ => None
  end.

End InfixParser.
Arguments parse_infix {A} table input.

(** ** Shapes read off the rules *)

Fixpoint alternatives (r : Rule) : list Rule :=
  match r with
  | Choice a b => alternatives a ++ alternatives b
  | _ => [r]
  end.

(** The rules a rule refers to, and the fields it names. *)
Fixpoint symbols (r : Rule) : list string :=
  match r with
  | Sym n => [n]
  | Seq a b | Choice a b => symbols a ++ symbols b
  | Repeat a | Prec _ _ a | Field _ a | Alias a _ | Token a => symbols a
  | Blank | Str _ | Pattern _ => []
  end.

Fixpoint fields (r : Rule) : list string :=
  match r with
  | Field f a => f :: fields a
  | Seq a b | Choice a b => fields a ++ fields b
  | Repeat a | Prec _ _ a | Alias a _ | Token a => fields a
  | Blank | Str _ | Pattern _ | Sym _ => []
  end.

Definition mentions (G : Grammar) (n m : string) : bool :=
  match lookup G n with
  | Some r => existsb (String.eqb m) (symbols r)
  | None => false
  end.

Definition yap_grammars : list Grammar :=
  [GrammarJs.grammar; Draft1.grammar; Draft2.grammar].

(** ** The hole and the bare projection *)

(** The hole [h] is a rule of its own, an alternative of [atom], and no
    part of the pattern grammar. *)
Definition hole_accepted (G : Grammar) (h : string) : Prop :=
  lookup G "hole" = Some (Str h)
  /\ (forall ts, derivable G "hole" ts <-> ts = [h])
  /\ (forall ts, derivable G "hole" ts -> derivable G "atom" ts)
  /\ derivable G "expr" [h]
  /\ derivable G "source_file" [h]
  /\ lookup G "wildcard" = Some (Str "_")
  /\ mentions G "pattern" "hole" = false
  /\ mentions G "atom" "wildcard" = false.

Definition bare_projection (G : Grammar) : Prop :=
  (forall k, derivable G "identifier" [k] ->
             derivable G "projection" ["."; k] /\ derivable G "atom" ["."; k])
  /\ derivable G "projection" ["."; "foo"]
  /\ Forall (fun p => derives G (snd p) ["."; "foo"] -> fields (snd p) = ["key"])
            (rule_productions G "projection")
  /\ (forall k rec, derives G (Sym "atom") rec -> (rec ++ ["."; k])%list <> ["."; k])
  /\ derivable G "projection" ["a"; "."; "b"; "."; "c"].

(** ** Identifiers and labels *)

(** The identifier tokens are the lexemes of the pattern [re]. *)
Definition identifier_lexemes (G : Grammar) (re : Regex.t) : Prop :=
  forall ts, derivable G "identifier" ts <->
             exists s, ts = [s] /\ Regex.matches re s = true.

(** A keyword that is spelled like an identifier is derived by the
    identifier rule too, and can be the name that a let declaration binds. *)
Definition keyword_as_identifier (G : Grammar) (k : string) : Prop :=
  In k (keywords G)
  /\ derivable G "identifier" [k]
  /\ derivable G "letdec" ["let"; k; "="; "x"].

(** The sentence of the specification: the identifier tokens are the
    lexemes of [A-Za-z_][A-Za-z0-9_']* that are not keywords. *)
Definition identifier_spec (G : Grammar) : Prop :=
  forall s, derivable G "identifier" [s] <->
            (Regex.matches Lexical.IDENTIFIER_PATTERN s = true /\ is_keyword G s = false).

(** A label is one lexeme: a colon and, with nothing between, an
    identifier lexeme. *)
Definition label_single_token (G : Grammar) : Prop :=
  forall ts, derivable G "label" ts <->
             exists id, ts = [String ":" id]
                        /\ Regex.matches Lexical.IDENTIFIER_PATTERN id = true.

(** A label is two lexemes, the colon and an identifier token: the extras
    may stand between them. *)
Definition label_two_tokens (G : Grammar) : Prop :=
  forall ts, derivable G "label" ts <->
             exists x, ts = [":"; x] /\ derivable G "identifier" [x].

Definition is_space (c : ascii) : bool := Regex.matches Lexical.whitespace (str1 c).

(** ** The operator chains of the claims *)

Definition chain {A : Type} (a : A) (op1 : string) (b : A) (op2 : string) (c : A)
  : list (Tok A) :=
  [Operand a; Operator op1; Operand b; Operator op2; Operand c].

Definition nest_right {A : Type} (a : A) (op1 : string) (b : A) (op2 : string) (c : A)
  : Tree A :=
  Node (Leaf a) op1 (Node (Leaf b) op2 (Leaf c)).

Definition nest_left {A : Type} (a : A) (op1 : string) (b : A) (op2 : string) (c : A)
  : Tree A :=
  Node (Node (Leaf a) op1 (Leaf b)) op2 (Leaf c).

(** ** The tiers of the binary operators *)

Fixpoint insert_descending (z : Z) (l : list Z) : list Z :=
  match l with
  | [] => [z]
  | y :: r =>
      if (y <? z)%Z then z :: l
      else if (y =? z)%Z then l
      else y :: insert_descending z r
  end.

(** The operators of a table put in tiers, one tier for each declared
    precedence, the highest first. *)
Definition tiers (table : list (string * Level)) : list (list string) :=
  map (fun z => map fst (filter (fun e => (fst (snd e) =? z)%Z) table))
      (fold_right insert_descending [] (map (fun e => fst (snd e)) table)).

(** The tiers of the binary operators as section 4.2 of the specification
    orders them, the tightest first: the pipeline stands above the logical
    operators there. *)
Definition stated_tiers : list (list string) :=
  [["*"; "/"; "%"]; ["+"; "-"]; ["<>"; "++"];
   ["=="; "!="; "<"; ">"; "<="; ">="]; ["|>"; "<|"]; ["&&"]; ["||"]].

Fixpoint tier_index (ts : list (list string)) (op : string) : option nat :=
  match ts with
  | [] => None
  | t :: r => if existsb (String.eqb op) t then Some 0 else option_map S (tier_index r op)
  end.

(** Precedence follows the tiers [ts] with left associativity: in
    [a o1 b o2 c] the second operator takes [b] when its tier is tighter,
    and otherwise the first one does. *)
Definition follows_tiers (ts : list (list string)) (G : Grammar) : Prop :=
  forall (A : Type) (a b c : A) (o1 o2 : string) (i j : nat),
    tier_index ts o1 = Some i -> tier_index ts o2 = Some j ->
    parse_infix (infix_table G "operation") (chain a o1 b o2 c)
    = Some (if Nat.ltb j i then nest_right a o1 b o2 c else nest_left a o1 b o2 c).

Definition tiers_checked (ts : list (list string)) (table : list (string * Level)) : bool :=
  let ops := List.concat ts in
  forallb (fun o1 => forallb (fun o2 =>
    match level_of table o1, level_of table o2, tier_index ts o1, tier_index ts o2 with
    | Some l1, Some l2, Some i, Some j =>
        match resolve l1 l2 with
        | Shift => Nat.ltb j i
        | Reduce => negb (Nat.ltb j i)
        | Unresolved => false
        end
    | _, _, _, _ => false
    end) ops) ops.

(** ** Binder forms *)

Definition lam : string := str1 backslash.

(** The rule of the arrow types: [arrow] where the grammar has one,
    [pi] in src/grammar.js. *)
Definition arrow_kind (G : Grammar) : string :=
  match lookup G "arrow" with
  | Some _ => "arrow"
  | None => "pi"
  end.

(** The parameters of a lambda: the rule [params], or [repeat1($.param)]
    written in place in src/grammar.js. *)
Definition params_rule (G : Grammar) : Rule :=
  match lookup G "params" with
  | Some _ => Sym "params"
  | None => Dsl.repeat1 (Sym "param")
  end.

Definition arrows_nest_right (G : Grammar) : Prop :=
  derivable G (arrow_kind G) ["A"; "->"; "B"; "->"; "C"]
  /\ derivable G (arrow_kind G) ["B"; "->"; "C"]
  /\ derivable G (arrow_kind G) ["("; "A"; "->"; "B"; ")"; "->"; "C"].

(** [\x -> \y -> x] is a lambda whose body [\y -> x] is a lambda; its head
    [\x -> \y] is no node at all, and whatever is taken for the parameters
    and the body, the parameters are [x]. *)
Definition lambdas_nest_right (G : Grammar) : Prop :=
  derivable G "lambda" [lam; "x"; "->"; lam; "y"; "->"; "x"]
  /\ derivable G "lambda" [lam; "y"; "->"; "x"]
  /\ (forall n, ~ derivable G n [lam; "x"; "->"; lam; "y"])
  /\ (forall ps body,
        [lam; "x"; "->"; lam; "y"; "->"; "x"] = (lam :: ps ++ "->" :: body)%list ->
        derives G (params_rule G) ps ->
        ps = ["x"] /\ body = [lam; "y"; "->"; "x"]).

(** ** The annotation *)




(** A precedence written in the grammar: [prec.left], [prec.right], or
    [prec] with a number other than 0. *)
Definition declared (lv : Level) : bool :=
  match snd lv with
  | Some _ => true
  | None => negb (fst lv =? 0)%Z
  end.








(** ** Pi and arrow *)









(** ** Brace literals *)







(** ** What a rule can end with

    A static reading of the rules: relative to a set [S] of rule names,
    [never_empty r] says that [r] derives no empty sequence and
    [never_ends bad r] that no sequence it derives ends with the lexeme
    [bad]; [ends_checked] checks the rules of [S] against themselves. *)

Section Ends.
Variable G : Grammar.
Variable S : list string.
Variable bad : string.

Fixpoint never_empty (r : Rule) : bool :=
  match r with
  | Blank | Repeat _ => false
  | Str _ | Pattern _ | Token _ => true
  | Sym n => existsb (String.eqb n) S
  | Seq a b => if never_empty a then true else never_empty b
  | Choice a b => if never_empty a then never_empty b else false
  | Prec _ _ a | Field _ a | Alias a _ => never_empty a
  end.

Fixpoint never_ends (r : Rule) : bool :=
  match r with
  | Blank => true
  | Str s => negb (String.eqb s bad)
  | Pattern re => negb (Regex.matches re bad)
  | Token a => negb (Regex.matches (lex_regex a) bad)
  | Sym n => existsb (String.eqb n) S
  | Seq a b =>
      if never_ends b then (if never_empty b then true else never_ends a) else false
  | Choice a b => if never_ends a then never_ends b else false
  | Repeat a | Prec _ _ a | Field _ a | Alias a _ => never_ends a
  end.

Definition ends_checked : bool :=
  forallb (fun n => match lookup G n with
                    | Some body => if never_empty body then never_ends body else false
                    | None => true
                    end) S.

End Ends.

(** The rules that can end with a semicolon or belong to the top level. *)
Definition semicolon_rules : list string :=
  ["source_file"; "module"; "script"; "exports"; "import"; "return_statement"].

Definition expression_rules (G : Grammar) : list string :=
  filter (fun n => negb (existsb (String.eqb n) semicolon_rules)) (map fst (rules G)).

Definition ends_with (bad : string) (ts : list string) : Prop :=
  exists pre, ts = (pre ++ [bad])%list.

(** ** The helper functions of the grammar files *)

(** Items put one after the other with [sep] between two of them. *)
Definition join_with (sep : string) (items : list (list string)) : list string :=
  match items with
  | [] => []
  | i :: rest => (i ++ List.concat (map (cons sep) rest))%list
  end.

(** ** Where a node may begin and stop *)

Definition all_rules (G : Grammar) : list string := map fst (rules G).

(** The mirror of [never_ends]: relative to the rule names [S], no
    sequence that [r] derives begins with the lexeme [bad]. *)
Fixpoint never_starts (S : list string) (bad : string) (r : Rule) : bool :=
  match r with
  | Blank => true
  | Str s => negb (String.eqb s bad)
  | Pattern re => negb (Regex.matches re bad)
  | Token a => negb (Regex.matches (lex_regex a) bad)
  | Sym n => existsb (String.eqb n) S
  | Seq a b =>
      if never_starts S bad a
      then (if never_empty S a then true else never_starts S bad b)
      else false
  | Choice a b => if never_starts S bad a then never_starts S bad b else false
  | Repeat a | Prec _ _ a | Field _ a | Alias a _ => never_starts S bad a
  end.

Definition starts_checked (G : Grammar) (S : list string) (bad : string) : bool :=
  forallb (fun n => match lookup G n with
                    | Some body => if never_empty S body then never_starts S bad body else false
                    | None => true
                    end) S.

Definition starts_with (bad : string) (ts : list string) : Prop :=
  exists rest, ts = bad :: rest.

(** Punctuation and operators that expect something after them, and
    those that expect something before them. *)
Definition open_ended : list string :=
  ["("; "["; "{"; "[|"; ","; "|"; ":"; "="; "."; "#"; "@"; lam; "->"; "=>";
   "+"; "-"; "/"; "%"; "<>"; "++"; "=="; "!="; "<="; ">="; "<"; ">"; "|>"; "<|"; "&&"; "||"].

Definition open_started : list string :=
  [")"; "]"; "}"; "[|"; "|]"; ","; ";"; "="; "->"; "=>";
   "/"; "%"; "<>"; "++"; "=="; "!="; "<="; ">="; ">"; "|>"; "<|"; "&&"; "||"].

(** ** Delimiters

    [depth o c d ts] reads [ts] from depth [d]: the opening lexeme [o]
    goes one level down, the closing lexeme [c] one level up, and a
    closing lexeme at depth 0 fails. *)
Fixpoint depth (o c : string) (d : nat) (ts : list string) : option nat :=
  match ts with
  | [] => Some d
  | t :: rest =>
      if String.eqb t o then depth o c (S d) rest
      else if String.eqb t c
           then match d with
                | O => None
                | S d' => depth o c d' rest
                end
           else depth o c d rest
  end.

(** The effect of a sequence on one pair of delimiters: how many closings
    meet no opening, and how many openings stay open. *)
Definition Effect : Type := (nat * nat)%type.

Definition then_effect (e1 e2 : Effect) : Effect :=
  if Nat.ltb (snd e1) (fst e2)
  then (fst e1 + (fst e2 - snd e1), snd e2)
  else (fst e1, (snd e1 - fst e2) + snd e2).

Definition lexeme_effect (o c s : string) : Effect :=
  if String.eqb s o then (0, 1) else if String.eqb s c then (1, 0) else (0, 0).

Fixpoint effect_of (o c : string) (ts : list string) : Effect :=
  match ts with
  | [] => (0, 0)
  | t :: rest => then_effect (lexeme_effect o c t) (effect_of o c rest)
  end.

Definition same_effect (e1 e2 : Effect) : bool :=
  if Nat.eqb (fst e1) (fst e2) then Nat.eqb (snd e1) (snd e2) else false.

(** The effect of whatever a rule derives, when it is the same for all it
    derives: the rules of [S] are taken to have none. *)
Fixpoint rule_effect (S : list string) (o c : string) (r : Rule) : option Effect :=
  match r with
  | Blank => Some (0, 0)
  | Str s => Some (lexeme_effect o c s)
  | Pattern re =>
      if Regex.matches re o then None
      else if Regex.matches re c then None else Some (0, 0)
  | Token a =>
      if Regex.matches (lex_regex a) o then None
      else if Regex.matches (lex_regex a) c then None else Some (0, 0)
  | Sym n => if existsb (String.eqb n) S then Some (0, 0) else None
  | Seq a b =>
      match rule_effect S o c a, rule_effect S o c b with
      | Some e1, Some e2 => Some (then_effect e1 e2)
      | _, _ => None
      end
  | Choice a b =>
      match rule_effect S o c a, rule_effect S o c b with
      | Some e1, Some e2 => if same_effect e1 e2 then Some e1 else None
      | _, _ => None
      end
  | Repeat a =>
      match rule_effect S o c a with
      | Some e => if same_effect e (0, 0) then Some (0, 0) else None
      | None => None
      end
  | Prec _ _ a | Field _ a | Alias a _ => rule_effect S o c a
  end.

Definition effect_checked (G : Grammar) (S : list string) (o c : string) : bool :=
  forallb (fun n => match lookup G n with
                    | Some body =>
                        match rule_effect S o c body with
                        | Some e => same_effect e (0, 0)
                        | None => false
                        end
                    | None => true
                    end) S.

Definition delimiter_pairs : list (string * string) :=
  [("(", ")"); ("{", "}"); ("[", "]"); ("[|", "|]")].

(** ** Entry points *)

(** The rules below [script]: all but the three that hold the export list. *)
Definition script_rules (G : Grammar) : list string :=
  filter (fun n => negb (existsb (String.eqb n) ["source_file"; "module"; "exports"]))
         (all_rules G).

(** ** Chains of operators *)

(** The tokens of a tree, left to right. *)
Fixpoint flatten {A : Type} (t : Tree A) : list (Tok A) :=
  match t with
  | Leaf a => [Operand a]
  | Node l op r => (flatten l ++ Operator op :: flatten r)%list
  end.

(** An operand followed by operators, each with its right operand. *)
Definition chain_of {A : Type} (a : A) (rest : list (string * A)) : list (Tok A) :=
  Operand a :: flat_map (fun p => [Operator (fst p); Operand (snd p)]) rest.

Definition operators (G : Grammar) : list string :=
  map fst (infix_table G "operation").

(** The pending productions all have an associativity. *)
Definition settled (A : Type) (stack : list (Pending A)) : Prop :=
  Forall (fun p => snd (snd p) <> None) stack.

(** ** The automaton of a pattern *)

Definition item_eqb (i j : Regex.Item) : bool :=
  match i, j with
  | Regex.One c, Regex.One d => Ascii.eqb c d
  | Regex.Range a b, Regex.Range c d => if Ascii.eqb a c then Ascii.eqb b d else false
  | _, _ => false
  end.

Fixpoint items_eqb (xs ys : list Regex.Item) : bool :=
  match xs, ys with
  | [], [] => true
  | x :: xs', y :: ys' => if item_eqb x y then items_eqb xs' ys' else false
  | _, _ => false
  end.

Fixpoint regex_eqb (r s : Regex.t) : bool :=
  match r, s with
  | Regex.Null, Regex.Null | Regex.Eps, Regex.Eps | Regex.Dot, Regex.Dot => true
  | Regex.Lit c, Regex.Lit d => Ascii.eqb c d
  | Regex.Class n xs, Regex.Class m ys => if Bool.eqb n m then items_eqb xs ys else false
  | Regex.Cat a b, Regex.Cat c d | Regex.Alt a b, Regex.Alt c d =>
      if regex_eqb a c then regex_eqb b d else false
  | Regex.Star a, Regex.Star b => regex_eqb a b
  | _, _ => false
  end.

Definition all_ascii : list ascii := map ascii_of_nat (List.seq 0 256).

(** The derivative again, with the ranges compared on binary numbers: the
    same function (see [step_deriv]), quicker to run on all characters. *)
Definition in_item_fast (c : ascii) (i : Regex.Item) : bool :=
  match i with
  | Regex.One d => Ascii.eqb c d
  | Regex.Range lo hi =>
      if N.leb (N_of_ascii lo) (N_of_ascii c) then N.leb (N_of_ascii c) (N_of_ascii hi)
      else false
  end.

Fixpoint step (c : ascii) (r : Regex.t) : Regex.t :=
  match r with
  | Regex.Null | Regex.Eps => Regex.Null
  | Regex.Dot => if Ascii.eqb c Regex.newline then Regex.Null else Regex.Eps
  | Regex.Lit d => if Ascii.eqb c d then Regex.Eps else Regex.Null
  | Regex.Class n items =>
      if xorb n (existsb (in_item_fast c) items) then Regex.Eps else Regex.Null
  | Regex.Cat a b =>
      Regex.alt (Regex.cat (step c a) b) (if Regex.nullable a then step c b else Regex.Null)
  | Regex.Alt a b => Regex.alt (step c a) (step c b)
  | Regex.Star a => Regex.cat (step c a) (Regex.Star a)
  end.

(** The pattern left after reading [s]. *)
Fixpoint derivs (s : string) (r : Regex.t) : Regex.t :=
  match s with
  | EmptyString => r
  | String c s' => derivs s' (Regex.deriv c r)
  end.

Definition known (Q : list Regex.t) (r : Regex.t) : bool := existsb (regex_eqb r) Q.

(** The patterns reached from [todo] by reading characters, added to [Q]. *)
Fixpoint explore (fuel : nat) (Q todo : list Regex.t) : list Regex.t :=
  match fuel with
  | O => Q
  | S k =>
      match todo with
      | [] => Q
      | r :: rest =>
          if known Q r then explore k Q rest
          else explore k (r :: Q) (map (fun c => step c r) all_ascii ++ rest)%list
      end
  end.

Definition states (r : Regex.t) : list Regex.t := explore 4000 [] [r].

(** [Q] holds every pattern reached from one of its own. *)
Definition closed_states (Q : list Regex.t) : bool :=
  forallb (fun q => forallb (fun c => known Q (step c q)) all_ascii) Q.

Definition is_null (r : Regex.t) : bool :=
  match r with
  | Regex.Null => true
  | _ => false
  end.

(** Nothing can follow a lexeme of [Q]: a pattern of [Q] that accepts has
    no continuation. *)
Definition final_states (Q : list Regex.t) : bool :=
  forallb (fun q => if Regex.nullable q
                    then forallb (fun c => is_null (step c q)) all_ascii
                    else true) Q.

(** Every lexeme of [Q] stops on the character [e]. *)
Definition stops_on (e : ascii) (Q : list Regex.t) : bool :=
  forallb (fun q =>
    forallb (fun c => if Regex.nullable (step c q) then Ascii.eqb c e else true)
            all_ascii) Q.

(** No lexeme of [r1] begins like one of [r2]. *)
Definition apart (r1 r2 : Regex.t) : bool :=
  if (if Regex.nullable r1 then Regex.nullable r2 else false) then false
  else forallb (fun c => if is_null (step c r1) then true
                         else is_null (step c r2)) all_ascii.

(** ** Token classes *)

(** The rules that are one lexeme of a pattern, and their patterns. *)
Definition lexical (r : Rule) : bool :=
  match r with
  | Pattern _ | Token _ => true
  | _ => false
  end.

Definition token_rules (G : Grammar) : list (string * Regex.t) :=
  flat_map (fun n => match lookup G n with
                     | Some body => if lexical body then [(n, lex_regex body)] else []
                     | None => []
                     end)
           (all_rules G).

Definition classes_apart (G : Grammar) : bool :=
  forallb (fun p => forallb (fun q => if String.eqb (fst p) (fst q) then true
                                      else apart (snd p) (snd q))
                            (token_rules G)) (token_rules G).

(** Every lexeme of [r] begins with the character [e]. *)
Definition starts_on (e : ascii) (r : Regex.t) : bool :=
  forallb (fun c => if is_null (step c r) then true else Ascii.eqb c e) all_ascii.

(** The patterns of [Q] that accept after one more character, and the
    check that they are entered on the character [e] only. *)
Definition before_last (Q : list Regex.t) : list Regex.t :=
  filter (fun q => existsb (fun c => Regex.nullable (step c q)) all_ascii) Q.

Definition enters_last_on (e : ascii) (Q : list Regex.t) : bool :=
  let B := before_last Q in
  forallb (fun q =>
    forallb (fun c => if known B (step c q) then Ascii.eqb c e else true) all_ascii) Q.

(** The comment token, and what is left of it after [/*]. *)
Definition comment_re : Regex.t := lex_regex comment_rule.
Definition block_comment_rest : Regex.t := derivs "/*" comment_re.
Definition line_comment_rest : Regex.t := derivs "//" comment_re.

Definition not_newline (c : ascii) : bool := negb (Ascii.eqb c Regex.newline).

(** ** Numbers *)

Definition is_digit (c : ascii) : bool := Regex.in_class false [Lexical.digit] c.

(** One or more digits. *)
Definition all_digits (s : string) : bool :=
  match s with
  | EmptyString => false
  | String c r => if is_digit c then string_forall is_digit r else false
  end.

(** ** Well-formed grammars *)

Definition listed (xs : list string) (n : string) : bool := existsb (String.eqb n) xs.

(** The rules reached from [todo], added to [seen]. *)
Fixpoint reach (fuel : nat) (G : Grammar) (seen todo : list string) : list string :=
  match fuel with
  | O => seen
  | S k =>
      match todo with
      | [] => seen
      | n :: rest =>
          if listed seen n then reach k G seen rest
          else match lookup G n with
               | Some body => reach k G (n :: seen) (symbols body ++ rest)%list
               | None => reach k G (n :: seen) rest
               end
      end
  end.

(** The rules used by a source file: those reached from the first rule and
    from the extras. *)
Definition used (G : Grammar) : list string :=
  reach 2000 G [] (match rules G with
                   | (start, _) :: _ => start :: flat_map symbols (extras G)
                   | [] => []
                   end).

(** Every name the grammar mentions is the name of a rule. *)
Definition names_defined (G : Grammar) : bool :=
  forallb (listed (all_rules G))
    (flat_map (fun p => symbols (snd p)) (rules G)
     ++ flat_map symbols (extras G)
     ++ List.concat (conflicts G)
     ++ supertypes G
     ++ match word G with Some w => [w] | None => [] end)%list.

(** Every supertype is a choice of rules and nothing else. *)
Definition is_sym (r : Rule) : bool :=
  match r with
  | Sym _ => true
  | _ => false
  end.

Definition supertypes_plain (G : Grammar) : bool :=
  forallb (fun n => match lookup G n with
                    | Some body => forallb is_sym (alternatives body)
                    | None => false
                    end) (supertypes G).

Fixpoint distinct (xs : list string) : bool :=
  match xs with
  | [] => true
  | x :: rest => if listed rest x then false else distinct rest
  end.

(** Lexemes to try the patterns on. *)
Definition candidates : list string :=
  ["a"; "0"; String dquote (String dquote EmptyString); ":a"; "//"; " "].

Definition sample_lexeme (re : Regex.t) : option (list string) :=
  option_map (fun s => [s]) (find (Regex.matches re) candidates).

(** A sequence the rule derives, from the sequences [W] found for the
    rules. *)
Fixpoint sample (W : list (string * list string)) (r : Rule) : option (list string) :=
  match r with
  | Blank | Repeat _ => Some []
  | Str s => Some [s]
  | Pattern re => sample_lexeme re
  | Token a => sample_lexeme (lex_regex a)
  | Sym n => option_map snd (find (fun p => String.eqb (fst p) n) W)
  | Seq a b =>
      match sample W a, sample W b with
      | Some x, Some y => Some (x ++ y)%list
      | _, _ => None
      end
  | Choice a b =>
      match sample W a with
      | Some x => Some x
      | None => sample W b
      end
  | Prec _ _ a | Field _ a | Alias a _ => sample W a
  end.

Definition sample_step (G : Grammar) (W : list (string * list string))
  : list (string * list string) :=
  fold_left (fun W n =>
               if listed (map fst W) n then W
               else match lookup G n with
                    | Some body =>
                        match sample W body with
                        | Some ts => (n, ts) :: W
                        | None => W
                        end
                    | None => W
                    end)
            (all_rules G) W.

Fixpoint samples (fuel : nat) (G : Grammar) (W : list (string * list string))
  : list (string * list string) :=
  match fuel with
  | O => W
  | S k => samples k G (sample_step G W)
  end.

Definition productive (G : Grammar) : bool :=
  forallb (listed (map fst (samples 20 G []))) (all_rules G).

(** The sequences found are derived by their rules. *)
Definition sampled (G : Grammar) (W : list (string * list string)) : Prop :=
  Forall (fun p => derivable G (fst p) (snd p)) W.

(** ** Patterns and terms *)

(** Rename the rules a rule refers to. *)
Fixpoint rename (f : string -> string) (r : Rule) : Rule :=
  match r with
  | Sym n => Sym (f n)
  | Seq a b => Seq (rename f a) (rename f b)
  | Choice a b => Choice (rename f a) (rename f b)
  | Repeat a => Repeat (rename f a)
  | Prec a n b => Prec a n (rename f b)
  | Field x a => Field x (rename f a)
  | Alias a x => Alias (rename f a) x
  | Blank | Str _ | Pattern _ | Token _ => r
  end.

Definition renaming (m : list (string * string)) (n : string) : string :=
  match find (fun p => String.eqb (fst p) n) m with
  | Some p => snd p
  | None => n
  end.

(** The term rule that stands for each pattern rule of src/grammar.js. *)
Definition pattern_terms : list (string * string) :=
  [("pattern", "type"); ("pattern_variable", "variable"); ("pattern_literal", "literal");
   ("pattern_tagged", "tagged"); ("pattern_struct", "struct"); ("pattern_tuple", "tuple");
   ("pattern_list", "list"); ("pattern_row", "row"); ("pattern_key_value", "key_value");
   ("wildcard", "hole")].

(** The rules outside [m] that refer to no rule of [m]. *)
Definition untouched (m : list (string * string)) (r : Rule) : bool :=
  forallb (fun n => negb (listed (map fst m) n)) (symbols r).

(** [C] holds every rule its rules refer to. *)
Definition closed_rules (G : Grammar) (C : list string) : bool :=
  forallb (fun n => match lookup G n with
                    | Some body => forallb (listed C) (symbols body)
                    | None => true
                    end) C.

(** The rules of [C] outside [m] refer to no rule of [m]. *)
Definition rest_untouched (G : Grammar) (m : list (string * string)) (C : list string)
  : bool :=
  forallb (fun n => if listed (map fst m) n then true
                    else match lookup G n with
                         | Some body => untouched m body
                         | None => true
                         end) C.

(** The rules a pattern of src/grammar.js is made of. *)
Definition pattern_rules : list string := reach 2000 GrammarJs.grammar [] ["pattern"].

(** ** src/unnamed/part_001: the highlight query

    A pattern of the query is a string, the wildcard [_] or a node with
    its children, a child being named by a field or not; each may carry
    a capture. *)

Inductive QPattern : Type :=
| QString (s : string) (capture : option string)
| QAny (capture : option string)
| QNode (kind : string) (children : list QChild) (capture : option string)
with QChild : Type :=
| Child (field : option string) (pattern : QPattern).

Definition anonymous (s capture : string) : QPattern := QString s (Some capture).
Definition leaf (kind capture : string) : QPattern := QNode kind [] (Some capture).
Definition node (kind : string) (children : list QChild) : QPattern :=
  QNode kind children None.
Definition under (field : string) (q : QPattern) : QChild := Child (Some field) q.
Definition inside (q : QPattern) : QChild := Child None q.

Definition highlights : list QPattern := [
  (* Keywords *)
  anonymous "let" "keyword"; anonymous "using" "keyword"; anonymous "foreign" "keyword";
  anonymous "export" "keyword"; anonymous "import" "keyword"; anonymous "match" "keyword";
  anonymous "return" "keyword"; anonymous "reset" "keyword"; anonymous "shift" "keyword";
  anonymous "resume" "keyword"; anonymous "as" "keyword";
  (* Type keywords *)
  anonymous "Type" "type"; anonymous "Unit" "type"; anonymous "Row" "type";
  (* Boolean and special literals *)
  anonymous "true" "boolean"; anonymous "false" "boolean";
  anonymous "!" "constant.builtin";
  (* Mu and lambda syntax *)
  anonymous "μ" "keyword"; anonymous (str1 backslash) "keyword";
  anonymous "=>" "keyword"; anonymous "->" "keyword";
  (* Operators *)
  anonymous "+" "operator"; anonymous "-" "operator"; anonymous "*" "operator";
  anonymous "/" "operator"; anonymous "%" "operator"; anonymous "==" "operator";
  anonymous "!=" "operator"; anonymous "<" "operator"; anonymous ">" "operator";
  anonymous "<=" "operator"; anonymous ">=" "operator"; anonymous "&&" "operator";
  anonymous "||" "operator"; anonymous "|>" "operator"; anonymous "<|" "operator";
  anonymous "<>" "operator"; anonymous "++" "operator";
  (* Punctuation *)
  anonymous "." "punctuation.delimiter"; anonymous "," "punctuation.delimiter";
  anonymous ";" "punctuation.delimiter"; anonymous ":" "punctuation.delimiter";
  anonymous "|" "punctuation.delimiter"; anonymous "@" "punctuation.delimiter";
  (* Brackets *)
  anonymous "{" "punctuation.bracket"; anonymous "}" "punctuation.bracket";
  anonymous "[" "punctuation.bracket"; anonymous "]" "punctuation.bracket";
  anonymous "(" "punctuation.bracket"; anonymous ")" "punctuation.bracket";
  anonymous "<" "punctuation.bracket"; anonymous ">" "punctuation.bracket";
  anonymous "[|" "punctuation.bracket"; anonymous "|]" "punctuation.bracket";
  (* Tagged constructors *)
  node "tagged" [under "tag" (leaf "identifier" "tag")];
  node "pattern_tagged" [under "tag" (leaf "identifier" "tag")];
  (* Function names *)
  node "application"
    [under "function" (node "variable" [inside (leaf "identifier" "function")])];
  (* Let bindings *)
  node "letdec" [under "name" (leaf "identifier" "variable")];
  (* Lambda parameters *)
  node "param" [inside (leaf "identifier" "variable.parameter")];
  node "typed_param" [inside (leaf "identifier" "variable.parameter")];
  (* Pi/Mu bindings *)
  node "pi" [under "domain" (QAny (Some "type")); under "codomain" (QAny (Some "type"))];
  node "mu" [under "name" (leaf "identifier" "variable")];
  (* Match patterns and arms *)
  node "alternative" [under "pattern" (leaf "pattern" "pattern")];
  node "pattern_variable" [inside (leaf "identifier" "variable")];
  node "pattern_tagged" [under "tag" (leaf "identifier" "tag")];
  (* Identifiers *)
  leaf "identifier" "variable";
  (* Literals *)
  leaf "string" "string"; leaf "number" "number";
  (* Labels *)
  leaf "label" "label";
  (* Comments *)
  leaf "comment" "comment";
  (* Module/import/export *)
  node "import" [inside (leaf "string" "string")];
  node "exports" [inside (leaf "identifier" "variable")]
].

(** The rules named under the field [f] of a rule. *)
Fixpoint field_symbols (f : string) (r : Rule) : list string :=
  match r with
  | Field g a => if String.eqb f g then symbols a else field_symbols f a
  | Seq a b | Choice a b => (field_symbols f a ++ field_symbols f b)%list
  | Repeat a | Prec _ _ a | Alias a _ | Token a => field_symbols f a
  | Blank | Str _ | Pattern _ | Sym _ => []
  end.

(** The kind of node a pattern asks for. *)
Definition asked (q : QPattern) : option string :=
  match q with
  | QNode k _ _ => Some k
  | _ => None
  end.

(** A child can stand where the pattern puts it: under a field the parent
    rule has, and of a kind that the rules named there lead to. *)
Definition child_fits (G : Grammar) (body : Rule) (f : option string) (q : QPattern)
  : bool :=
  let from := match f with
              | Some x => field_symbols x body
              | None => symbols body
              end in
  if match f with
     | Some x => listed (fields body) x
     | None => true
     end
  then match asked q with
       | Some k => listed (reach 2000 G [] from) k
       | None => true
       end
  else false.

(** Every string of the pattern is a token of the grammar, every node a
    rule, and every child can stand where it is put. *)
Fixpoint fits (G : Grammar) (q : QPattern) : bool :=
  match q with
  | QString s _ => listed (all_literals G) s
  | QAny _ => true
  | QNode k children _ =>
      match lookup G k with
      | Some body =>
          forallb (fun c => match c with
                            | Child f q' =>
                                if child_fits G body f q' then fits G q' else false
                            end) children
      | None => false
      end
  end.

(** The kinds of node a pattern names. *)
Fixpoint kinds_of (q : QPattern) : list string :=
  match q with
  | QString _ _ | QAny _ => []
  | QNode k children _ =>
      k :: flat_map (fun c => match c with Child _ q' => kinds_of q' end) children
  end.

(** ** Binding strength *)

(** The forms that bind their body to the right: they are declared below
    every binary operator. *)
Definition binders : list string := ["pi"; "lambda"; "mu"; "tagged"].

(** Every level of [n] against every level of [m]: the action taken when a
    production of [n] is complete and the next token continues one of
    [m]. *)
Definition always (G : Grammar) (n m : string) (a : Action) : bool :=
  forallb (fun ln => forallb (fun lm => match resolve ln lm, a with
                                        | Shift, Shift | Reduce, Reduce => true
                                        | _, _ => false
                                        end) (levels G m)) (levels G n).

(** * Properties *)

(** ** The chart is exact *)

Lemma app_same_length {A : Type} (a c b d : list A) :
  List.length a = List.length c -> (a ++ b = c ++ d)%list -> a = c /\ b = d.
Proof.
  revert c. induction a as [|x a IH]; intros [|y c] L E; simpl in *;
    try discriminate.
  - now split.
  - injection E as -> E. injection L as L.
    destruct (IH c L E) as [-> ->]. now split.
Qed.

Section ChartFacts.
Variable G : Grammar.
Variable w : list string.

Local Open Scope list_scope.

Lemma sub_length i j : j <= List.length w -> List.length (sub w i j) = j - i.
Proof.
  intros Hj. unfold sub.
  rewrite length_firstn, length_skipn. lia.
Qed.

Lemma sub_app i k j : i <= k -> k <= j -> sub w i k ++ sub w k j = sub w i j.
Proof.
  intros Hik Hkj. unfold sub.
  replace (skipn k w) with (skipn (k - i) (skipn i w))
    by (rewrite skipn_skipn; f_equal; lia).
  replace (j - i) with ((k - i) + (j - k)) by lia.
  generalize (skipn i w) (k - i) (j - k). clear.
  intros l a. revert l. induction a as [|a IH]; intros l b; simpl.
  - reflexivity.
  - destruct l as [|x l]; simpl.
    + now rewrite firstn_nil.
    + now rewrite IH.
Qed.

Lemma sub_split t1 t2 i j :
  i <= j -> j <= List.length w -> t1 ++ t2 = sub w i j ->
  i + List.length t1 <= j /\ t1 = sub w i (i + List.length t1)
  /\ t2 = sub w (i + List.length t1) j.
Proof.
  intros Hij Hj E.
  assert (L : List.length t1 + List.length t2 = j - i)
    by (rewrite <- length_app, E; now apply sub_length).
  assert (Hk : i + List.length t1 <= j) by lia.
  split; [exact Hk|].
  rewrite <- (sub_app i (i + List.length t1) j) in E by lia.
  apply app_same_length in E.
  - destruct E as [E1 E2]. now split.
  - rewrite sub_length by lia. lia.
Qed.

Lemma sub_whole : sub w 0 (List.length w) = w.
Proof.
  unfold sub. simpl. rewrite Nat.sub_0_r. apply firstn_all.
Qed.

Lemma in_spans i j : i <= j -> j <= List.length w -> In (i, j) (spans w).
Proof.
  intros Hij Hj. unfold spans. apply in_flat_map. exists i. split.
  - apply in_seq. lia.
  - apply in_map. apply in_seq. lia.
Qed.

Lemma lookup_in n body :
  lookup G n = Some body -> exists p, In p (rules G) /\ fst p = n /\ snd p = body.
Proof.
  unfold lookup. intros H.
  destruct (find _ (rules G)) as [p|] eqn:F; [|discriminate].
  simpl in H. injection H as H. apply find_some in F. destruct F as [Hin Heq].
  apply String.eqb_eq in Heq. now exists p.
Qed.

Section Star.
Variable step : nat -> nat -> bool.

Lemma star_le fuel i j : star step fuel i j = true -> i <= j.
Proof.
  destruct fuel as [|f]; simpl; destruct (Nat.eqb i j) eqn:E;
    try (apply Nat.eqb_eq in E; lia); try discriminate.
  intros H. apply existsb_exists in H. destruct H as [k [Hk _]].
  apply in_seq in Hk. lia.
Qed.

Lemma star_lower fuel' : forall fuel i j,
  star step fuel i j = true -> j - i <= fuel' -> star step fuel' i j = true.
Proof.
  induction fuel' as [|f' IH]; intros fuel i j H Hd.
  - pose proof (star_le _ _ _ H). assert (i = j) by lia. subst.
    simpl. now rewrite Nat.eqb_refl.
  - destruct fuel as [|f]; simpl in *; destruct (Nat.eqb i j) eqn:E; auto;
      try discriminate.
    apply existsb_exists in H. destruct H as [k [Hk Hs]].
    apply existsb_exists. exists k. split; [exact Hk|].
    destruct (step i k); [|discriminate].
    apply in_seq in Hk. pose proof (star_le _ _ _ Hs).
    apply (IH f); [exact Hs|lia].
Qed.

Lemma star_cons fuel i k j :
  i < k -> j <= fuel -> step i k = true -> star step fuel k j = true ->
  star step fuel i j = true.
Proof.
  intros Hik Hj Hs Hk. pose proof (star_le _ _ _ Hk).
  destruct fuel as [|f]; [lia|]. simpl.
  destruct (Nat.eqb i j) eqn:E; [reflexivity|].
  apply existsb_exists. exists k. split.
  - apply in_seq. lia.
  - rewrite Hs. apply (star_lower f (S f)); [exact Hk|lia].
Qed.

End Star.

Lemma holds_in T n i j : In (n, i, j) T -> holds T n i j = true.
Proof.
  intros H. unfold holds. apply existsb_exists. exists (n, i, j).
  split; [exact H|]. now rewrite !Nat.eqb_refl, String.eqb_refl.
Qed.

Lemma holds_inv T n i j : holds T n i j = true -> In (n, i, j) T.
Proof.
  unfold holds. intros H. apply existsb_exists in H.
  destruct H as [[[m a] b] [Hin H]].
  destruct (Nat.eqb a i) eqn:E1; [|discriminate].
  destruct (Nat.eqb b j) eqn:E2; [|discriminate].
  apply Nat.eqb_eq in E1, E2. apply String.eqb_eq in H. now subst.
Qed.

(** Completeness: a closed chart holds every derivable triple. *)
Lemma eval_complete T :
  closed G w T ->
  forall r ts, derives G r ts ->
  forall i j, i <= j -> j <= List.length w -> ts = sub w i j -> eval w T r i j = true.
Proof.
  intros HC r ts D.
  induction D as
    [ | s | re s Hm | r s Hm | n body ts Hl D IH | a b t1 t2 D1 IH1 D2 IH2
    | a b ts D IH | a b ts D IH | r | r t1 t2 D1 IH1 D2 IH2
    | a n r ts D IH | f r ts D IH | r n ts D IH ];
    intros i j Hij Hj E; cbn [eval].
  - now rewrite <- E.
  - rewrite <- E. apply String.eqb_refl.
  - now rewrite <- E.
  - now rewrite <- E.
  - apply (HC n body (i, j) Hl (in_spans i j Hij Hj)).
    unfold fires. simpl. exact (IH i j Hij Hj E).
  - destruct (sub_split _ _ _ _ Hij Hj E) as [Hk [E1 E2]].
    apply existsb_exists. exists (i + List.length t1). split.
    + apply in_seq. lia.
    + rewrite (IH1 _ _ (Nat.le_add_r _ _) (Nat.le_trans _ _ _ Hk Hj) E1).
      apply (IH2 _ _ Hk Hj E2).
  - now rewrite (IH i j Hij Hj E).
  - rewrite (IH i j Hij Hj E). now destruct (eval w T a i j).
  - assert (L : List.length (sub w i j) = 0) by now rewrite <- E.
    rewrite sub_length in L by exact Hj. assert (i = j) by lia. subst.
    destruct (List.length w); simpl; now rewrite Nat.eqb_refl.
  - destruct (sub_split _ _ _ _ Hij Hj E) as [Hk [E1 E2]].
    specialize (IH1 _ _ (Nat.le_add_r _ _) (Nat.le_trans _ _ _ Hk Hj) E1).
    specialize (IH2 _ _ Hk Hj E2). cbn [eval] in IH2.
    destruct (List.length t1) as [|m] eqn:L.
    + now rewrite Nat.add_0_r in IH2.
    + apply (star_cons _ _ i (i + S m) j); auto. lia.
  - now apply IH.
  - now apply IH.
  - now apply IH.
Qed.

Lemma spans_le i j : In (i, j) (spans w) -> i <= j.
Proof.
  unfold spans. intros H. apply in_flat_map in H. destruct H as [a [_ H]].
  apply in_map_iff in H. destruct H as [b [E H]]. injection E as -> ->.
  apply in_seq in H. lia.
Qed.

Lemma star_sound T r :
  (forall i j, i <= j -> eval w T r i j = true -> derives G r (sub w i j)) ->
  forall fuel i j, star (eval w T r) fuel i j = true -> derives G (Repeat r) (sub w i j).
Proof.
  intros Hr fuel. induction fuel as [|f IH]; intros i j H; simpl in H;
    destruct (Nat.eqb i j) eqn:E.
  - apply Nat.eqb_eq in E. subst. unfold sub.
    rewrite Nat.sub_diag. simpl. constructor.
  - discriminate.
  - apply Nat.eqb_eq in E. subst. unfold sub.
    rewrite Nat.sub_diag. simpl. constructor.
  - apply existsb_exists in H. destruct H as [k [Hk H]].
    destruct (eval w T r i k) eqn:Ek; [|discriminate].
    apply in_seq in Hk. pose proof (star_le _ _ _ _ H).
    rewrite <- (sub_app i k j) by lia.
    apply D_RepeatCons; [apply Hr; [lia|exact Ek]|now apply IH].
Qed.

Lemma eval_sound T :
  sound G w T ->
  forall r i j, i <= j -> eval w T r i j = true -> derives G r (sub w i j).
Proof.
  intros HT r.
  induction r as [ | s | re | n | a IHa b IHb | a IHa b IHb | r IH
                 | a n r IH | f r IH | r IH n | r IH ];
    intros i j Hij H; cbn [eval] in H.
  - destruct (sub w i j) as [|t l]; [constructor|discriminate].
  - destruct (sub w i j) as [|t [|t' l]]; try discriminate.
    apply String.eqb_eq in H. subst. constructor.
  - destruct (sub w i j) as [|t [|t' l]]; try discriminate. now constructor.
  - now apply HT.
  - apply existsb_exists in H. destruct H as [k [Hk H]].
    destruct (eval w T a i k) eqn:Ea; [|discriminate].
    apply in_seq in Hk. rewrite <- (sub_app i k j) by lia.
    apply D_Seq; [apply IHa; [lia|exact Ea]|apply IHb; [lia|exact H]].
  - destruct (eval w T a i j) eqn:Ea.
    + apply D_ChoiceL. now apply IHa.
    + apply D_ChoiceR. now apply IHb.
  - now apply (star_sound T r IH (List.length w)).
  - apply D_Prec. now apply IH.
  - apply D_Field. now apply IH.
  - apply D_Alias. now apply IH.
  - destruct (sub w i j) as [|t [|t' l]]; try discriminate. now constructor.
Qed.

Lemma add_rule_sound T n : sound G w T -> sound G w (add_rule G w T n).
Proof.
  intros HT m i j H. unfold add_rule in H.
  destruct (lookup G n) as [body|] eqn:L; [|now apply HT].
  apply holds_inv in H. apply in_app_or in H. destruct H as [H|H].
  - apply in_map_iff in H. destruct H as [[a b] [E H]]. simpl in E.
    injection E as E1 E2 E3. subst.
    apply filter_In in H. destruct H as [Hs H]. apply spans_le in Hs.
    split; [exact Hs|]. simpl in H.
    destruct (holds T m i j); [discriminate|].
    unfold fires in H. simpl in H.
    apply (D_Sym G m body); auto. now apply (eval_sound T).
  - apply HT. now apply holds_in.
Qed.

Lemma grow_sound T : sound G w T -> sound G w (grow G w T).
Proof.
  unfold grow. generalize (rev (map fst (rules G))). intros ns. revert T.
  induction ns as [|n ns IH]; intros T HT; simpl; [exact HT|].
  apply IH. now apply add_rule_sound.
Qed.

Lemma add_rule_length T n : List.length T <= List.length (add_rule G w T n).
Proof.
  unfold add_rule. destruct (lookup G n); [|lia]. rewrite length_app. lia.
Qed.

Lemma grow_from_length ns T :
  List.length T <= List.length (fold_left (add_rule G w) ns T).
Proof.
  revert T. induction ns as [|n ns IH]; intros T; simpl; [lia|].
  pose proof (add_rule_length T n). pose proof (IH (add_rule G w T n)). lia.
Qed.

Lemma add_rule_same T n :
  List.length (add_rule G w T n) = List.length T -> add_rule G w T n = T.
Proof.
  unfold add_rule. destruct (lookup G n) as [body|]; [|reflexivity].
  rewrite length_app. intros H.
  destruct (map _ _) as [|x l]; [reflexivity|simpl in H; lia].
Qed.

Lemma grow_from_fixed ns T :
  List.length (fold_left (add_rule G w) ns T) = List.length T ->
  forall n, In n ns -> add_rule G w T n = T.
Proof.
  revert T. induction ns as [|a ns IH]; intros T H n Hin; [destruct Hin|].
  simpl in H.
  pose proof (add_rule_length T a). pose proof (grow_from_length ns (add_rule G w T a)).
  assert (Ea : add_rule G w T a = T) by (apply add_rule_same; lia).
  destruct Hin as [<-|Hin]; [exact Ea|].
  rewrite Ea in H. now apply IH.
Qed.

Lemma add_rule_closed T n body ij :
  lookup G n = Some body -> add_rule G w T n = T -> In ij (spans w) ->
  fires w T body ij = true -> holds T n (fst ij) (snd ij) = true.
Proof.
  intros L E Hin F. unfold add_rule in E. rewrite L in E.
  assert (N : filter (fun ij => if holds T n (fst ij) (snd ij) then false
                                else fires w T body ij) (spans w) = []).
  { apply (f_equal (@List.length _)) in E. rewrite length_app, length_map in E.
    destruct (filter _ _); [reflexivity|simpl in E; lia]. }
  destruct (holds T n (fst ij) (snd ij)) eqn:H; [reflexivity|].
  assert (In ij []) as [].
  rewrite <- N. apply filter_In. split; [exact Hin|]. now rewrite H.
Qed.

Lemma grow_fixed_closed T :
  List.length (grow G w T) = List.length T -> closed G w T.
Proof.
  intros H n body ij L Hin F.
  apply (add_rule_closed T n body ij L); auto.
  apply (grow_from_fixed _ _ H). apply -> in_rev.
  destruct (lookup_in _ _ L) as [p [Hp [Hn _]]]. subst n. now apply in_map.
Qed.

Lemma saturate_spec fuel : forall T T',
  sound G w T -> saturate G w fuel T = Some T' -> sound G w T' /\ closed G w T'.
Proof.
  induction fuel as [|f IH]; intros T T' HT E; simpl in E; [discriminate|].
  destruct (Nat.eqb _ _) eqn:L.
  - injection E as <-. split; [exact HT|].
    apply grow_fixed_closed. now apply Nat.eqb_eq.
  - apply (IH (grow G w T)); [now apply grow_sound|exact E].
Qed.

Lemma chart_spec k T : chart G w k = Some T -> sound G w T /\ closed G w T.
Proof.
  apply saturate_spec. intros n i j H. discriminate.
Qed.

End ChartFacts.

Lemma verdicts_spec (G : Grammar) (k : nat) (w : list string) rs bs :
  verdicts G k w rs = Some bs ->
  Forall2 (fun r b => derives G r w <-> b = true) rs bs.
Proof.
  unfold verdicts. destruct (chart G w k) as [T|] eqn:C; [|discriminate].
  destruct (chart_spec G w k T C) as [HS HC].
  intros E. injection E as <-.
  induction rs as [|r rs IH]; simpl; constructor; auto.
  split.
  - intros D. apply (eval_complete G w _ HC r w D); [lia|lia|].
    symmetry. apply sub_whole.
  - intros H.
    pose proof (eval_sound G w _ HS r 0 (List.length w) (Nat.le_0_l _) H) as D.
    now rewrite sub_whole in D.
Qed.

Lemma verdict_at (G : Grammar) (k : nat) (w : list string) rs bs :
  verdicts G k w rs = Some bs ->
  forall i r b, nth_error rs i = Some r -> nth_error bs i = Some b ->
  (derives G r w <-> b = true).
Proof.
  intros V. apply verdicts_spec in V.
  induction V as [|r0 b0 rs bs H V IH]; intros [|i] r b Hr Hb; simpl in *;
    try discriminate.
  - injection Hr as <-. injection Hb as <-. exact H.
  - now apply (IH i).
Qed.

Lemma verdict_yes (G : Grammar) (k : nat) (w : list string) rs bs :
  verdicts G k w rs = Some bs ->
  forall i r, nth_error rs i = Some r -> nth_error bs i = Some true -> derives G r w.
Proof.
  intros V i r Hr Hb. now apply (verdict_at G k w rs bs V i r true Hr Hb).
Qed.

Lemma verdict_no (G : Grammar) (k : nat) (w : list string) rs bs :
  verdicts G k w rs = Some bs ->
  forall i r, nth_error rs i = Some r -> nth_error bs i = Some false -> ~ derives G r w.
Proof.
  intros V i r Hr Hb D. apply (verdict_at G k w rs bs V i r false Hr Hb) in D.
  discriminate.
Qed.

Lemma kinds_spec (G : Grammar) (k : nat) (w : list string) ns :
  kinds G k w = Some ns -> forall n, derivable G n w <-> In n ns.
Proof.
  unfold kinds. destruct (chart G w k) as [T|] eqn:C; [|discriminate].
  destruct (chart_spec G w k T C) as [HS HC].
  intros E n. injection E as <-. rewrite filter_In. split.
  - intros D. split.
    + unfold derivable in D.
      inversion D as [| | | |n' body ts Hl _| | | | | | | |]; subst.
      destruct (lookup_in _ _ _ Hl) as [p [Hin [Hn _]]]. subst n.
      now apply in_map.
    + apply (eval_complete G w _ HC (Sym n) w D 0 (List.length w)); [lia|lia|].
      symmetry. apply sub_whole.
  - intros [_ H]. destruct (HS n 0 (List.length w) H) as [_ D].
    now rewrite sub_whole in D.
Qed.

(** ** Reading a derivation backwards *)

Section Inversion.
Variable G : Grammar.
Local Open Scope list_scope.

Lemma derives_Blank ts : derives G Blank ts -> ts = [].
Proof. now inversion 1. Qed.

Lemma derives_Str s ts : derives G (Str s) ts -> ts = [s].
Proof. now inversion 1. Qed.

Lemma derives_Pattern re ts :
  derives G (Pattern re) ts -> exists s, ts = [s] /\ Regex.matches re s = true.
Proof. inversion 1; subst. now exists s. Qed.

Lemma derives_Token r ts :
  derives G (Token r) ts -> exists s, ts = [s] /\ Regex.matches (lex_regex r) s = true.
Proof. inversion 1; subst. now exists s. Qed.

Lemma derives_Sym n ts :
  derives G (Sym n) ts ->
  exists body, lookup G n = Some body /\ derives G body ts.
Proof. inversion 1; subst. now exists body. Qed.

Lemma derives_Seq a b ts :
  derives G (Seq a b) ts ->
  exists t1 t2, ts = t1 ++ t2 /\ derives G a t1 /\ derives G b t2.
Proof. inversion 1; subst. now exists t1, t2. Qed.

Lemma derives_Choice a b ts :
  derives G (Choice a b) ts -> derives G a ts \/ derives G b ts.
Proof. inversion 1; subst; auto. Qed.

Lemma derives_Prec a n r ts : derives G (Prec a n r) ts -> derives G r ts.
Proof. now inversion 1. Qed.

Lemma derives_Field f r ts : derives G (Field f r) ts -> derives G r ts.
Proof. now inversion 1. Qed.

Lemma derives_Alias r n ts : derives G (Alias r n) ts -> derives G r ts.
Proof. now inversion 1. Qed.

(** A repetition is the concatenation of its items. *)
Lemma derives_Repeat r ts :
  derives G (Repeat r) ts ->
  exists items, ts = List.concat items /\ Forall (derives G r) items.
Proof.
  intros D. remember (Repeat r) as rr eqn:E. revert E.
  induction D; intros E; try discriminate.
  - exists []. now split.
  - injection E as ->. destruct (IHD2 eq_refl) as [items [-> HF]].
    exists (t1 :: items). split; [reflexivity|]. now constructor.
Qed.

Lemma derives_Repeat_intro r items :
  Forall (derives G r) items -> derives G (Repeat r) (List.concat items).
Proof.
  induction 1; simpl; [constructor|]. now apply D_RepeatCons.
Qed.

End Inversion.

(** Take apart every hypothesis on a rule whose head is known. *)
Ltac invert_derives :=
  repeat match goal with
  | H : derives _ Blank _ |- _ => apply derives_Blank in H
  | H : derives _ (Str _) _ |- _ => apply derives_Str in H
  | H : derives _ (Pattern _) _ |- _ =>
      apply derives_Pattern in H; destruct H as [? [? H]]
  | H : derives _ (Token _) _ |- _ =>
      apply derives_Token in H; destruct H as [? [? H]]
  | H : derives _ (Seq _ _) _ |- _ =>
      apply derives_Seq in H; destruct H as [? [? [? [? H]]]]
  | H : derives _ (Choice _ _) _ |- _ => apply derives_Choice in H; destruct H as [H|H]
  | H : derives _ (Prec _ _ _) _ |- _ => apply derives_Prec in H
  | H : derives _ (Field _ _) _ |- _ => apply derives_Field in H
  | H : derives _ (Alias _ _) _ |- _ => apply derives_Alias in H
  end.

(** Open a named rule: replace [derives G (Sym n) ts] by the derivation of
    its body. *)
Ltac open_rule H :=
  let body := fresh "body" in
  let L := fresh "L" in
  apply derives_Sym in H; destruct H as [body [L H]];
  vm_compute in L; injection L as L; subst body.

(** ** Lexical facts *)

Module RegexFacts.
Import Regex.
Lemma matches_Null s : matches Null s = false.
Proof. induction s; simpl; auto. Qed.

Lemma alt_Null_r a : alt a Null = a.
Proof. now destruct a. Qed.

Lemma matches_Star_Class n items s :
  matches (Star (Class n items)) s = string_forall (in_class n items) s.
Proof.
  induction s as [|c s IH]; simpl; [reflexivity|].
  destruct (in_class n items c); simpl; [exact IH|apply matches_Null].
Qed.

Lemma matches_Class_Star n1 i1 n2 i2 c s :
  matches (Cat (Class n1 i1) (Star (Class n2 i2))) (String c s)
  = if in_class n1 i1 c then string_forall (in_class n2 i2) s else false.
Proof.
  simpl. destruct (in_class n1 i1 c); simpl.
  - apply matches_Star_Class.
  - apply matches_Null.
Qed.

Lemma matches_Lit_Cat c r s :
  matches (Cat (Lit c) r) s
  = match s with
    | EmptyString => false
    | String d s' => if Ascii.eqb d c then matches r s' else false
    end.
Proof.
  destruct s as [|d s']; simpl; [reflexivity|].
  destruct (Ascii.eqb d c); simpl.
  - now rewrite alt_Null_r.
  - apply matches_Null.
Qed.

End RegexFacts.

Lemma IDENTIFIER_PATTERN_shape s :
  Regex.matches Lexical.IDENTIFIER_PATTERN s = ident_shape s.
Proof.
  destruct s as [|c r]; [reflexivity|].
  unfold Lexical.IDENTIFIER_PATTERN. now rewrite RegexFacts.matches_Class_Star.
Qed.

Lemma identifier_plain_shape s :
  Regex.matches Lexical.identifier_plain s
  = match s with
    | EmptyString => false
    | String c r =>
        if Regex.in_class false [Lexical.az; Lexical.AZ] c
        then string_forall
               (Regex.in_class false [Lexical.az; Lexical.AZ; Lexical.digit]) r
        else false
    end.
Proof.
  destruct s as [|c r]; [reflexivity|].
  unfold Lexical.identifier_plain. now rewrite RegexFacts.matches_Class_Star.
Qed.

Lemma is_keyword_In (G : Grammar) (s : string) :
  is_keyword G s = true <-> In s (keywords G).
Proof.
  unfold is_keyword, keywords. rewrite filter_In. split.
  - destruct (Regex.matches (word_regex G) s); [|discriminate].
    intros H. apply existsb_exists in H. destruct H as [x [Hin E]].
    apply String.eqb_eq in E. subst. now split.
  - intros [Hin M]. rewrite M. apply existsb_exists. exists s.
    split; [exact Hin|apply String.eqb_refl].
Qed.

(** What the [identifier] rule derives: one lexeme of its pattern. *)
Lemma identifier_rule (G : Grammar) (re : Regex.t) :
  lookup G "identifier" = Some (Pattern re) ->
  forall ts, derivable G "identifier" ts <->
    exists s, ts = [s] /\ Regex.matches re s = true.
Proof.
  intros HL ts. unfold derivable. split.
  - intros D. apply derives_Sym in D. destruct D as [body [L D]].
    rewrite HL in L. injection L as <-.
    apply derives_Pattern in D. destruct D as [s [-> M]].
    exists s. now split.
  - intros [s [-> M]]. apply (D_Sym G _ _ _ HL). now constructor.
Qed.

(** ** Small tools for the named rules *)

Lemma derives_alternative (G : Grammar) (r a : Rule) (ts : list string) :
  In a (alternatives r) -> derives G a ts -> derives G r ts.
Proof.
  induction r; simpl; intros Hin D;
    try (destruct Hin as [<-|[]]; exact D).
  apply in_app_or in Hin. destruct Hin as [Hin|Hin].
  - apply D_ChoiceL. now apply IHr1.
  - apply D_ChoiceR. now apply IHr2.
Qed.

(** A rule entered through one of its alternatives. *)
Lemma enter_rule (G : Grammar) (n : string) (body a : Rule) (ts : list string) :
  lookup G n = Some body ->
  In a (alternatives body) -> derives G a ts -> derivable G n ts.
Proof.
  intros L Hin D. apply (D_Sym G n body ts L).
  now apply (derives_alternative G body a).
Qed.


(** ** Charts of the inputs used below *)

Ltac each_grammar tac := repeat (apply Forall_cons; [tac|]); apply Forall_nil.
Ltac run_chart := vm_compute; reflexivity.
Ltac in_grammars := unfold yap_grammars; simpl; tauto.

Lemma nothing_derives_empty :
  Forall (fun G => verdicts G 8 [] [Sym "atom"; Sym "expr"] = Some [false; false])
         yap_grammars.
Proof. each_grammar run_chart. Qed.

Lemma chart_hole_js :
  verdicts GrammarJs.grammar 8 ["_"] [Sym "atom"; Sym "expr"; Sym "source_file"]
  = Some [true; true; true].
Proof. vm_compute. reflexivity. Qed.

Lemma chart_hole_draft1 :
  verdicts Draft1.grammar 8 ["?"] [Sym "atom"; Sym "expr"; Sym "source_file"; Sym "pattern"]
  = Some [true; true; true; false].
Proof. vm_compute. reflexivity. Qed.

Lemma chart_hole_draft2 :
  verdicts Draft2.grammar 8 ["?"] [Sym "atom"; Sym "expr"; Sym "source_file"; Sym "pattern"]
  = Some [true; true; true; false].
Proof. vm_compute. reflexivity. Qed.

Ltac chart_yes L i := apply (verdict_yes _ _ _ _ _ L i); reflexivity.
Ltac chart_no L i := apply (verdict_no _ _ _ _ _ L i); reflexivity.

Lemma hole_rule (G : Grammar) (h : string) :
  lookup G "hole" = Some (Str h) ->
  forall ts, derivable G "hole" ts <-> ts = [h].
Proof.
  intros L ts. unfold derivable. split.
  - intros D. apply derives_Sym in D. destruct D as [body [L' D]].
    rewrite L in L'. injection L' as <-. now apply derives_Str in D.
  - intros ->. apply (D_Sym G "hole" (Str h) [h] L). constructor.
Qed.

(** C9: a lone hole placeholder, [_] in src/grammar.js and [?] in the two
    grammars of src/unnamed/part_000, is accepted wherever an atom is, as a
    node of kind [hole]; the rule is separate from the pattern [wildcard],
    which [atom] does not mention, and [pattern] does not mention [hole]. *)
Theorem hole_is_an_atom :
  hole_accepted GrammarJs.grammar "_"
  /\ hole_accepted Draft1.grammar "?"
  /\ hole_accepted Draft2.grammar "?".
Proof.
  assert (HJ := hole_rule GrammarJs.grammar "_" eq_refl).
  assert (H1 := hole_rule Draft1.grammar "?" eq_refl).
  assert (H2 := hole_rule Draft2.grammar "?" eq_refl).
  unfold hole_accepted. repeat split; try reflexivity;
    try (apply HJ); try (apply H1); try (apply H2).
  - intros ts D. apply HJ in D. subst. chart_yes chart_hole_js 0.
  - chart_yes chart_hole_js 1.
  - chart_yes chart_hole_js 2.
  - intros ts D. apply H1 in D. subst. chart_yes chart_hole_draft1 0.
  - chart_yes chart_hole_draft1 1.
  - chart_yes chart_hole_draft1 2.
  - intros ts D. apply H2 in D. subst. chart_yes chart_hole_draft2 0.
  - chart_yes chart_hole_draft2 1.
  - chart_yes chart_hole_draft2 2.
Qed.

(** The two productions of [projection], the same in the three grammars. *)
Lemma projection_productions :
  Forall (fun G => rule_productions G "projection" =
     [((70%Z, Some AssocLeft),
       Seq (Field "record" (Sym "atom")) (Seq (Str ".") (Field "key" (Sym "identifier"))));
      ((0%Z, None), Seq (Str ".") (Field "key" (Sym "identifier")))])
    yap_grammars.
Proof. each_grammar run_chart. Qed.

Lemma chart_dot_foo :
  Forall (fun G =>
    verdicts G 8 ["."; "foo"]
      [Sym "projection";
       Seq (Field "record" (Sym "atom")) (Seq (Str ".") (Field "key" (Sym "identifier")))]
    = Some [true; false]) yap_grammars.
Proof. each_grammar run_chart. Qed.

Lemma chart_projection_chain :
  Forall (fun G => verdicts G 8 ["a"; "."; "b"; "."; "c"] [Sym "projection"] = Some [true])
         yap_grammars.
Proof. each_grammar run_chart. Qed.

Lemma atom_not_empty (G : Grammar) :
  In G yap_grammars -> ~ derives G (Sym "atom") [].
Proof.
  intros Hin. pose proof nothing_derives_empty as F.
  rewrite Forall_forall in F. specialize (F G Hin).
  now apply (verdict_no _ _ _ _ _ F 0).
Qed.

Lemma bare_projection_holds (G : Grammar) :
  In G yap_grammars -> bare_projection G.
Proof.
  intros Hin.
  pose proof projection_productions as P. rewrite Forall_forall in P.
  specialize (P G Hin).
  pose proof chart_dot_foo as C. rewrite Forall_forall in C. specialize (C G Hin).
  pose proof chart_projection_chain as C3. rewrite Forall_forall in C3.
  specialize (C3 G Hin).
  assert (Proj : forall k, derivable G "identifier" [k] -> derivable G "projection" ["."; k]).
  { intros k Hk.
    assert (L : exists body, lookup G "projection" = Some body
              /\ In (Seq (Str ".") (Field "key" (Sym "identifier"))) (alternatives body)).
    { simpl in Hin. destruct Hin as [<-|[<-|[<-|[]]]];
        (eexists; split; [vm_compute; reflexivity|vm_compute; tauto]). }
    destruct L as [body [L A]].
    apply (enter_rule G "projection" body _ _ L A).
    apply (D_Seq G _ _ ["."] [k]); [constructor|]. now apply D_Field. }
  unfold bare_projection. repeat split.
  - now apply Proj.
  - pose proof (Proj k H) as D.
    assert (L : exists body, lookup G "atom" = Some body
              /\ In (Sym "projection") (alternatives body)).
    { simpl in Hin. destruct Hin as [<-|[<-|[<-|[]]]];
        (eexists; split; [vm_compute; reflexivity|vm_compute; tauto]). }
    destruct L as [body [L A]].
    now apply (enter_rule G "atom" body _ _ L A).
  - now apply (verdict_yes _ _ _ _ _ C 0).
  - rewrite P. repeat constructor; simpl; intros D.
    exfalso. now apply (verdict_no _ _ _ _ _ C 1) in D.
  - intros k rec D E.
    assert (rec = []).
    { destruct rec as [|x rec]; [reflexivity|].
      apply (f_equal (@List.length string)) in E. simpl in E.
      rewrite length_app in E. simpl in E. lia. }
    subst. now apply (atom_not_empty G Hin).
  - now apply (verdict_yes _ _ _ _ _ C3 0).
Qed.

(** C10: in the three grammars a dot followed by an identifier, with no
    record before it, is a projection and an atom; the production it uses
    names the field [key] only, the one with the [record] field does not
    derive it; the chained form [a.b.c] is a projection as well. *)
Theorem projection_without_record :
  bare_projection GrammarJs.grammar
  /\ bare_projection Draft1.grammar
  /\ bare_projection Draft2.grammar.
Proof.
  repeat split; apply bare_projection_holds; simpl; auto.
Qed.

(** ** Identifier tokens *)

Lemma chart_let_let :
  Forall (fun G => verdicts G 8 ["let"; "let"; "="; "x"] [Sym "letdec"; Sym "source_file"]
                   = Some [true; true]) yap_grammars.
Proof. each_grammar run_chart. Qed.

Lemma keyword_let (G : Grammar) : In G yap_grammars -> keyword_as_identifier G "let".
Proof.
  intros Hin. pose proof chart_let_let as C. rewrite Forall_forall in C.
  specialize (C G Hin). unfold keyword_as_identifier.
  split; [|split].
  - simpl in Hin. destruct Hin as [<-|[<-|[<-|[]]]];
      apply is_keyword_In; vm_compute; reflexivity.
  - simpl in Hin. destruct Hin as [<-|[<-|[<-|[]]]].
    + apply (identifier_rule GrammarJs.grammar Lexical.identifier_plain eq_refl).
      exists "let". split; reflexivity.
    + apply (identifier_rule Draft1.grammar Lexical.IDENTIFIER_PATTERN eq_refl).
      exists "let". split; reflexivity.
    + apply (identifier_rule Draft2.grammar Lexical.IDENTIFIER_PATTERN eq_refl).
      exists "let". split; reflexivity.
  - exact (verdict_yes _ _ _ _ _ C 0 _ eq_refl eq_refl).
Qed.

(** C7, as the code has it: in the two grammars of src/unnamed/part_000 the
    identifier tokens are exactly the lexemes of [A-Za-z_][A-Za-z0-9_']*, so
    an identifier may start with an underscore and hold digits, underscores
    and primes, and the lone underscore is one; in src/grammar.js they are
    exactly the lexemes of [a-zA-Z][a-zA-Z0-9]*.  The spelling of a keyword
    is not kept from the identifier rule: [let] is a keyword of the three
    grammars, it is derived by [identifier], and [let let = x] is a let
    declaration that binds the name [let]. *)
Theorem identifier_tokens :
  identifier_lexemes Draft1.grammar Lexical.IDENTIFIER_PATTERN
  /\ identifier_lexemes Draft2.grammar Lexical.IDENTIFIER_PATTERN
  /\ (forall s, Regex.matches Lexical.IDENTIFIER_PATTERN s = ident_shape s)
  /\ Forall (fun G => derivable G "identifier" ["_x1'"] /\ derivable G "identifier" ["_"])
            [Draft1.grammar; Draft2.grammar]
  /\ identifier_lexemes GrammarJs.grammar Lexical.identifier_plain
  /\ Forall (fun G => keyword_as_identifier G "let") yap_grammars.
Proof.
  split; [exact (identifier_rule Draft1.grammar Lexical.IDENTIFIER_PATTERN eq_refl)|].
  split; [exact (identifier_rule Draft2.grammar Lexical.IDENTIFIER_PATTERN eq_refl)|].
  split; [exact IDENTIFIER_PATTERN_shape|].
  split.
  - repeat constructor.
    + apply (identifier_rule Draft1.grammar Lexical.IDENTIFIER_PATTERN eq_refl).
      exists "_x1'". split; reflexivity.
    + apply (identifier_rule Draft1.grammar Lexical.IDENTIFIER_PATTERN eq_refl).
      exists "_". split; reflexivity.
    + apply (identifier_rule Draft2.grammar Lexical.IDENTIFIER_PATTERN eq_refl).
      exists "_x1'". split; reflexivity.
    + apply (identifier_rule Draft2.grammar Lexical.IDENTIFIER_PATTERN eq_refl).
      exists "_". split; reflexivity.
  - split; [exact (identifier_rule GrammarJs.grammar Lexical.identifier_plain eq_refl)|].
    each_grammar ltac:(apply keyword_let; in_grammars).
Qed.

(** C7 fails on src/grammar.js: [_x] matches [A-Za-z_][A-Za-z0-9_']* and is
    no keyword, yet it is not an identifier token there. *)
Lemma identifier_pattern_not_in_grammar_js : ~ identifier_spec GrammarJs.grammar.
Proof.
  intros H. specialize (H "_x"). destruct H as [_ H].
  assert (D : derivable GrammarJs.grammar "identifier" ["_x"])
    by (apply H; split; vm_compute; reflexivity).
  apply (identifier_rule GrammarJs.grammar Lexical.identifier_plain eq_refl) in D.
  destruct D as [s [E M]]. injection E as <-. vm_compute in M. discriminate.
Qed.

(** ** Labels *)

Lemma ident_part_not_space c : ident_part c = true -> is_space c = false.
Proof.
  destruct c as [b0 b1 b2 b3 b4 b5 b6 b7].
  destruct b0, b1, b2, b3, b4, b5, b6, b7; intros H;
    first [reflexivity | discriminate H].
Qed.

Lemma ident_start_part c : ident_start c = true -> ident_part c = true.
Proof.
  destruct c as [b0 b1 b2 b3 b4 b5 b6 b7].
  destruct b0, b1, b2, b3, b4, b5, b6, b7; intros H;
    first [reflexivity | discriminate H].
Qed.

Lemma string_forall_impl (p q : ascii -> bool) s :
  (forall c, p c = true -> q c = true) ->
  string_forall p s = true -> string_forall q s = true.
Proof.
  intros Hpq. induction s as [|c s IH]; simpl; [reflexivity|].
  destruct (p c) eqn:E; [|discriminate]. rewrite (Hpq c E). exact IH.
Qed.

Lemma label_lexeme s :
  Regex.matches Lexical.label_re s = true <->
  exists id, s = String ":" id /\ Regex.matches Lexical.IDENTIFIER_PATTERN id = true.
Proof.
  unfold Lexical.label_re. rewrite RegexFacts.matches_Lit_Cat. split.
  - destruct s as [|d s']; [discriminate|].
    destruct (Ascii.eqb_spec d ":"); [|discriminate].
    subst. intros H. now exists s'.
  - intros [id [-> H]]. now rewrite Ascii.eqb_refl.
Qed.

Lemma label_lexeme_no_space s :
  Regex.matches Lexical.label_re s = true ->
  string_forall (fun c => negb (is_space c)) s = true.
Proof.
  intros H. apply label_lexeme in H. destruct H as [id [-> H]].
  rewrite IDENTIFIER_PATTERN_shape in H.
  destruct id as [|c r]; [discriminate|]. simpl in H.
  destruct (ident_start c) eqn:E; [|discriminate].
  change (string_forall (fun c => negb (is_space c)) (String ":" (String c r)))
    with (if negb (is_space c) then string_forall (fun c => negb (is_space c)) r else false).
  rewrite (ident_part_not_space c (ident_start_part c E)). simpl.
  apply (string_forall_impl ident_part); [|exact H].
  intros c' Hc. now rewrite (ident_part_not_space c' Hc).
Qed.

Lemma label_token_rule (G : Grammar) :
  lookup G "label" = Some (Token (Pattern Lexical.label_re)) ->
  label_single_token G.
Proof.
  intros L ts. unfold derivable. split.
  - intros D. apply derives_Sym in D. destruct D as [body [L' D]].
    rewrite L in L'. injection L' as <-.
    apply derives_Token in D. destruct D as [s [-> M]].
    apply label_lexeme in M. destruct M as [id [-> M]]. now exists id.
  - intros [id [-> M]]. apply (D_Sym G "label" _ _ L).
    constructor. apply label_lexeme. now exists id.
Qed.

Lemma label_js : label_two_tokens GrammarJs.grammar.
Proof.
  intros ts. unfold derivable at 1. split.
  - intros D. open_rule D. invert_derives. subst.
    match goal with H : derives _ (Sym "identifier") ?t |- _ =>
      pose proof H as H'; apply (identifier_rule GrammarJs.grammar _ eq_refl) in H';
      destruct H' as [x [-> _]]; exists x; split; [reflexivity|exact H]
    end.
  - intros [x [-> D]].
    apply (D_Sym GrammarJs.grammar "label" (Seq (Str ":") (Sym "identifier")) _ eq_refl).
    apply (D_Seq _ _ _ [":"] [x]); [constructor|exact D].
Qed.

(** C8, as the code has it: in the two grammars of src/unnamed/part_000 a
    label is one token, a colon immediately followed by an identifier lexeme;
    such a lexeme holds no white space, the colon alone is not one, and the
    two lexemes [:] and [x] are never a label.  In src/grammar.js a label is
    the sequence of the two tokens [:] and identifier, put together by the
    parser. *)
Theorem label_tokens :
  label_single_token Draft1.grammar /\ label_single_token Draft2.grammar
  /\ lookup Draft1.grammar "label" = Some (Token (Pattern Lexical.label_re))
  /\ lookup Draft2.grammar "label" = Some (Token (Pattern Lexical.label_re))
  /\ (forall s, Regex.matches Lexical.label_re s = true ->
                string_forall (fun c => negb (is_space c)) s = true)
  /\ Regex.matches Lexical.label_re ":" = false
  /\ ~ derivable Draft1.grammar "label" [":"; "x"]
  /\ ~ derivable Draft2.grammar "label" [":"; "x"]
  /\ label_two_tokens GrammarJs.grammar.
Proof.
  assert (L1 := label_token_rule Draft1.grammar eq_refl).
  assert (L2 := label_token_rule Draft2.grammar eq_refl).
  repeat split; try exact label_lexeme_no_space;
    try (apply L1); try (apply L2); try (apply label_js).
  - intros D. apply L1 in D. destruct D as [id [E _]]. discriminate.
  - intros D. apply L2 in D. destruct D as [id [E _]]. discriminate.
Qed.

(** C8 fails on src/grammar.js: the two lexemes [:] and [x], white space
    between them or not, are a label there. *)
Lemma label_is_two_tokens_in_grammar_js : ~ label_single_token GrammarJs.grammar.
Proof.
  intros H.
  assert (D : derivable GrammarJs.grammar "label" [":"; "x"]).
  { apply label_js. exists "x". split; [reflexivity|].
    apply (identifier_rule GrammarJs.grammar Lexical.identifier_plain eq_refl).
    exists "x". split; reflexivity. }
  apply H in D. destruct D as [id [E _]]. discriminate.
Qed.

(** ** Binary operators *)

Lemma chart_operations :
  Forall (fun G =>
    verdicts G 8 ["a"; "+"; "b"; "*"; "c"] [Sym "operation"] = Some [true]
    /\ verdicts G 8 ["a"; "*"; "b"; "+"; "c"] [Sym "operation"] = Some [true]
    /\ verdicts G 8 ["a"; "||"; "b"; "&&"; "c"] [Sym "operation"] = Some [true])
    yap_grammars.
Proof. each_grammar ltac:(split; [run_chart|split; run_chart]). Qed.

Lemma operation_readings (G : Grammar) (A : Type) (a b c : A) :
  In G yap_grammars ->
  let t := infix_table G "operation" in
  parse_infix t (chain a "+" b "*" c) = Some (nest_right a "+" b "*" c)
  /\ parse_infix t (chain a "*" b "+" c) = Some (nest_left a "*" b "+" c)
  /\ parse_infix t (chain a "||" b "&&" c) = Some (nest_right a "||" b "&&" c)
  /\ Forall (fun e => snd (snd e) = Some AssocLeft) t
  /\ Forall (fun e => parse_infix t (chain a (fst e) b (fst e) c)
                      = Some (nest_left a (fst e) b (fst e) c)) t.
Proof.
  intros Hin. simpl in Hin. destruct Hin as [<-|[<-|[<-|[]]]]; cbv zeta;
    (split; [reflexivity|]; split; [reflexivity|]; split; [reflexivity|];
     split; each_grammar reflexivity).
Qed.

(** ** Binder forms *)

Lemma chart_arrows :
  Forall (fun G =>
    verdicts G 8 ["A"; "->"; "B"; "->"; "C"] [Sym (arrow_kind G)] = Some [true]
    /\ verdicts G 8 ["B"; "->"; "C"] [Sym (arrow_kind G)] = Some [true]
    /\ verdicts G 8 ["("; "A"; "->"; "B"; ")"; "->"; "C"] [Sym (arrow_kind G)] = Some [true])
    yap_grammars.
Proof. each_grammar ltac:(split; [run_chart|split; run_chart]). Qed.

Lemma chart_arrow_domain :
  verdicts Draft2.grammar 8 ["A"; "->"; "B"] [Sym "arrdomain"; Sym "expr"]
  = Some [false; false].
Proof. run_chart. Qed.

Lemma chart_lambdas :
  Forall (fun G =>
    verdicts G 8 [lam; "x"; "->"; lam; "y"; "->"; "x"] [Sym "lambda"] = Some [true]
    /\ verdicts G 8 [lam; "y"; "->"; "x"] [Sym "lambda"] = Some [true]
    /\ kinds G 8 [lam; "x"; "->"; lam; "y"] = Some []
    /\ verdicts G 8 ["x"; "->"; lam; "y"] [params_rule G] = Some [false])
    yap_grammars.
Proof. each_grammar ltac:(split; [run_chart|split; [run_chart|split; run_chart]]). Qed.

Lemma arrows_nest_right_holds (G : Grammar) : In G yap_grammars -> arrows_nest_right G.
Proof.
  intros Hin.
  pose proof (proj1 (Forall_forall _ _) chart_arrows G Hin) as [C1 [C2 C3]].
  split; [exact (verdict_yes _ _ _ _ _ C1 0 _ eq_refl eq_refl)|].
  split; [exact (verdict_yes _ _ _ _ _ C2 0 _ eq_refl eq_refl)|].
  exact (verdict_yes _ _ _ _ _ C3 0 _ eq_refl eq_refl).
Qed.

Lemma lambdas_nest_right_holds (G : Grammar) : In G yap_grammars -> lambdas_nest_right G.
Proof.
  intros Hin.
  pose proof (proj1 (Forall_forall _ _) chart_lambdas G Hin) as [C1 [C2 [C3 C4]]].
  split; [exact (verdict_yes _ _ _ _ _ C1 0 _ eq_refl eq_refl)|].
  split; [exact (verdict_yes _ _ _ _ _ C2 0 _ eq_refl eq_refl)|].
  split.
  - intros n D. now apply (kinds_spec _ _ _ _ C3 n) in D.
  - intros ps body E D.
    injection E as E.
    destruct ps as [|p1 [|p2 [|p3 [|p4 [|p5 [|p6 ps]]]]]]; simpl in E;
      injection E; clear E; intros; subst; try discriminate; auto.
    + exfalso. exact (verdict_no _ _ _ _ _ C4 0 _ eq_refl eq_refl D).
    + destruct ps; discriminate.
Qed.

(** C5: arrow types are declared right-associative in the three grammars,
    so whatever the operands [A -> B -> C] is read [A -> (B -> C)]; the
    input is an arrow node ([pi] in src/grammar.js) whose codomain
    [B -> C] is one too, and the left nesting is written with parentheses;
    in the second grammar of src/unnamed/part_000 the domain [A -> B]
    without parentheses is not even derivable.  [\x -> \y -> x] is a lambda
    with parameter [x] and the lambda [\y -> x] for body. *)
Theorem binders_nest_right (A : Type) (a b c : A) :
  Forall (fun G =>
    parse_infix (infix_table G (arrow_kind G)) (chain a "->" b "->" c)
      = Some (nest_right a "->" b "->" c)
    /\ parse_infix (infix_table G (arrow_kind G)) (chain a "=>" b "=>" c)
      = Some (nest_right a "=>" b "=>" c)
    /\ Forall (fun lv => snd lv = Some AssocRight) (levels G (arrow_kind G))
    /\ arrows_nest_right G
    /\ lambdas_nest_right G) yap_grammars
  /\ ~ derivable Draft2.grammar "arrdomain" ["A"; "->"; "B"].
Proof.
  split.
  - apply Forall_forall. intros G Hin.
    split; [|split; [|split; [|split]]].
    + simpl in Hin. destruct Hin as [<-|[<-|[<-|[]]]]; reflexivity.
    + simpl in Hin. destruct Hin as [<-|[<-|[<-|[]]]]; reflexivity.
    + simpl in Hin. destruct Hin as [<-|[<-|[<-|[]]]]; each_grammar reflexivity.
    + now apply arrows_nest_right_holds.
    + now apply lambdas_nest_right_holds.
  - exact (verdict_no _ _ _ _ _ chart_arrow_domain 0 _ eq_refl eq_refl).
Qed.

(** ** The annotation *)








(** ** Identifiers are single lexemes *)



(** ** Brace literals *)

Local Open Scope list_scope.

Lemma repeat_separated (G : Grammar) (sep : string) (r : Rule) ts :
  derives G (Repeat (Seq (Str sep) r)) ts ->
  exists items, ts = List.concat (map (cons sep) items) /\ Forall (derives G r) items.
Proof.
  intros D. apply derives_Repeat in D. destruct D as [items [-> F]].
  induction F as [|x l Hx F IH].
  - exists []. now split.
  - destruct IH as [items [E F']]. invert_derives. subst.
    match goal with H : derives G r ?t |- _ => exists (t :: items) end.
    simpl. rewrite E. split; [reflexivity|]. now constructor.
Qed.












(** ** Structs and blocks never meet, the empty braces apart *)

Section EndsFacts.
Variable G : Grammar.
Variable S : list string.
Variable bad : string.
Hypothesis checked : ends_checked G S bad = true.

Lemma ends_with_single s : ends_with bad [s] -> s = bad.
Proof.
  intros [pre E]. destruct pre as [|x [|y pre]]; simpl in E.
  - now injection E.
  - discriminate.
  - discriminate.
Qed.

Lemma ends_with_app t1 t2 : t2 <> [] -> ends_with bad (t1 ++ t2) -> ends_with bad t2.
Proof.
  intros N [pre E].
  destruct (exists_last N) as [t2' [x ->]].
  rewrite app_assoc in E. apply app_inj_tail in E. destruct E as [_ ->].
  now exists t2'.
Qed.

Lemma ends_analysis r ts :
  derives G r ts ->
  (never_empty S r = true -> ts <> []) /\
  (never_ends S bad r = true -> ~ ends_with bad ts).
Proof.
  intros D.
  induction D as
    [ | s | re s Hm | r s Hm | n body ts Hl D IH | a b t1 t2 D1 IH1 D2 IH2
    | a b ts D IH | a b ts D IH | r | r t1 t2 D1 IH1 D2 IH2
    | a n r ts D IH | f r ts D IH | r n ts D IH ]; simpl.
  - split; [discriminate|]. intros _ [pre E]. now destruct pre.
  - split; [discriminate|]. intros H E. apply ends_with_single in E. subst.
    now rewrite String.eqb_refl in H.
  - split; [discriminate|]. intros H E. apply ends_with_single in E. subst.
    now rewrite Hm in H.
  - split; [discriminate|]. intros H E. apply ends_with_single in E. subst.
    now rewrite Hm in H.
  - assert (In n S -> never_empty S body = true /\ never_ends S bad body = true).
    { intros Hin. unfold ends_checked in checked. rewrite forallb_forall in checked.
      specialize (checked n Hin). rewrite Hl in checked.
      destruct (never_empty S body); [now split|discriminate]. }
    assert (existsb (String.eqb n) S = true -> In n S).
    { intros E. apply existsb_exists in E. destruct E as [x [Hx E]].
      apply String.eqb_eq in E. now subst. }
    split; intros E; apply IH; now apply H, H0.
  - destruct IH1 as [IH1e IH1n], IH2 as [IH2e IH2n]. split.
    + intros H E. apply app_eq_nil in E. destruct E as [-> ->].
      destruct (never_empty S a); [now apply IH1e|now apply IH2e].
    + intros H E.
      destruct (never_ends S bad b) eqn:Nb; [|discriminate].
      destruct t2 as [|x t2].
      * rewrite app_nil_r in E.
        destruct (never_empty S b); [now apply IH2e|now apply IH1n].
      * apply IH2n; [reflexivity|]. apply (ends_with_app t1); [discriminate|exact E].
  - destruct IH as [IHe IHn]. split; intros H.
    + destruct (never_empty S a); [now apply IHe|discriminate].
    + destruct (never_ends S bad a); [now apply IHn|discriminate].
  - destruct IH as [IHe IHn]. split; intros H.
    + destruct (never_empty S a); [now apply IHe|discriminate].
    + destruct (never_ends S bad a); [now apply IHn|discriminate].
  - split; [discriminate|]. intros _ [pre E]. now destruct pre.
  - destruct IH1 as [_ IH1n], IH2 as [_ IH2n]. split; [discriminate|].
    intros H E. destruct t2 as [|x t2].
    + rewrite app_nil_r in E. now apply IH1n.
    + apply IH2n; [exact H|]. apply (ends_with_app t1); [discriminate|exact E].
  - exact IH.
  - exact IH.
  - exact IH.
Qed.

End EndsFacts.

Lemma ends_checked_grammars :
  Forall (fun G => ends_checked G (expression_rules G) ";" = true) yap_grammars.
Proof. each_grammar run_chart. Qed.




Lemma expression_end (G : Grammar) (n : string) ts :
  In G yap_grammars -> existsb (String.eqb n) (expression_rules G) = true ->
  derivable G n ts -> ts <> [] /\ ~ ends_with ";" ts.
Proof.
  intros Hin Hn D.
  pose proof (proj1 (Forall_forall _ _) ends_checked_grammars G Hin) as C.
  destruct (ends_analysis G (expression_rules G) ";" C (Sym n) ts D) as [A B].
  split; [now apply A|now apply B].
Qed.




Lemma derives_cons_str (G : Grammar) (s : string) (r : Rule) ts :
  derives G r ts -> derives G (Seq (Str s) r) (s :: ts).
Proof.
  intros D. apply (D_Seq G (Str s) r [s] ts); [constructor|exact D].
Qed.
















(** * Further properties of the grammar files *)

Local Open Scope string_scope.
Local Open Scope rule_scope.

(** ** The helper functions *)

Lemma separated_items (G : Grammar) (sep : string) (r : Rule) items :
  Forall (derives G r) items ->
  derives G (Repeat (Seq (Str sep) r)) (List.concat (map (cons sep) items)).
Proof.
  induction 1 as [|x l Hx F IH]; simpl; [constructor|].
  apply (D_RepeatCons G _ (sep :: x)); [|exact IH].
  now apply derives_cons_str.
Qed.

Lemma sep1_list (G : Grammar) (r : Rule) (sep : string) (ts : list string) :
  derives G (Dsl.sep1 r sep) ts <->
  exists item items,
    ts = join_with sep (item :: items)
    /\ derives G r item /\ Forall (derives G r) items.
Proof.
  unfold Dsl.sep1, Dsl.repeat. simpl. split.
  - intros D. invert_derives. subst.
    match goal with H : derives _ (Repeat _) _ |- _ =>
      apply repeat_separated in H; destruct H as [items [-> F]] end.
    match goal with H : derives G r ?t |- _ => exists t, items end.
    now repeat split.
  - intros [item [items [-> [D F]]]]. simpl.
    apply D_Seq; [exact D|]. now apply separated_items.
Qed.

(** X1: for every grammar, rule and separator, [sep1(rule, separator)]
    derives exactly the sequences made of one or more items of the rule
    with the separator between two of them: no empty list, no separator in
    front, none at the end. *)
Theorem sep1_items (G : Grammar) (r : Rule) (sep : string) (ts : list string) :
  derives G (Dsl.sep1 r sep) ts <->
  exists item items,
    ts = join_with sep (item :: items)
    /\ derives G r item /\ Forall (derives G r) items.
Proof.
  unfold Dsl.sep1, Dsl.repeat. cbn [Dsl.seq]. split.
  - intros D. apply derives_Seq in D. destruct D as [first [others [-> [D R]]]].
    apply repeat_separated in R. destruct R as [items [-> F]].
    exists first, items. now repeat split.
  - intros [item [items [-> [D F]]]]. cbn [join_with].
    apply D_Seq; [exact D|]. now apply separated_items.
Qed.

Lemma optional_list (G : Grammar) (r : Rule) (body : Rule) ts :
  (forall t, derives G body t <->
     exists item items, t = join_with "," (item :: items)
                        /\ derives G r item /\ Forall (derives G r) items) ->
  derives G (Dsl.optional body) ts <->
  exists items, ts = join_with "," items /\ Forall (derives G r) items.
Proof.
  intros B. unfold Dsl.optional. split.
  - intros D. apply derives_Choice in D. destruct D as [D|D].
    + apply B in D. destruct D as [item [items [-> [D F]]]].
      exists (item :: items). split; [reflexivity|now constructor].
    + apply derives_Blank in D. subst. exists []. now split.
  - intros [[|item items] [-> F]].
    + apply D_ChoiceR. constructor.
    + apply D_ChoiceL. apply B. exists item, items.
      split; [reflexivity|]. split; [now apply Forall_inv in F|now apply Forall_inv_tail in F].
Qed.

(** X2: [commaSep(rule)], as src/grammar.js and both grammars of
    src/unnamed/part_000 define it, derives exactly the comma-separated
    lists of items of the rule, the empty list included; [commaSep1] of
    src/grammar.js is [sep1] with a comma. *)
Theorem commaSep_items (G : Grammar) (r : Rule) (ts : list string) :
  (derives G (GrammarJs.commaSep r) ts <->
     exists items, ts = join_with "," items /\ Forall (derives G r) items)
  /\ (derives G (Draft1.commaSep r) ts <->
     exists items, ts = join_with "," items /\ Forall (derives G r) items)
  /\ (derives G (Draft2.commaSep r) ts <->
     exists items, ts = join_with "," items /\ Forall (derives G r) items)
  /\ Dsl.commaSep1 r = Dsl.sep1 r ",".
Proof.
  split; [|split; [|split]]; try reflexivity;
    apply optional_list; intros t; apply (sep1_list G r ",").
Qed.

(** ** Where a node may begin and stop *)

Lemma listed_in (S : list string) (n : string) :
  existsb (String.eqb n) S = true -> In n S.
Proof.
  intros E. apply existsb_exists in E. destruct E as [x [Hx E]].
  apply String.eqb_eq in E. now subst.
Qed.

Section StartsFacts.
Variable G : Grammar.
Variable S : list string.
Variable bad : string.
Hypothesis checked : starts_checked G S bad = true.
Local Open Scope list_scope.

Lemma starts_with_single s : starts_with bad [s] -> s = bad.
Proof. intros [rest E]. now injection E. Qed.

Lemma starts_with_app t1 t2 : t1 <> [] -> starts_with bad (t1 ++ t2) -> starts_with bad t1.
Proof.
  intros N [rest E]. destruct t1 as [|x t1]; [now elim N|].
  simpl in E. injection E as -> _. now exists t1.
Qed.

Lemma starts_analysis r ts :
  derives G r ts ->
  (never_empty S r = true -> ts <> []) /\
  (never_starts S bad r = true -> ~ starts_with bad ts).
Proof.
  intros D.
  induction D as
    [ | s | re s Hm | r s Hm | n body ts Hl D IH | a b t1 t2 D1 IH1 D2 IH2
    | a b ts D IH | a b ts D IH | r | r t1 t2 D1 IH1 D2 IH2
    | a n r ts D IH | f r ts D IH | r n ts D IH ]; simpl.
  - split; [discriminate|]. intros _ [rest E]. discriminate.
  - split; [discriminate|]. intros H E. apply starts_with_single in E. subst.
    now rewrite String.eqb_refl in H.
  - split; [discriminate|]. intros H E. apply starts_with_single in E. subst.
    now rewrite Hm in H.
  - split; [discriminate|]. intros H E. apply starts_with_single in E. subst.
    now rewrite Hm in H.
  - assert (K : In n S -> never_empty S body = true /\ never_starts S bad body = true).
    { intros Hin. unfold starts_checked in checked. rewrite forallb_forall in checked.
      specialize (checked n Hin). rewrite Hl in checked.
      destruct (never_empty S body); [now split|discriminate]. }
    split; intros E; apply listed_in in E; destruct (K E) as [K1 K2]; now apply IH.
  - destruct IH1 as [IH1e IH1n], IH2 as [IH2e IH2n]. split.
    + intros H E. apply app_eq_nil in E. destruct E as [-> ->].
      destruct (never_empty S a); [now apply IH1e|now apply IH2e].
    + intros H E.
      destruct (never_starts S bad a) eqn:Na; [|discriminate].
      destruct t1 as [|x t1].
      * simpl in E. destruct (never_empty S a); [now apply IH1e|now apply IH2n].
      * apply IH1n; [reflexivity|]. apply (starts_with_app _ t2); [discriminate|exact E].
  - destruct IH as [IHe IHn]. split; intros H.
    + destruct (never_empty S a); [now apply IHe|discriminate].
    + destruct (never_starts S bad a); [now apply IHn|discriminate].
  - destruct IH as [IHe IHn]. split; intros H.
    + destruct (never_empty S a); [now apply IHe|discriminate].
    + destruct (never_starts S bad a); [now apply IHn|discriminate].
  - split; [discriminate|]. intros _ [rest E]. discriminate.
  - destruct IH1 as [_ IH1n], IH2 as [_ IH2n]. split; [discriminate|].
    intros H E. destruct t1 as [|x t1].
    + simpl in E. now apply IH2n.
    + apply IH1n; [exact H|]. apply (starts_with_app _ t2); [discriminate|exact E].
  - exact IH.
  - exact IH.
  - exact IH.
Qed.

End StartsFacts.

Lemma rule_is_listed (G : Grammar) (n : string) (ts : list string) :
  derivable G n ts -> existsb (String.eqb n) (all_rules G) = true.
Proof.
  intros D. apply derives_Sym in D. destruct D as [body [L _]].
  destruct (lookup_in _ _ _ L) as [p [Hin [Hn _]]].
  apply existsb_exists. exists n. split; [|apply String.eqb_refl].
  subst n. now apply in_map.
Qed.

Lemma ends_checked_open_ended :
  Forall (fun G => forallb (ends_checked G (all_rules G)) open_ended = true) yap_grammars.
Proof. each_grammar run_chart. Qed.

Lemma starts_checked_open_started :
  Forall (fun G => forallb (starts_checked G (all_rules G)) open_started = true)
         yap_grammars.
Proof. each_grammar run_chart. Qed.

(** A parenthesised arrow type, a node of src/grammar.js that shows every
    kind of lexeme the next properties speak of. *)
Lemma parenthesised_arrow_js :
  derivable GrammarJs.grammar "pi" ["("; "A"; "->"; "B"; ")"; "->"; "C"].
Proof.
  pose proof (proj1 (Forall_forall _ _) chart_arrows GrammarJs.grammar
                ltac:(in_grammars)) as [_ [_ C]].
  exact (verdict_yes _ _ _ _ _ C 0 _ eq_refl eq_refl).
Qed.

(** X3: in the three grammars no node of any kind is empty, and none stops
    on a lexeme that expects something after it: an opening delimiter, a
    comma, a bar, a colon, an equals sign, a dot, a hash, an at sign, the
    lambda backslash, an arrow, or a binary operator other than the star.
    The keywords are left out: each is spelled like an identifier, and an
    identifier may end a node. *)
Theorem nodes_never_dangle (G : Grammar) (n : string) (ts : list string) :
  In G yap_grammars -> derivable G n ts ->
  ts <> [] /\ Forall (fun bad => ~ ends_with bad ts) open_ended.
Proof.
  intros Hin D.
  pose proof (proj1 (Forall_forall _ _) ends_checked_open_ended G Hin) as C.
  rewrite forallb_forall in C.
  pose proof (rule_is_listed G n ts D) as L.
  split.
  - assert (K : ends_checked G (all_rules G) "(" = true)
      by (apply C; unfold open_ended; simpl; tauto).
    now apply (ends_analysis G (all_rules G) "(" K (Sym n) ts D).
  - apply Forall_forall. intros bad Hb.
    now apply (ends_analysis G (all_rules G) bad (C bad Hb) (Sym n) ts D).
Qed.

Lemma nodes_never_dangle_witness :
  In GrammarJs.grammar yap_grammars
  /\ derivable GrammarJs.grammar "pi" ["("; "A"; "->"; "B"; ")"; "->"; "C"]
  /\ ["("; "A"; "->"; "B"; ")"; "->"; "C"] <> []
  /\ Forall (fun bad => ~ ends_with bad ["("; "A"; "->"; "B"; ")"; "->"; "C"]) open_ended.
Proof.
  assert (H1 : In GrammarJs.grammar yap_grammars) by (unfold yap_grammars; simpl; tauto).
  split; [exact H1|]. split; [exact parenthesised_arrow_js|].
  exact (nodes_never_dangle _ _ _ H1 parenthesised_arrow_js).
Defined.

(** X4: in the three grammars no node of any kind begins with a lexeme that
    expects something before it: a closing delimiter, a modal bracket, a
    comma, a semicolon, an equals sign, an arrow, or a binary operator that
    is not also a prefix, a quantity or the opening of a modal type. *)
Theorem nodes_never_start_late (G : Grammar) (n : string) (ts : list string) :
  In G yap_grammars -> derivable G n ts ->
  Forall (fun bad => ~ starts_with bad ts) open_started.
Proof.
  intros Hin D.
  pose proof (proj1 (Forall_forall _ _) starts_checked_open_started G Hin) as C.
  rewrite forallb_forall in C.
  pose proof (rule_is_listed G n ts D) as L.
  apply Forall_forall. intros bad Hb.
  now apply (starts_analysis G (all_rules G) bad (C bad Hb) (Sym n) ts D).
Qed.

Lemma nodes_never_start_late_witness :
  In GrammarJs.grammar yap_grammars
  /\ derivable GrammarJs.grammar "pi" ["("; "A"; "->"; "B"; ")"; "->"; "C"]
  /\ Forall (fun bad => ~ starts_with bad ["("; "A"; "->"; "B"; ")"; "->"; "C"])
            open_started.
Proof.
  assert (H1 : In GrammarJs.grammar yap_grammars) by (unfold yap_grammars; simpl; tauto).
  split; [exact H1|]. split; [exact parenthesised_arrow_js|].
  exact (nodes_never_start_late _ _ _ H1 parenthesised_arrow_js).
Defined.

(** ** Delimiters are balanced *)

Section EffectFacts.

Variables o c : string.

Lemma then_effect_assoc (e1 e2 e3 : Effect) :
  then_effect e1 (then_effect e2 e3) = then_effect (then_effect e1 e2) e3.
Proof.
  destruct e1 as [a1 b1], e2 as [a2 b2], e3 as [a3 b3].
  unfold then_effect; cbn [fst snd].
  destruct (Nat.ltb b2 a3) eqn:E1; cbn [fst snd];
    destruct (Nat.ltb b1 a2) eqn:E2; cbn [fst snd];
    repeat match goal with
           | |- context [Nat.ltb ?x ?y] =>
               let E := fresh "E" in destruct (Nat.ltb x y) eqn:E; cbn [fst snd]
           end;
    repeat match goal with
           | H : Nat.ltb _ _ = true |- _ => apply Nat.ltb_lt in H
           | H : Nat.ltb _ _ = false |- _ => apply Nat.ltb_ge in H
           end;
    try (f_equal; lia); exfalso; lia.
Qed.

Lemma then_effect_none_l (e : Effect) : then_effect (0, 0) e = e.
Proof.
  destruct e as [a b]; unfold then_effect; cbn [fst snd].
  destruct (Nat.ltb 0 a) eqn:E.
  - f_equal; lia.
  - apply Nat.ltb_ge in E. f_equal; lia.
Qed.

Lemma effect_of_app (xs ys : list string) :
  effect_of o c (xs ++ ys) = then_effect (effect_of o c xs) (effect_of o c ys).
Proof.
  induction xs as [|x xs IH]; cbn [effect_of app].
  - symmetry; apply then_effect_none_l.
  - rewrite IH. apply then_effect_assoc.
Qed.

Lemma same_effect_eq (e1 e2 : Effect) : same_effect e1 e2 = true -> e1 = e2.
Proof.
  destruct e1 as [a1 b1], e2 as [a2 b2]; unfold same_effect; cbn [fst snd].
  destruct (Nat.eqb a1 a2) eqn:E; [|discriminate].
  intros E'. apply Nat.eqb_eq in E, E'. congruence.
Qed.

Lemma effect_of_single (t : string) :
  effect_of o c [t] = lexeme_effect o c t.
Proof.
  cbn [effect_of]. destruct (lexeme_effect o c t) as [a b].
  unfold then_effect; cbn [fst snd].
  destruct (Nat.ltb b 0) eqn:E; [apply Nat.ltb_lt in E; lia|f_equal; lia].
Qed.

Lemma lexeme_effect_other (t : string) :
  t <> o -> t <> c -> lexeme_effect o c t = (0, 0).
Proof.
  intros Ho Hc. unfold lexeme_effect.
  apply String.eqb_neq in Ho, Hc. now rewrite Ho, Hc.
Qed.

(** Reading a sequence from some depth, in terms of its effect. *)
Lemma depth_effect (Hoc : o <> c) (ts : list string) (d : nat) :
  depth o c d ts =
  if Nat.ltb d (fst (effect_of o c ts)) then None
  else Some (d - fst (effect_of o c ts) + snd (effect_of o c ts)).
Proof.
  revert d; induction ts as [|t ts IH]; intros d; cbn [depth effect_of fst snd].
  - cbn. f_equal; lia.
  - destruct (effect_of o c ts) as [a b] eqn:E; cbn [fst snd] in IH.
    unfold lexeme_effect.
    destruct (String.eqb t o) eqn:Eo.
    + rewrite IH. unfold then_effect; cbn [fst snd].
      destruct (Nat.ltb 1 a) eqn:E1; cbn [fst snd];
        destruct (Nat.ltb (S d) a) eqn:E2;
        repeat match goal with
               | |- context [Nat.ltb ?x ?y] =>
                   let E := fresh "E" in destruct (Nat.ltb x y) eqn:E
               end;
        repeat match goal with
               | H : Nat.ltb _ _ = true |- _ => apply Nat.ltb_lt in H
               | H : Nat.ltb _ _ = false |- _ => apply Nat.ltb_ge in H
               end;
        try (f_equal; lia); try reflexivity; exfalso; lia.
    + destruct (String.eqb t c) eqn:Ec.
      * unfold then_effect; cbn [fst snd].
        destruct d as [|d].
        -- destruct (Nat.ltb 0 a); reflexivity.
        -- rewrite IH.
           destruct (Nat.ltb 0 a) eqn:E1; cbn [fst snd];
             destruct (Nat.ltb d a) eqn:E2;
             repeat match goal with
                    | |- context [Nat.ltb ?x ?y] =>
                        let E := fresh "E" in destruct (Nat.ltb x y) eqn:E
                    end;
             repeat match goal with
                    | H : Nat.ltb _ _ = true |- _ => apply Nat.ltb_lt in H
                    | H : Nat.ltb _ _ = false |- _ => apply Nat.ltb_ge in H
                    end;
             try (f_equal; lia); try reflexivity; exfalso; lia.
      * rewrite IH. rewrite then_effect_none_l. reflexivity.
Qed.

Variable G : Grammar.
Variable S : list string.
Hypothesis checked : effect_checked G S o c = true.

(** Soundness of [rule_effect]. *)
Lemma effect_analysis (r : Rule) (ts : list string) :
  derives G r ts ->
  forall e, rule_effect S o c r = Some e -> effect_of o c ts = e.
Proof.
  induction 1 as
    [ | s | re t Hm | a t Hm | n body ts Hl Hd IH
    | a b xs ys Ha IHa Hb IHb | a b ts Ha IHa | a b ts Hb IHb
    | a | a xs ys Ha IHa Hr IHr
    | l v a ts Hd IH | f a ts Hd IH | a n ts Hd IH ];
    intros e He; cbn [rule_effect] in He.
  - now injection He as <-.
  - injection He as <-. apply effect_of_single.
  - destruct (Regex.matches re o) eqn:Eo; [discriminate|].
    destruct (Regex.matches re c) eqn:Ec; [discriminate|].
    injection He as <-. rewrite effect_of_single.
    apply lexeme_effect_other; intros ->; congruence.
  - destruct (Regex.matches (lex_regex a) o) eqn:Eo; [discriminate|].
    destruct (Regex.matches (lex_regex a) c) eqn:Ec; [discriminate|].
    injection He as <-. rewrite effect_of_single.
    apply lexeme_effect_other; intros ->; congruence.
  - destruct (existsb (String.eqb n) S) eqn:En; [|discriminate].
    injection He as <-.
    apply existsb_exists in En as [m [Hin Heq]].
    apply String.eqb_eq in Heq; subst m.
    unfold effect_checked in checked.
    rewrite forallb_forall in checked. specialize (checked n Hin).
    rewrite Hl in checked.
    destruct (rule_effect S o c body) as [e'|] eqn:E; [|discriminate].
    apply same_effect_eq in checked. subst e'. now apply IH.
  - destruct (rule_effect S o c a) as [e1|]; [|discriminate].
    destruct (rule_effect S o c b) as [e2|]; [|discriminate].
    injection He as <-. rewrite effect_of_app.
    now rewrite (IHa _ eq_refl), (IHb _ eq_refl).
  - destruct (rule_effect S o c a) as [e1|]; [|discriminate].
    destruct (rule_effect S o c b) as [e2|]; [|discriminate].
    destruct (same_effect e1 e2) eqn:E; [|discriminate].
    injection He as <-. now apply IHa.
  - destruct (rule_effect S o c a) as [e1|]; [|discriminate].
    destruct (rule_effect S o c b) as [e2|]; [|discriminate].
    destruct (same_effect e1 e2) eqn:E; [|discriminate].
    injection He as <-. apply same_effect_eq in E. subst e2. now apply IHb.
  - destruct (rule_effect S o c a) as [e1|]; [|discriminate].
    destruct (same_effect e1 (0, 0)); [|discriminate]. now injection He as <-.
  - pose proof He as He'.
    destruct (rule_effect S o c a) as [e1|] eqn:E1; [|discriminate].
    destruct (same_effect e1 (0, 0)) eqn:E; [|discriminate].
    injection He as <-. apply same_effect_eq in E. subst e1.
    rewrite effect_of_app, (IHa _ eq_refl).
    rewrite then_effect_none_l. apply IHr.
    cbn [rule_effect]. rewrite E1. reflexivity.
  - now apply IH.
  - now apply IH.
  - now apply IH.
Qed.

End EffectFacts.

Lemma effect_checked_grammars :
  Forall (fun G => forallb (fun p => effect_checked G (all_rules G) (fst p) (snd p))
                     delimiter_pairs = true) yap_grammars.
Proof. each_grammar run_chart. Qed.

(** X5: in each of the three grammars, whatever a rule derives has its
    parentheses, braces, square brackets and [[| |]] brackets balanced: read
    from depth 0, no closing one comes before its opening one and none stays
    open at the end. *)
Theorem delimiters_balanced (G : Grammar) (n : string) (ts : list string) :
  In G yap_grammars -> derivable G n ts ->
  Forall (fun p => depth (fst p) (snd p) 0 ts = Some 0) delimiter_pairs.
Proof.
  intros HG Hp.
  pose proof (proj1 (Forall_forall _ _) effect_checked_grammars G HG) as Hc.
  rewrite forallb_forall in Hc. rewrite Forall_forall. intros [o c] Hin. cbn [fst snd].
  specialize (Hc _ Hin). cbn [fst snd] in Hc.
  assert (Hoc : o <> c).
  { unfold delimiter_pairs in Hin; simpl in Hin.
    intuition (try discriminate); match goal with H : _ = (o, c) |- _ => injection H as <- <- end; discriminate. }
  rewrite (depth_effect o c Hoc).
  assert (E : effect_of o c ts = (0, 0)).
  { unfold derivable in Hp.
    apply (effect_analysis o c G (all_rules G) Hc (Sym n) ts Hp).
    cbn [rule_effect].
    rewrite (rule_is_listed _ _ _ Hp). reflexivity. }
  rewrite E. reflexivity.
Qed.

Lemma delimiters_balanced_witness :
  In GrammarJs.grammar yap_grammars
  /\ derivable GrammarJs.grammar "pi" ["("; "A"; "->"; "B"; ")"; "->"; "C"]
  /\ Forall (fun p => depth (fst p) (snd p) 0 ["("; "A"; "->"; "B"; ")"; "->"; "C"] = Some 0)
            delimiter_pairs.
Proof.
  assert (H1 : In GrammarJs.grammar yap_grammars) by (unfold yap_grammars; simpl; tauto).
  split; [exact H1|]. split; [exact parenthesised_arrow_js|].
  exact (delimiters_balanced _ _ _ H1 parenthesised_arrow_js).
Defined.

(** ** Scripts and modules *)

Lemma script_rule :
  Forall (fun G =>
    lookup G "script"
    = Some (Seq (Sym "statement")
              (Seq (Repeat (Seq (Str ";") (Sym "statement"))) (Choice (Str ";") Blank)))
    /\ lookup G "source_file" = Some (Choice (Sym "module") (Sym "script"))
    /\ lookup G "module"
       = Some (Seq (Sym "exports") (Seq (Repeat (Sym "import")) (Sym "script")))
    /\ word G = Some "identifier")
    yap_grammars.
Proof. each_grammar ltac:(repeat split; reflexivity). Qed.

Lemma join_with_app (sep : string) (xs ys : list (list string)) :
  xs <> [] -> ys <> [] ->
  join_with sep (xs ++ ys) = (join_with sep xs ++ sep :: join_with sep ys)%list.
Proof.
  intros Hx Hy. destruct xs as [|x xs]; [now elim Hx|].
  destruct ys as [|y ys]; [now elim Hy|].
  simpl. rewrite map_app, concat_app. simpl.
  now rewrite <- !app_assoc.
Qed.

Lemma join_with_last (sep : string) (xs : list (list string)) (x : list string) :
  exists pre, join_with sep (xs ++ [x]) = (pre ++ x)%list.
Proof.
  destruct xs as [|x0 xs]; simpl.
  - exists []. now rewrite app_nil_r.
  - exists (x0 ++ List.concat (map (cons sep) xs) ++ [sep])%list.
    rewrite map_app, concat_app. simpl. rewrite app_nil_r.
    now rewrite <- !app_assoc.
Qed.

Lemma script_shape (G : Grammar) (ts : list string) :
  In G yap_grammars ->
  derivable G "script" ts <->
  exists st sts,
    Forall (derivable G "statement") (st :: sts)
    /\ (ts = join_with ";" (st :: sts)
        \/ ts = (join_with ";" (st :: sts) ++ [";"])%list).
Proof.
  intros Hin.
  pose proof (proj1 (Forall_forall _ _) script_rule G Hin) as [L _].
  unfold derivable. split.
  - intros D. apply derives_Sym in D. destruct D as [body [L' D]].
    rewrite L in L'. injection L' as <-.
    invert_derives; subst;
      match goal with H : derives _ (Repeat _) _ |- _ =>
        apply repeat_separated in H; destruct H as [items [-> F]] end;
      match goal with H : derives G (Sym "statement") ?t |- _ => exists t, items end;
      (split; [now constructor|]).
    + right. simpl. now rewrite <- app_assoc.
    + left. simpl. now rewrite app_nil_r.
  - intros [st [sts [F E]]].
    apply (D_Sym G _ _ _ L).
    pose proof (Forall_inv F) as D0. pose proof (Forall_inv_tail F) as F0.
    destruct E as [->| ->]; simpl.
    + replace (st ++ List.concat (map (cons ";") sts))%list
        with (st ++ List.concat (map (cons ";") sts) ++ [])%list
        by now rewrite app_nil_r.
      apply D_Seq; [exact D0|]. apply D_Seq; [now apply separated_items|].
      apply D_ChoiceR. constructor.
    + rewrite <- app_assoc.
      apply D_Seq; [exact D0|]. apply D_Seq; [now apply separated_items|].
      apply D_ChoiceL. constructor.
Qed.

Lemma statement_end (G : Grammar) (st : list string) :
  In G yap_grammars -> derivable G "statement" st -> st <> [] /\ ~ ends_with ";" st.
Proof.
  intros Hin D. apply (expression_end G "statement" st Hin); [|exact D].
  simpl in Hin. destruct Hin as [<-|[<-|[<-|[]]]]; vm_compute; reflexivity.
Qed.

Lemma joined_statements_end (G : Grammar) (st : list string) (sts : list (list string)) :
  In G yap_grammars -> Forall (derivable G "statement") (st :: sts) ->
  ~ ends_with ";" (join_with ";" (st :: sts)).
Proof.
  intros Hin F E.
  destruct (exists_last (l := st :: sts) ltac:(discriminate)) as [init [x Hx]].
  rewrite Hx in F, E.
  apply Forall_app in F. destruct F as [_ F]. apply Forall_inv in F.
  destruct (join_with_last ";" init x) as [pre P]. rewrite P in E.
  destruct (statement_end G x Hin F) as [N K].
  apply K. now apply (ends_with_app ";" pre).
Qed.

Lemma chart_hole_script_js :
  verdicts GrammarJs.grammar 8 ["_"] [Sym "script"; Sym "statement"] = Some [true; true].
Proof. run_chart. Qed.

Lemma hole_script_js : derivable GrammarJs.grammar "script" ["_"].
Proof. exact (verdict_yes _ _ _ _ _ chart_hole_script_js 0 _ eq_refl eq_refl). Qed.

(** X6: in the three grammars a script is one or more statements with a
    semicolon between two of them and, if one likes, one more semicolon at
    the end; a statement never ends with a semicolon, so the two ways of
    writing the same statements do not overlap. *)
Theorem script_statements (G : Grammar) (ts : list string) :
  In G yap_grammars ->
  (derivable G "script" ts <->
   exists st sts,
     Forall (derivable G "statement") (st :: sts)
     /\ (ts = join_with ";" (st :: sts)
         \/ ts = (join_with ";" (st :: sts) ++ [";"])%list))
  /\ (forall st sts, Forall (derivable G "statement") (st :: sts) ->
        ~ ends_with ";" (join_with ";" (st :: sts))).
Proof.
  intros Hin. split; [now apply script_shape|].
  intros st sts F. now apply (joined_statements_end G).
Qed.

Lemma script_statements_witness :
  In GrammarJs.grammar yap_grammars
  /\ (derivable GrammarJs.grammar "script" ["_"; ";"; "_"; ";"] <->
      exists st sts,
        Forall (derivable GrammarJs.grammar "statement") (st :: sts)
        /\ (["_"; ";"; "_"; ";"] = join_with ";" (st :: sts)
            \/ ["_"; ";"; "_"; ";"] = (join_with ";" (st :: sts) ++ [";"])%list)).
Proof.
  assert (H1 : In GrammarJs.grammar yap_grammars) by (unfold yap_grammars; simpl; tauto).
  split; [exact H1|].
  exact (proj1 (script_statements GrammarJs.grammar ["_"; ";"; "_"; ";"] H1)).
Defined.

(** X7: scripts compose.  Two scripts of the same grammar put one after
    the other are a script again: with a semicolon between them when the
    first does not end with one, and as they are when it does. *)
Theorem scripts_compose (G : Grammar) (a b : list string) :
  In G yap_grammars ->
  derivable G "script" a -> derivable G "script" b ->
  (~ ends_with ";" a -> derivable G "script" (a ++ ";" :: b))
  /\ (ends_with ";" a -> derivable G "script" (a ++ b)).
Proof.
  intros Hin Da Db.
  apply (script_shape G a Hin) in Da. destruct Da as [sa [sas [Fa Ea]]].
  apply (script_shape G b Hin) in Db. destruct Db as [sb [sbs [Fb Eb]]].
  assert (J : forall tl, (tl = [] \/ tl = [";"]) ->
            derivable G "script"
              ((join_with ";" (sa :: sas) ++ ";" :: join_with ";" (sb :: sbs)) ++ tl)).
  { intros tl Htl. apply (script_shape G _ Hin).
    exists sa, (sas ++ sb :: sbs)%list. split.
    - apply Forall_cons; [now apply Forall_inv in Fa|].
      apply Forall_app. split; [now apply Forall_inv_tail in Fa|exact Fb].
    - rewrite <- (join_with_app ";" (sa :: sas) (sb :: sbs)) by discriminate.
      simpl. destruct Htl as [->| ->]; [left; now rewrite app_nil_r|now right]. }
  assert (Tb : exists tl, (tl = [] \/ tl = [";"])
                          /\ b = (join_with ";" (sb :: sbs) ++ tl)%list).
  { destruct Eb as [->| ->]; [exists []|exists [";"]];
      (split; [tauto|]); now rewrite ?app_nil_r. }
  destruct Tb as [tl [Htl ->]].
  assert (Na : ~ ends_with ";" (join_with ";" (sa :: sas)))
    by now apply (joined_statements_end G).
  split; intros H.
  - destruct Ea as [->| ->].
    + specialize (J tl Htl). rewrite <- app_assoc in J. exact J.
    + elim H. now exists (join_with ";" (sa :: sas)).
  - destruct Ea as [->| ->]; [now elim Na|].
    specialize (J tl Htl). rewrite <- !app_assoc in J |- *. exact J.
Qed.

Lemma scripts_compose_witness :
  In GrammarJs.grammar yap_grammars
  /\ derivable GrammarJs.grammar "script" ["_"]
  /\ derivable GrammarJs.grammar "script" ["_"]
  /\ (~ ends_with ";" ["_"] -> derivable GrammarJs.grammar "script" ["_"; ";"; "_"])
  /\ (ends_with ";" ["_"] -> derivable GrammarJs.grammar "script" ["_"; "_"]).
Proof.
  assert (H1 : In GrammarJs.grammar yap_grammars) by (unfold yap_grammars; simpl; tauto).
  split; [exact H1|]. split; [exact hole_script_js|]. split; [exact hole_script_js|].
  exact (scripts_compose _ _ _ H1 hole_script_js hole_script_js).
Defined.

Lemma module_start (G : Grammar) (ts : list string) :
  In G yap_grammars -> derivable G "module" ts -> starts_with "export" ts.
Proof.
  intros Hin. simpl in Hin. destruct Hin as [<-|[<-|[<-|[]]]];
    unfold derivable; intros D; open_rule D; invert_derives; subst;
    match goal with H : derives _ (Sym "exports") _ |- _ => open_rule H end;
    invert_derives; subst; simpl; eexists; reflexivity.
Qed.

Lemma module_parts (G : Grammar) (ts : list string) :
  In G yap_grammars ->
  derivable G "module" ts <->
  exists ex imports sc,
    ts = (ex ++ List.concat imports ++ sc)%list
    /\ derivable G "exports" ex
    /\ Forall (derivable G "import") imports
    /\ derivable G "script" sc.
Proof.
  intros Hin.
  pose proof (proj1 (Forall_forall _ _) script_rule G Hin) as [_ [_ [L _]]].
  unfold derivable. split.
  - intros D. apply derives_Sym in D. destruct D as [body [L' D]].
    rewrite L in L'. injection L' as <-.
    apply derives_Seq in D. destruct D as [ex [rest [-> [De D]]]].
    apply derives_Seq in D. destruct D as [im [sc [-> [Di Ds]]]].
    apply derives_Repeat in Di. destruct Di as [imports [-> F]].
    now exists ex, imports, sc.
  - intros [ex [imports [sc [-> [De [F Ds]]]]]].
    apply (D_Sym G _ _ _ L).
    apply D_Seq; [exact De|]. apply D_Seq; [|exact Ds].
    now apply derives_Repeat_intro.
Qed.

(** X8: in the three grammars a source file is a module or a script; a
    module is an export list, any number of imports and a script, so it
    begins with the lexeme export; a source file that does not begin with
    export is therefore a script and no module. *)
Theorem module_or_script (G : Grammar) (ts : list string) :
  In G yap_grammars -> derivable G "source_file" ts ->
  (derivable G "module" ts \/ derivable G "script" ts)
  /\ (derivable G "module" ts <->
      exists ex imports sc,
        ts = (ex ++ List.concat imports ++ sc)%list
        /\ derivable G "exports" ex
        /\ Forall (derivable G "import") imports
        /\ derivable G "script" sc)
  /\ (derivable G "module" ts -> starts_with "export" ts)
  /\ (~ starts_with "export" ts -> derivable G "script" ts /\ ~ derivable G "module" ts).
Proof.
  intros Hin D.
  pose proof (proj1 (Forall_forall _ _) script_rule G Hin) as [_ [L _]].
  pose proof (module_start G ts Hin) as M.
  unfold derivable in D. apply derives_Sym in D. destruct D as [body [L' D]].
  rewrite L in L'. injection L' as <-.
  apply derives_Choice in D.
  split; [exact D|]. split; [now apply module_parts|]. split; [exact M|].
  intros N. split.
  - destruct D as [D|D]; [elim N; now apply M|exact D].
  - intros D'. apply N. now apply M.
Qed.

Lemma chart_hole_source_js :
  verdicts GrammarJs.grammar 8 ["export"; "*"; ";"; "_"] [Sym "source_file"; Sym "module"]
  = Some [true; true].
Proof. run_chart. Qed.

Lemma module_or_script_witness :
  In GrammarJs.grammar yap_grammars
  /\ derivable GrammarJs.grammar "source_file" ["export"; "*"; ";"; "_"]
  /\ (derivable GrammarJs.grammar "module" ["export"; "*"; ";"; "_"]
      -> starts_with "export" ["export"; "*"; ";"; "_"]).
Proof.
  assert (H1 : In GrammarJs.grammar yap_grammars) by (unfold yap_grammars; simpl; tauto).
  assert (H2 : derivable GrammarJs.grammar "source_file" ["export"; "*"; ";"; "_"])
    by exact (verdict_yes _ _ _ _ _ chart_hole_source_js 0 _ eq_refl eq_refl).
  split; [exact H1|]. split; [exact H2|].
  exact (proj1 (proj2 (proj2 (module_or_script _ _ H1 H2)))).
Defined.

(** ** Chains of binary operators *)

Section InfixFacts.
Variable A : Type.
Variable table : list (string * Level).
Hypothesis declared : Forall (fun e => snd (snd e) <> None) table.
Local Open Scope list_scope.

Lemma level_of_listed (op : string) :
  In op (map fst table) -> exists lv, level_of table op = Some lv /\ snd lv <> None.
Proof.
  intros Hin. unfold level_of.
  destruct (find (fun p => String.eqb (fst p) op) table) as [e|] eqn:F.
  - exists (snd e). split; [reflexivity|].
    apply find_some in F. destruct F as [F _].
    rewrite Forall_forall in declared. now apply declared.
  - apply in_map_iff in Hin. destruct Hin as [e [<- He]].
    pose proof (find_none _ _ F e He) as N. simpl in N.
    now rewrite String.eqb_refl in N.
Qed.

Lemma unwind_settled (stack : list (Pending A)) (cur : Tree A) (next : Level) :
  settled A stack ->
  exists stack' cur',
    unwind A stack cur next = Some (stack', cur')
    /\ finish A stack' cur' = finish A stack cur
    /\ settled A stack'.
Proof.
  revert cur. induction stack as [|[[l op] lv] rest IH]; intros cur S; simpl.
  - exists [], cur. repeat split. constructor.
  - pose proof (Forall_inv S) as Hlv. pose proof (Forall_inv_tail S) as Hrest.
    simpl in Hlv. unfold resolve.
    destruct (fst next >? fst lv)%Z.
    + exists ((l, op, lv) :: rest), cur. now repeat split.
    + destruct (fst next <? fst lv)%Z.
      * destruct (IH (Node l op cur) Hrest) as [s' [c' [E [F S']]]].
        exists s', c'. now repeat split.
      * destruct (snd lv) as [[|]|] eqn:Ea; [| |now elim Hlv].
        -- destruct (IH (Node l op cur) Hrest) as [s' [c' [E [F S']]]].
           exists s', c'. now repeat split.
        -- exists ((l, op, lv) :: rest), cur. now repeat split.
Qed.

Lemma flatten_finish (stack : list (Pending A)) :
  exists pre, forall cur, flatten (finish A stack cur) = pre ++ flatten cur.
Proof.
  induction stack as [|[[l op] lv] rest [pre IH]]; simpl.
  - now exists [].
  - exists (pre ++ flatten l ++ [Operator op]). intros cur.
    rewrite IH. simpl. now rewrite <- !app_assoc.
Qed.

Lemma run_settled (rest : list (string * A)) :
  Forall (fun p => In (fst p) (map fst table)) rest ->
  forall stack cur, settled A stack ->
  exists t,
    run A table stack cur (flat_map (fun p => [Operator (fst p); Operand (snd p)]) rest)
    = Some t
    /\ flatten t
       = flatten (finish A stack cur)
         ++ flat_map (fun p => [Operator (fst p); Operand (snd p)]) rest.
Proof.
  induction 1 as [|[op b] rest Hop F IH]; intros stack cur S; simpl.
  - exists (finish A stack cur). now rewrite app_nil_r.
  - destruct (level_of_listed op Hop) as [lv [L Hlv]]. rewrite L.
    destruct (unwind_settled stack cur lv S) as [s' [c' [E [Fi S']]]]. rewrite E.
    assert (S2 : settled A ((c', op, lv) :: s')) by now constructor.
    destruct (IH _ (Leaf b) S2) as [t [R Fl]].
    exists t. split; [exact R|]. rewrite Fl. simpl.
    destruct (flatten_finish s') as [pre P].
    rewrite <- Fi, !P. simpl. now rewrite <- !app_assoc.
Qed.

Lemma parse_infix_chain (a : A) (rest : list (string * A)) :
  Forall (fun p => In (fst p) (map fst table)) rest ->
  exists t, parse_infix table (chain_of a rest) = Some t
            /\ flatten t = chain_of a rest.
Proof.
  intros F. unfold parse_infix, chain_of.
  destruct (run_settled rest F [] (Leaf a)) as [t [R Fl]]; [constructor|].
  exists t. split; [exact R|]. rewrite Fl. reflexivity.
Qed.

Lemma parse_infix_pair (a b c : A) (op1 op2 : string) (l1 l2 : Level) :
  level_of table op1 = Some l1 -> level_of table op2 = Some l2 ->
  parse_infix table (chain a op1 b op2 c)
  = match resolve l1 l2 with
    | Reduce => Some (nest_left a op1 b op2 c)
    | Shift => Some (nest_right a op1 b op2 c)
    | Unresolved => None
    end.
Proof.
  intros L1 L2. unfold parse_infix, chain. simpl. rewrite L1. simpl. rewrite L2.
  simpl. destruct (resolve l1 l2); reflexivity.
Qed.

End InfixFacts.

Lemma operation_table :
  Forall (fun G =>
    infix_table G "operation" = infix_table GrammarJs.grammar "operation")
    yap_grammars
  /\ Forall (fun e => snd (snd e) = Some AssocLeft
                      /\ level_of (infix_table GrammarJs.grammar "operation") (fst e)
                         = Some (snd e))
            (infix_table GrammarJs.grammar "operation").
Proof.
  split; [each_grammar run_chart|].
  vm_compute. repeat (apply Forall_cons; [split; reflexivity|]). apply Forall_nil.
Qed.

(** X9: in the three grammars the precedences declared on [operation]
    settle every chain of binary operators: an operand followed by any
    number of operators of the rule, each with its right operand, is read
    as one tree without a conflict left open, and the tree holds the
    operands and operators of the chain in their order. *)
Theorem operator_chains (G : Grammar) (A : Type) (a : A) (rest : list (string * A)) :
  In G yap_grammars ->
  Forall (fun p => In (fst p) (operators G)) rest ->
  exists t, parse_infix (infix_table G "operation") (chain_of a rest) = Some t
            /\ flatten t = chain_of a rest.
Proof.
  intros Hin F. destruct operation_table as [T D]. rewrite Forall_forall in T.
  unfold operators in F. rewrite (T G Hin) in F |- *.
  apply parse_infix_chain; [|exact F].
  apply Forall_forall. intros e He. rewrite Forall_forall in D.
  destruct (D e He) as [E _]. rewrite E. discriminate.
Qed.

Lemma operator_chains_witness :
  In Draft1.grammar yap_grammars
  /\ Forall (fun p => In (fst p) (operators Draft1.grammar))
            [("-", 2%nat); ("*", 3%nat); ("==", 4%nat)]
  /\ exists t, parse_infix (infix_table Draft1.grammar "operation")
                 (chain_of 1%nat [("-", 2%nat); ("*", 3%nat); ("==", 4%nat)]) = Some t
               /\ flatten t = chain_of 1%nat [("-", 2%nat); ("*", 3%nat); ("==", 4%nat)].
Proof.
  assert (H1 : In Draft1.grammar yap_grammars) by (unfold yap_grammars; simpl; tauto).
  assert (H2 : Forall (fun p => In (fst p) (operators Draft1.grammar))
                      [("-", 2%nat); ("*", 3%nat); ("==", 4%nat)])
    by (repeat (apply Forall_cons; [apply listed_in; vm_compute; reflexivity|]);
        apply Forall_nil).
  split; [exact H1|]. split; [exact H2|].
  exact (operator_chains _ nat 1%nat _ H1 H2).
Defined.

(** X10: for any two operators of [operation], in each of the three
    grammars, [a op1 b op2 c] is read [(a op1 b) op2 c] unless [op2] is
    declared strictly above [op1], and then it is read [a op1 (b op2 c)]:
    operators of one level, and any operator with itself, group to the
    left. *)
Theorem operator_pairs (G : Grammar) (A : Type) (a b c : A) (e1 e2 : string * Level) :
  In G yap_grammars ->
  In e1 (infix_table G "operation") -> In e2 (infix_table G "operation") ->
  parse_infix (infix_table G "operation") (chain a (fst e1) b (fst e2) c)
  = Some (if (fst (snd e1) <? fst (snd e2))%Z
          then nest_right a (fst e1) b (fst e2) c
          else nest_left a (fst e1) b (fst e2) c).
Proof.
  intros Hin H1 H2. destruct operation_table as [T D]. rewrite Forall_forall in T, D.
  rewrite (T G Hin) in H1, H2 |- *.
  destruct (D e1 H1) as [A1 L1]. destruct (D e2 H2) as [A2 L2].
  etransitivity; [exact (parse_infix_pair A _ a b c _ _ _ _ L1 L2)|].
  unfold resolve, Level in *. rewrite A1.
  rewrite Z.gtb_ltb.
  destruct (fst (snd e1) <? fst (snd e2))%Z; [reflexivity|].
  destruct (fst (snd e2) <? fst (snd e1))%Z; reflexivity.
Qed.

Lemma operator_pairs_witness :
  In Draft2.grammar yap_grammars
  /\ In ("<|", (22%Z, Some AssocLeft)) (infix_table Draft2.grammar "operation")
  /\ In ("++", (52%Z, Some AssocLeft)) (infix_table Draft2.grammar "operation")
  /\ parse_infix (infix_table Draft2.grammar "operation") (chain 1%nat "<|" 2%nat "++" 3%nat)
     = Some (nest_right 1%nat "<|" 2%nat "++" 3%nat).
Proof.
  assert (H1 : In Draft2.grammar yap_grammars) by (unfold yap_grammars; simpl; tauto).
  assert (H2 : In ("<|", (22%Z, Some AssocLeft)) (infix_table Draft2.grammar "operation"))
    by (vm_compute; tauto).
  assert (H3 : In ("++", (52%Z, Some AssocLeft)) (infix_table Draft2.grammar "operation"))
    by (vm_compute; tauto).
  split; [exact H1|]. split; [exact H2|]. split; [exact H3|].
  exact (operator_pairs _ nat 1%nat 2%nat 3%nat _ _ H1 H2 H3).
Defined.

(** ** The order of the operator tiers *)

Lemma tier_index_listed (ts : list (list string)) (op : string) (i : nat) :
  tier_index ts op = Some i -> In op (List.concat ts).
Proof.
  revert i. induction ts as [|t r IH]; simpl; intros i H; [discriminate|].
  apply in_or_app.
  destruct (existsb (String.eqb op) t) eqn:E.
  - left. apply existsb_exists in E. destruct E as [x [Hx E]].
    apply String.eqb_eq in E. now subst.
  - right. destruct (tier_index r op) as [k|]; [|discriminate]. now apply (IH k).
Qed.

Lemma tiers_checked_sound (ts : list (list string)) (table : list (string * Level)) :
  tiers_checked ts table = true ->
  forall (A : Type) (a b c : A) (o1 o2 : string) (i j : nat),
    tier_index ts o1 = Some i -> tier_index ts o2 = Some j ->
    parse_infix table (chain a o1 b o2 c)
    = Some (if Nat.ltb j i then nest_right a o1 b o2 c else nest_left a o1 b o2 c).
Proof.
  intros C A a b c o1 o2 i j T1 T2. unfold tiers_checked in C. cbv zeta in C.
  rewrite forallb_forall in C.
  specialize (C o1 (tier_index_listed ts o1 i T1)). rewrite forallb_forall in C.
  specialize (C o2 (tier_index_listed ts o2 j T2)).
  rewrite T1, T2 in C.
  destruct (level_of table o1) as [l1|] eqn:L1; [|discriminate].
  destruct (level_of table o2) as [l2|] eqn:L2; [|discriminate].
  rewrite (parse_infix_pair A table a b c o1 o2 l1 l2 L1 L2).
  destruct (resolve l1 l2); [| |discriminate].
  - now rewrite C.
  - destruct (Nat.ltb j i); [discriminate|reflexivity].
Qed.

Lemma operation_tiers :
  Forall (fun G =>
    tiers (infix_table G "operation")
    = [["*"; "/"; "%"]; ["+"; "-"]; ["<>"; "++"];
       ["=="; "!="; "<="; ">="; "<"; ">"]; ["&&"]; ["||"]; ["|>"; "<|"]]
    /\ tiers_checked (tiers (infix_table G "operation")) (infix_table G "operation") = true)
    yap_grammars.
Proof. each_grammar ltac:(split; vm_compute; reflexivity). Qed.

(** C6, as the code has it: in the three grammars the binary operators are
    left-associative and their precedence follows the tiers that the rule
    [operation] declares, the tightest first: multiplicative, additive,
    concatenation, relational, [&&], [||] and last the pipelines [|>] and
    [<|], which are declared at 22, below [&&] (42) and [||] (41).  So
    [a + b * c] is read [a + (b * c)], [a * b + c] is read [(a * b) + c],
    [a || b && c] is read [a || (b && c)], and [a && b |> c] is read
    [(a && b) |> c]; the three chains of the claim are operations. *)
Theorem operation_precedence (A : Type) (a b c : A) :
  Forall (fun G =>
    let t := infix_table G "operation" in
    tiers t = [["*"; "/"; "%"]; ["+"; "-"]; ["<>"; "++"];
               ["=="; "!="; "<="; ">="; "<"; ">"]; ["&&"]; ["||"]; ["|>"; "<|"]]
    /\ follows_tiers (tiers t) G
    /\ Forall (fun e => tier_index (tiers t) (fst e) <> None) t
    /\ (parse_infix t (chain a "+" b "*" c) = Some (nest_right a "+" b "*" c)
        /\ parse_infix t (chain a "*" b "+" c) = Some (nest_left a "*" b "+" c)
        /\ parse_infix t (chain a "||" b "&&" c) = Some (nest_right a "||" b "&&" c)
        /\ Forall (fun e => snd (snd e) = Some AssocLeft) t
        /\ Forall (fun e => parse_infix t (chain a (fst e) b (fst e) c)
                            = Some (nest_left a (fst e) b (fst e) c)) t)
    /\ parse_infix t (chain a "&&" b "|>" c) = Some (nest_left a "&&" b "|>" c)
    /\ derivable G "operation" ["a"; "+"; "b"; "*"; "c"]
    /\ derivable G "operation" ["a"; "*"; "b"; "+"; "c"]
    /\ derivable G "operation" ["a"; "||"; "b"; "&&"; "c"])
    yap_grammars.
Proof.
  apply Forall_forall. intros G Hin.
  pose proof (proj1 (Forall_forall _ _) chart_operations G Hin) as [C1 [C2 C3]].
  pose proof (proj1 (Forall_forall _ _) operation_tiers G Hin) as [T C].
  cbv zeta.
  split; [exact T|].
  split; [exact (tiers_checked_sound _ _ C)|].
  split.
  { rewrite T. simpl in Hin.
    destruct Hin as [<-|[<-|[<-|[]]]]; vm_compute;
      repeat (apply Forall_cons; [discriminate|]); apply Forall_nil. }
  split; [exact (operation_readings G A a b c Hin)|].
  split.
  { simpl in Hin. destruct Hin as [<-|[<-|[<-|[]]]]; reflexivity. }
  split; [exact (verdict_yes _ _ _ _ _ C1 0 _ eq_refl eq_refl)|].
  split; [exact (verdict_yes _ _ _ _ _ C2 0 _ eq_refl eq_refl)|].
  exact (verdict_yes _ _ _ _ _ C3 0 _ eq_refl eq_refl).
Qed.

(** C6 fails on the three grammars: the specification puts the pipelines
    above the logical operators, so that [a && b |> c] would be
    [a && (b |> c)]; the grammars read it [(a && b) |> c]. *)
Lemma pipeline_below_logical_operators :
  Forall (fun G => ~ follows_tiers stated_tiers G) yap_grammars.
Proof.
  each_grammar ltac:(intros H;
    specialize (H unit tt tt tt "&&" "|>" 5%nat 4%nat eq_refl eq_refl);
    vm_compute in H; discriminate H).
Qed.


(** ** Patterns as automata *)

Module Automaton.
Import Regex.

Lemma item_eqb_eq (i j : Item) : item_eqb i j = true -> i = j.
Proof.
  destruct i as [c|a b], j as [d|a' b']; simpl; try discriminate.
  - intros E. apply Ascii.eqb_eq in E. now subst.
  - destruct (Ascii.eqb a a') eqn:E1; [|discriminate]. intros E2.
    apply Ascii.eqb_eq in E1, E2. now subst.
Qed.

Lemma items_eqb_eq (xs ys : list Item) : items_eqb xs ys = true -> xs = ys.
Proof.
  revert ys. induction xs as [|x xs IH]; intros [|y ys]; simpl; try discriminate.
  - reflexivity.
  - destruct (item_eqb x y) eqn:E; [|discriminate]. intros H.
    apply item_eqb_eq in E. apply IH in H. now subst.
Qed.

Lemma regex_eqb_eq (r s : t) : regex_eqb r s = true -> r = s.
Proof.
  revert s.
  induction r as [| | |c|n xs|a IHa b IHb|a IHa b IHb|a IHa];
    intros [| | |d|m ys|a' b'|a' b'|a']; simpl; try discriminate; try reflexivity.
  - intros E. apply Ascii.eqb_eq in E. now subst.
  - destruct (Bool.eqb n m) eqn:E; [|discriminate]. intros H.
    apply Bool.eqb_prop in E. apply items_eqb_eq in H. now subst.
  - destruct (regex_eqb a a') eqn:E; [|discriminate]. intros H.
    apply IHa in E. apply IHb in H. now subst.
  - destruct (regex_eqb a a') eqn:E; [|discriminate]. intros H.
    apply IHa in E. apply IHb in H. now subst.
  - intros H. apply IHa in H. now subst.
Qed.

Lemma item_eqb_refl (i : Item) : item_eqb i i = true.
Proof. destruct i; simpl; now rewrite ?Ascii.eqb_refl. Qed.

Lemma items_eqb_refl (xs : list Item) : items_eqb xs xs = true.
Proof. induction xs as [|x xs IH]; simpl; [reflexivity|]. now rewrite item_eqb_refl. Qed.

Lemma regex_eqb_refl (r : t) : regex_eqb r r = true.
Proof.
  induction r as [| | |c|n xs|a IHa b IHb|a IHa b IHb|a IHa]; simpl; try reflexivity.
  - apply Ascii.eqb_refl.
  - now rewrite Bool.eqb_reflx, items_eqb_refl.
  - now rewrite IHa.
  - now rewrite IHa.
  - exact IHa.
Qed.

Lemma known_In (Q : list t) (r : t) : known Q r = true <-> In r Q.
Proof.
  unfold known. rewrite existsb_exists. split.
  - intros [q [Hq E]]. apply regex_eqb_eq in E. now subst.
  - intros H. exists r. split; [exact H|apply regex_eqb_refl].
Qed.

Lemma all_ascii_complete (c : ascii) : In c all_ascii.
Proof.
  unfold all_ascii. apply in_map_iff. exists (nat_of_ascii c).
  split; [apply ascii_nat_embedding|].
  apply in_seq. pose proof (nat_ascii_bounded c). lia.
Qed.

Lemma for_all_ascii (p : ascii -> bool) (c : ascii) :
  forallb p all_ascii = true -> p c = true.
Proof. intros H. rewrite forallb_forall in H. apply H, all_ascii_complete. Qed.

Lemma in_item_fast_eq (c : ascii) (i : Item) : in_item_fast c i = in_item c i.
Proof.
  destruct i as [d|lo hi]; simpl; [reflexivity|].
  unfold nat_of_ascii.
  destruct (N.leb_spec (N_of_ascii lo) (N_of_ascii c)) as [H|H];
    destruct (N.leb_spec (N_of_ascii c) (N_of_ascii hi)) as [K|K];
    symmetry; simpl;
    repeat match goal with
           | |- andb _ _ = true => apply andb_true_iff; split
           | |- andb _ _ = false => apply andb_false_iff
           | |- Nat.leb _ _ = true => apply Nat.leb_le; lia
           end;
    try (right; apply Nat.leb_gt; lia); try (left; apply Nat.leb_gt; lia).
Qed.

Lemma step_deriv (c : ascii) (r : t) : step c r = deriv c r.
Proof.
  induction r as [| | |d|n xs|a IHa b IHb|a IHa b IHb|a IHa]; simpl;
    try reflexivity.
  - unfold in_class.
    replace (existsb (in_item_fast c) xs) with (existsb (in_item c) xs); [reflexivity|].
    induction xs as [|x xs IH]; simpl; [reflexivity|].
    now rewrite in_item_fast_eq, IH.
  - now rewrite IHa, IHb.
  - now rewrite IHa, IHb.
  - now rewrite IHa.
Qed.

Lemma matches_derivs (s u : string) (r : t) :
  matches r (s ++ u) = matches (derivs s r) u.
Proof. revert r. induction s as [|c s IH]; intros r; simpl; [reflexivity|apply IH]. Qed.

Lemma matches_nullable (s : string) (r : t) : matches r s = nullable (derivs s r).
Proof. revert r. induction s as [|c s IH]; intros r; simpl; [reflexivity|apply IH]. Qed.

Lemma derivs_app (s u : string) (r : t) : derivs (s ++ u) r = derivs u (derivs s r).
Proof. revert r. induction s as [|c s IH]; intros r; simpl; [reflexivity|apply IH]. Qed.

Lemma closed_step (Q : list t) (q : t) (c : ascii) :
  closed_states Q = true -> In q Q -> In (deriv c q) Q.
Proof.
  unfold closed_states. rewrite forallb_forall. intros C Hq.
  apply known_In. rewrite <- step_deriv. exact (for_all_ascii _ c (C q Hq)).
Qed.

Lemma closed_derivs (Q : list t) (s : string) (r : t) :
  closed_states Q = true -> In r Q -> In (derivs s r) Q.
Proof.
  intros C. revert r. induction s as [|c s IH]; intros r Hr; simpl; [exact Hr|].
  apply IH. now apply closed_step.
Qed.

Lemma is_null_eq (r : t) : is_null r = true -> r = Null.
Proof. destruct r; simpl; try discriminate. reflexivity. Qed.

(** A lexeme of a pattern whose accepting states have no way on has no
    proper continuation of the same pattern. *)
Lemma final_states_sound (Q : list t) (r : t) (s u : string) :
  closed_states Q = true -> final_states Q = true -> In r Q ->
  matches r s = true -> matches r (s ++ u) = true -> u = EmptyString.
Proof.
  intros C F Hr M1 M2. rewrite matches_derivs in M2. rewrite matches_nullable in M1.
  destruct u as [|c u]; [reflexivity|]. simpl in M2.
  unfold final_states in F. rewrite forallb_forall in F.
  specialize (F _ (closed_derivs Q s r C Hr)). rewrite M1 in F.
  apply (for_all_ascii _ c) in F. apply is_null_eq in F. rewrite step_deriv in F.
  rewrite F in M2. now rewrite RegexFacts.matches_Null in M2.
Qed.

Lemma stops_on_sound (e : ascii) (Q : list t) (s : string) (r : t) :
  closed_states Q = true -> stops_on e Q = true -> In r Q ->
  s <> EmptyString -> matches r s = true ->
  exists s', s = (s' ++ String e EmptyString)%string.
Proof.
  intros C St. revert r. induction s as [|c s IH]; intros r Hr N M; [now elim N|].
  simpl in M. destruct s as [|d s].
  - simpl in M. unfold stops_on in St. rewrite forallb_forall in St.
    pose proof (for_all_ascii _ c (St r Hr)) as K. simpl in K.
    rewrite step_deriv, M in K.
    apply Ascii.eqb_eq in K. subst. now exists EmptyString.
  - destruct (IH (deriv c r) (closed_step Q r c C Hr) ltac:(discriminate) M) as [s' E].
    exists (String c s'). simpl. now rewrite E.
Qed.

Lemma enters_last_on_sound (e : ascii) (Q : list t) (s : string) (r : t) (c d : ascii) :
  closed_states Q = true -> enters_last_on e Q = true -> In r Q ->
  matches r (s ++ String c (String d EmptyString)) = true -> c = e.
Proof.
  intros C En Hr M. rewrite matches_derivs in M. simpl in M.
  pose proof (closed_derivs Q s r C Hr) as Hq.
  unfold enters_last_on in En. rewrite forallb_forall in En.
  pose proof (for_all_ascii _ c (En _ Hq)) as K. simpl in K.
  assert (B : known (before_last Q) (deriv c (derivs s r)) = true).
  { apply known_In. unfold before_last. apply filter_In.
    split; [now apply closed_step|].
    apply existsb_exists. exists d. split; [apply all_ascii_complete|].
    now rewrite step_deriv. }
  rewrite step_deriv, B in K. now apply Ascii.eqb_eq in K.
Qed.

Lemma starts_on_sound (e : ascii) (r : t) (c : ascii) (s : string) :
  starts_on e r = true -> matches r (String c s) = true -> c = e.
Proof.
  intros St M. simpl in M. pose proof (for_all_ascii _ c St) as K. simpl in K.
  rewrite step_deriv in K.
  destruct (is_null (deriv c r)) eqn:E.
  - apply is_null_eq in E. rewrite E in M. now rewrite RegexFacts.matches_Null in M.
  - now apply Ascii.eqb_eq in K.
Qed.

(** Two patterns none of whose lexemes begin alike share no lexeme. *)
Lemma apart_sound (r1 r2 : t) (s : string) :
  apart r1 r2 = true -> matches r1 s = true -> matches r2 s = true -> False.
Proof.
  unfold apart. intros A M1 M2. destruct s as [|c s]; simpl in M1, M2.
  - rewrite M1, M2 in A. discriminate.
  - destruct (if nullable r1 then nullable r2 else false); [discriminate|].
    pose proof (for_all_ascii _ c A) as K. simpl in K. rewrite !step_deriv in K.
    destruct (is_null (deriv c r1)) eqn:E.
    + apply is_null_eq in E. rewrite E in M1. now rewrite RegexFacts.matches_Null in M1.
    + apply is_null_eq in K. rewrite K in M2. now rewrite RegexFacts.matches_Null in M2.
Qed.

End Automaton.

(** ** Token classes *)

Lemma classes_apart_grammars : Forall (fun G => classes_apart G = true) yap_grammars.
Proof. each_grammar run_chart. Qed.

Lemma token_rule_lexeme (G : Grammar) (n : string) (re : Regex.t) (ts : list string) :
  In (n, re) (token_rules G) -> derivable G n ts ->
  exists s, ts = [s] /\ Regex.matches re s = true.
Proof.
  unfold token_rules. intros Hin D. apply in_flat_map in Hin.
  destruct Hin as [m [_ Hin]].
  destruct (lookup G m) as [body|] eqn:L; [|now elim Hin].
  destruct (lexical body) eqn:Lx; [|now elim Hin].
  destruct Hin as [E|[]]. injection E as -> <-.
  apply derives_Sym in D. destruct D as [body' [L' D]].
  rewrite L in L'. injection L' as <-.
  destruct body; try discriminate.
  - apply derives_Pattern in D. exact D.
  - apply derives_Token in D. exact D.
Qed.

(** X12: in each of the three grammars the rules that are one lexeme of a
    pattern (identifier, string, comment, the digits, and the number of
    src/grammar.js or the label of src/unnamed/part_000) share no lexeme:
    what is a token of one class is a token of no other. *)
Theorem token_classes_apart (G : Grammar) (n m : string) (ts : list string) :
  In G yap_grammars ->
  In n (map fst (token_rules G)) -> In m (map fst (token_rules G)) ->
  derivable G n ts -> derivable G m ts -> n = m.
Proof.
  intros Hin Hn Hm Dn Dm.
  pose proof (proj1 (Forall_forall _ _) classes_apart_grammars G Hin) as C.
  apply in_map_iff in Hn. destruct Hn as [[n' rn] [En Hn]]. simpl in En. subst n'.
  apply in_map_iff in Hm. destruct Hm as [[m' rm] [Em Hm]]. simpl in Em. subst m'.
  destruct (token_rule_lexeme G n rn ts Hn Dn) as [s [-> Mn]].
  destruct (token_rule_lexeme G m rm [s] Hm Dm) as [s' [E Mm]]. injection E as <-.
  unfold classes_apart in C. rewrite forallb_forall in C.
  specialize (C _ Hn). rewrite forallb_forall in C. specialize (C _ Hm). simpl in C.
  destruct (String.eqb_spec n m) as [E|E]; [exact E|].
  elim (Automaton.apart_sound rn rm s C Mn Mm).
Qed.

Lemma identifier_x_js : derivable GrammarJs.grammar "identifier" ["x"].
Proof.
  apply (identifier_rule GrammarJs.grammar Lexical.identifier_plain eq_refl).
  exists "x". split; reflexivity.
Qed.

Lemma token_classes_apart_witness :
  In GrammarJs.grammar yap_grammars
  /\ In "identifier" (map fst (token_rules GrammarJs.grammar))
  /\ derivable GrammarJs.grammar "identifier" ["x"]
  /\ "identifier" = "identifier".
Proof.
  assert (H1 : In GrammarJs.grammar yap_grammars) by (unfold yap_grammars; simpl; tauto).
  assert (H2 : In "identifier" (map fst (token_rules GrammarJs.grammar)))
    by (vm_compute; tauto).
  split; [exact H1|]. split; [exact H2|]. split; [exact identifier_x_js|].
  exact (token_classes_apart _ _ _ _ H1 H2 H2 identifier_x_js identifier_x_js).
Defined.

(** ** Strings and comments *)

Lemma string_snoc (s : string) :
  s <> EmptyString -> exists s' c, s = (s' ++ String c EmptyString)%string.
Proof.
  induction s as [|c s IH]; intros N; [now elim N|].
  destruct s as [|d s].
  - now exists EmptyString, c.
  - destruct (IH ltac:(discriminate)) as [s' [e E]].
    exists (String c s'), e. simpl. now rewrite E.
Qed.

Lemma string_app_assoc (a b c : string) : ((a ++ b) ++ c = a ++ (b ++ c))%string.
Proof. induction a as [|x a IH]; simpl; [reflexivity|now rewrite IH]. Qed.

Lemma string_automaton :
  exists Q,
    closed_states Q = true
    /\ final_states Q = true
    /\ stops_on dquote Q = true
    /\ known Q Lexical.string_re = true
    /\ starts_on dquote Lexical.string_re = true
    /\ Regex.nullable (Regex.deriv dquote Lexical.string_re) = false.
Proof.
  let Q := eval vm_compute in (states Lexical.string_re) in exists Q.
  repeat match goal with |- _ /\ _ => split end; run_chart.
Qed.

Lemma string_rules :
  Forall (fun G => lookup G "string" = Some (Pattern Lexical.string_re)
                   /\ word G <> Some "string"
                   /\ lookup G "comment" = Some comment_rule
                   /\ word G <> Some "comment") yap_grammars.
Proof. each_grammar ltac:(repeat split; try reflexivity; discriminate). Qed.

Lemma string_rule (G : Grammar) (ts : list string) :
  In G yap_grammars ->
  derivable G "string" ts <->
  exists s, ts = [s] /\ Regex.matches Lexical.string_re s = true.
Proof.
  intros Hin.
  destruct (proj1 (Forall_forall _ _) string_rules G Hin) as [L [W _]].
  unfold derivable. split.
  - intros D. apply derives_Sym in D. destruct D as [body [L' D]].
    rewrite L in L'. injection L' as <-. now apply derives_Pattern in D.
  - intros [s [-> M]]. apply (D_Sym G _ _ _ L). now constructor.
Qed.

(** X13: in the three grammars a string lexeme begins with a double quote
    and ends with another one, and the token ends there: nothing put after
    a string lexeme makes a longer string lexeme. *)
Theorem string_lexemes (G : Grammar) (s : string) :
  In G yap_grammars -> derivable G "string" [s] ->
  (exists body, s = String dquote (body ++ String dquote EmptyString))
  /\ (forall u, derivable G "string" [(s ++ u)%string] -> u = EmptyString).
Proof.
  intros Hin D.
  destruct string_automaton as [Q [C [F [St [K [Sa N]]]]]].
  apply Automaton.known_In in K.
  apply (string_rule G _ Hin) in D. destruct D as [s0 [E M]]. injection E as <-.
  split.
  - destruct s as [|c s]; [discriminate M|].
    pose proof (Automaton.starts_on_sound _ _ _ _ Sa M) as E. subst c.
    change (Regex.matches (Regex.deriv dquote Lexical.string_re) s = true) in M.
    assert (Ns : s <> EmptyString).
    { intros E. subst s.
      change (Regex.nullable (Regex.deriv dquote Lexical.string_re) = true) in M.
      rewrite N in M. discriminate M. }
    destruct (Automaton.stops_on_sound dquote _ s _ C St
                (Automaton.closed_step _ _ dquote C K) Ns M) as [body E].
    exists body. rewrite E. reflexivity.
  - intros u Du. apply (string_rule G _ Hin) in Du.
    destruct Du as [s1 [E Mu]]. injection E as <-.
    exact (Automaton.final_states_sound _ _ s u C F K M Mu).
Qed.

Lemma string_lexemes_witness :
  In Draft1.grammar yap_grammars
  /\ derivable Draft1.grammar "string" [String dquote (String "a" (String dquote EmptyString))]
  /\ (exists body, String dquote (String "a" (String dquote EmptyString))
                   = String dquote (body ++ String dquote EmptyString))
  /\ (forall u, derivable Draft1.grammar "string"
                  [(String dquote (String "a" (String dquote EmptyString)) ++ u)%string]
                -> u = EmptyString).
Proof.
  assert (H1 : In Draft1.grammar yap_grammars) by (unfold yap_grammars; simpl; tauto).
  assert (H2 : derivable Draft1.grammar "string"
                 [String dquote (String "a" (String dquote EmptyString))]).
  { apply (D_Sym _ "string" (Pattern Lexical.string_re)); [reflexivity|].
    constructor. vm_compute. reflexivity. }
  split; [exact H1|]. split; [exact H2|].
  exact (string_lexemes _ _ H1 H2).
Defined.

Lemma comment_automaton :
  exists Q,
    closed_states Q = true
    /\ final_states Q = true
    /\ stops_on "/" Q = true
    /\ enters_last_on "*" Q = true
    /\ known Q block_comment_rest = true
    /\ Regex.nullable block_comment_rest = false
    /\ forallb (fun c => negb (Regex.nullable (step c block_comment_rest))) all_ascii
       = true.
Proof.
  let Q := eval vm_compute in (states block_comment_rest) in exists Q.
  repeat match goal with |- _ /\ _ => split end; run_chart.
Qed.

Lemma line_comment : line_comment_rest = Regex.Star Regex.Dot.
Proof. run_chart. Qed.

Lemma comment_token (G : Grammar) (ts : list string) :
  In G yap_grammars ->
  derivable G "comment" ts <-> exists s, ts = [s] /\ Regex.matches comment_re s = true.
Proof.
  intros Hin.
  destruct (proj1 (Forall_forall _ _) string_rules G Hin) as [_ [_ [L W]]].
  unfold derivable. split.
  - intros D. apply derives_Sym in D. destruct D as [body [L' D]].
    rewrite L in L'. injection L' as <-. now apply derives_Token in D.
  - intros [s [-> M]]. apply (D_Sym G _ _ _ L). now apply D_Token.
Qed.

Lemma matches_Star_Dot (s : string) :
  Regex.matches (Regex.Star Regex.Dot) s = string_forall not_newline s.
Proof.
  induction s as [|c s IH]; [reflexivity|].
  simpl. unfold not_newline. destruct (Ascii.eqb c Regex.newline); simpl.
  - apply RegexFacts.matches_Null.
  - exact IH.
Qed.

(** X14: in the three grammars two slashes and any characters other than
    the newline are a comment, and two slashes followed by text with a
    newline are not; a comment that opens with a slash and a star closes
    with a star and a slash, and the token ends there. *)
Theorem comment_lexemes (G : Grammar) (x : string) :
  In G yap_grammars ->
  (derivable G "comment" [("//" ++ x)%string] <-> string_forall not_newline x = true)
  /\ (derivable G "comment" [("/*" ++ x)%string] ->
      (exists body, x = (body ++ "*/")%string)
      /\ (forall u, derivable G "comment" [("/*" ++ x ++ u)%string] -> u = EmptyString)).
Proof.
  intros Hin.
  destruct comment_automaton as [Q [C [F [St [En [K [N N1]]]]]]].
  pose proof line_comment as Ln.
  apply Automaton.known_In in K.
  split.
  - rewrite (comment_token G _ Hin). split.
    + intros [s [E M]]. injection E as <-.
      change (Regex.matches line_comment_rest x = true) in M.
      rewrite Ln in M. rewrite matches_Star_Dot in M. exact M.
    + intros H. eexists. split; [reflexivity|].
      change (Regex.matches line_comment_rest x = true).
      rewrite Ln. rewrite matches_Star_Dot. exact H.
  - intros D. apply (comment_token G _ Hin) in D.
    destruct D as [s [E M]]. injection E as <-.
    change (Regex.matches block_comment_rest x = true) in M.
    split.
    + assert (Nx : x <> EmptyString).
      { intros E. subst x.
        change (Regex.nullable block_comment_rest = true) in M.
        rewrite N in M. discriminate M. }
      destruct (Automaton.stops_on_sound "/" _ x _ C St K Nx M) as [x1 E]. subst x.
      destruct x1 as [|c1 x1].
      * change (Regex.nullable (Regex.deriv "/" block_comment_rest) = true) in M.
        pose proof (Automaton.for_all_ascii _ "/"%char N1) as K1.
        cbv beta in K1. rewrite Automaton.step_deriv, M in K1. discriminate K1.
      * destruct (string_snoc (String c1 x1) ltac:(discriminate)) as [x2 [c E]].
        rewrite E in M |- *. rewrite string_app_assoc in M.
        change (String c EmptyString ++ String "/" EmptyString)%string
          with (String c (String "/" EmptyString)) in M.
        pose proof (Automaton.enters_last_on_sound "*" _ x2 _ c "/" C En K M) as Ec.
        subst c. exists x2. rewrite string_app_assoc. reflexivity.
    + intros u Du. apply (comment_token G _ Hin) in Du.
      destruct Du as [s [E Mu]]. injection E as <-.
      change (Regex.matches block_comment_rest (x ++ u) = true) in Mu.
      exact (Automaton.final_states_sound _ _ x u C F K M Mu).
Qed.

Lemma comment_lexemes_witness :
  In Draft2.grammar yap_grammars
  /\ (derivable Draft2.grammar "comment" [("//" ++ " to do")%string]
      <-> string_forall not_newline " to do" = true).
Proof.
  assert (H1 : In Draft2.grammar yap_grammars) by (unfold yap_grammars; simpl; tauto).
  split; [exact H1|].
  exact (proj1 (comment_lexemes Draft2.grammar " to do" H1)).
Defined.

(** ** What a pattern made of parts matches *)

Module RegexParts.
Import Regex.

Lemma matches_alt (s : string) (a b : t) :
  matches (alt a b) s = matches a s || matches b s.
Proof.
  revert a b. induction s as [|c s IH]; intros a b.
  - destruct a, b; simpl; rewrite ?orb_false_r; reflexivity.
  - assert (K : matches (Alt a b) (String c s) = matches a (String c s) || matches b (String c s))
      by (simpl; apply IH).
    destruct a; try exact K; destruct b; try exact K;
      cbn [alt]; rewrite ?RegexFacts.matches_Null, ?orb_false_r; reflexivity.
Qed.

Lemma matches_Alt (s : string) (a b : t) :
  matches (Alt a b) s = matches a s || matches b s.
Proof. destruct s as [|c s]; simpl; [reflexivity|apply matches_alt]. Qed.

Lemma matches_Eps (s : string) : matches Eps s = true <-> s = EmptyString.
Proof.
  destruct s as [|c s]; simpl; [tauto|].
  rewrite RegexFacts.matches_Null. split; discriminate.
Qed.

Lemma matches_Cat (s : string) (a b : t) :
  matches (Cat a b) s = true <->
  exists s1 s2, s = (s1 ++ s2)%string /\ matches a s1 = true /\ matches b s2 = true.
Proof.
  revert a. induction s as [|c s IH]; intros a.
  - simpl. rewrite andb_true_iff. split.
    + intros [Ha Hb]. now exists EmptyString, EmptyString.
    + intros [s1 [s2 [E [Ha Hb]]]].
      destruct s1; [|discriminate]. destruct s2; [|discriminate]. now split.
  - cbn [matches deriv]. rewrite matches_alt, orb_true_iff.
    assert (C : matches (cat (deriv c a) b) s = true <->
                exists s1 s2, s = (s1 ++ s2)%string
                              /\ matches (deriv c a) s1 = true /\ matches b s2 = true).
    { destruct (deriv c a) eqn:E; try (cbn [cat]; apply IH).
      - cbn [cat]. rewrite RegexFacts.matches_Null. split; [discriminate|].
        intros [s1 [s2 [_ [H _]]]]. now rewrite RegexFacts.matches_Null in H.
      - cbn [cat]. split.
        + intros H. now exists EmptyString, s.
        + intros [s1 [s2 [-> [H1 H2]]]]. apply matches_Eps in H1. now subst. }
    rewrite C. split.
    + intros [[s1 [s2 [-> [H1 H2]]]]|H].
      * now exists (String c s1), s2.
      * destruct (nullable a) eqn:N.
        -- now exists EmptyString, (String c s).
        -- now rewrite RegexFacts.matches_Null in H.
    + intros [s1 [s2 [E [H1 H2]]]]. destruct s1 as [|d s1].
      * simpl in E. subst s2. right. simpl in H1. now rewrite H1.
      * simpl in E. injection E as <- ->. left. now exists s1, s2.
Qed.

Lemma matches_lit (x s : string) : matches (lit x) s = true <-> s = x.
Proof.
  revert s. induction x as [|c x IH]; intros s; cbn [lit].
  - apply matches_Eps.
  - rewrite RegexFacts.matches_Lit_Cat. destruct s as [|d s]; [split; discriminate|].
    destruct (Ascii.eqb_spec d c) as [->|N].
    + rewrite IH. split; [now intros ->|now intros [= ->]].
    + split; [discriminate|]. intros [= E _]. now elim N.
Qed.

End RegexParts.

(** ** Numbers *)

Lemma digits_shape (s : string) : Regex.matches Lexical.digits s = all_digits s.
Proof.
  destruct s as [|c r]; [reflexivity|].
  unfold Lexical.digits, Regex.plus. now rewrite RegexFacts.matches_Class_Star.
Qed.

Lemma number_rules :
  lookup GrammarJs.grammar "number"
  = Some (Token (Choice (Seq (Pattern Lexical.digits) (Seq (Str ".") (Pattern Lexical.digits)))
                        (Pattern Lexical.digits)))
  /\ Forall (fun G =>
       lookup G "number"
       = Some (Choice (Prec (Some AssocRight) 1
                         (Seq (Sym "_digits") (Seq (Str ".") (Sym "_digits"))))
                      (Sym "_digits"))
       /\ lookup G "_digits" = Some (Token (Pattern Lexical.digits)))
     [Draft1.grammar; Draft2.grammar].
Proof. split; [reflexivity|]. repeat constructor. Qed.

Lemma digits_token (G : Grammar) (ts : list string) :
  lookup G "_digits" = Some (Token (Pattern Lexical.digits)) ->
  derivable G "_digits" ts <-> exists d, ts = [d] /\ all_digits d = true.
Proof.
  intros L. unfold derivable. split.
  - intros D. apply derives_Sym in D. destruct D as [body [L' D]].
    rewrite L in L'. injection L' as <-.
    apply derives_Token in D. destruct D as [d [-> M]].
    exists d. split; [reflexivity|]. simpl in M. now rewrite digits_shape in M.
  - intros [d [-> M]]. apply (D_Sym G _ _ _ L).
    apply D_Token. simpl. now rewrite digits_shape.
Qed.

(** X15: a number is digits, or digits, a dot and digits.  In
    src/grammar.js it is one lexeme, the dot inside it; in the two grammars
    of src/unnamed/part_000 the digits are lexemes and the dot is one of its
    own, so that white space may stand around the dot there and not in
    src/grammar.js. *)
Theorem number_lexemes (ts : list string) :
  (derivable GrammarJs.grammar "number" ts <->
     exists s, ts = [s]
       /\ (all_digits s = true
           \/ exists d1 d2, s = (d1 ++ "." ++ d2)%string
                            /\ all_digits d1 = true /\ all_digits d2 = true))
  /\ Forall (fun G =>
       derivable G "number" ts <->
         (exists d, ts = [d] /\ all_digits d = true)
         \/ (exists d1 d2, ts = [d1; "."; d2]
                           /\ all_digits d1 = true /\ all_digits d2 = true))
     [Draft1.grammar; Draft2.grammar].
Proof.
  destruct number_rules as [LJ LD]. split.
  - unfold derivable. split.
    + intros D. apply derives_Sym in D. destruct D as [body [L' D]].
      rewrite LJ in L'. injection L' as <-.
      apply derives_Token in D. destruct D as [s [-> M]].
      exists s. split; [reflexivity|].
      cbn [lex_regex] in M. rewrite RegexParts.matches_Alt in M.
      apply orb_true_iff in M. destruct M as [M|M].
      * right. apply RegexParts.matches_Cat in M. destruct M as [d1 [r [-> [M1 M]]]].
        apply RegexParts.matches_Cat in M. destruct M as [dot [d2 [-> [Md M2]]]].
        apply RegexParts.matches_lit in Md. subst dot.
        exists d1, d2. rewrite <- !digits_shape. auto.
      * left. now rewrite <- digits_shape.
    + intros [s [-> H]]. apply (D_Sym _ _ _ _ LJ).
      apply D_Token. cbn [lex_regex]. rewrite RegexParts.matches_Alt.
      apply orb_true_iff. destruct H as [H|[d1 [d2 [-> [H1 H2]]]]].
      * right. now rewrite digits_shape.
      * left. apply RegexParts.matches_Cat. exists d1, ("." ++ d2)%string.
        split; [reflexivity|]. split; [now rewrite digits_shape|].
        apply RegexParts.matches_Cat. exists ".", d2.
        split; [reflexivity|]. split; [now apply RegexParts.matches_lit|].
        now rewrite digits_shape.
  - apply Forall_forall. intros G Hin. rewrite Forall_forall in LD.
    destruct (LD G Hin) as [L Ld].
    pose proof (digits_token G) as T.
    unfold derivable in *. split.
    + intros D. apply derives_Sym in D. destruct D as [body [L' D]].
      rewrite L in L'. injection L' as <-.
      invert_derives; subst.
      * right.
        repeat match goal with
               | H : derives G (Sym "_digits") _ |- _ =>
                   apply (T _ Ld) in H; destruct H as [? [-> ?]]
               end.
        eexists _, _. split; [reflexivity|]. now split.
      * left. now apply (T _ Ld).
    + intros H. apply (D_Sym G _ _ _ L).
      destruct H as [H|[d1 [d2 [-> [H1 H2]]]]].
      * apply D_ChoiceR. now apply (T _ Ld).
      * apply D_ChoiceL. apply D_Prec.
        apply (D_Seq G _ _ [d1] ["."; d2]).
        -- apply (T _ Ld). now exists d1.
        -- apply (D_Seq G _ _ ["."] [d2]); [constructor|].
           apply (T _ Ld). now exists d2.
Qed.

(** ** The grammars are well formed *)

Lemma listed_In (xs : list string) (n : string) : listed xs n = true -> In n xs.
Proof. unfold listed. apply listed_in. Qed.

Section SampleFacts.
Variable G : Grammar.
Local Open Scope list_scope.

Lemma sample_lexeme_sound (re : Regex.t) (ts : list string) :
  sample_lexeme re = Some ts -> exists s, ts = [s] /\ Regex.matches re s = true.
Proof.
  unfold sample_lexeme. destruct (find (Regex.matches re) candidates) as [s|] eqn:F;
    [|discriminate].
  intros [= <-]. apply find_some in F. exists s. now split.
Qed.

Lemma sample_sound (W : list (string * list string)) (r : Rule) (ts : list string) :
  sampled G W -> sample W r = Some ts -> derives G r ts.
Proof.
  intros HW. revert ts.
  induction r as [|s|re|n|a IHa b IHb|a IHa b IHb|a IHa|o n a IHa|f a IHa|a IHa n|a IHa];
    intros ts; cbn [sample].
  - intros [= <-]. constructor.
  - intros [= <-]. constructor.
  - intros H. apply sample_lexeme_sound in H. destruct H as [s [-> M]]. now constructor.
  - destruct (find (fun p => String.eqb (fst p) n) W) as [p|] eqn:F; [|discriminate].
    intros [= <-]. apply find_some in F. destruct F as [Hp E].
    apply String.eqb_eq in E. subst n.
    unfold sampled in HW. rewrite Forall_forall in HW. now apply HW.
  - destruct (sample W a) as [x|]; [|discriminate].
    destruct (sample W b) as [y|]; [|discriminate].
    intros [= <-]. apply D_Seq; [now apply IHa|now apply IHb].
  - destruct (sample W a) as [x|].
    + intros [= <-]. apply D_ChoiceL. now apply IHa.
    + intros H. apply D_ChoiceR. now apply IHb.
  - intros [= <-]. constructor.
  - intros H. apply D_Prec. now apply IHa.
  - intros H. apply D_Field. now apply IHa.
  - intros H. apply D_Alias. now apply IHa.
  - intros H. apply sample_lexeme_sound in H. destruct H as [s [-> M]]. now apply D_Token.
Qed.

Lemma sample_step_sound (W : list (string * list string)) :
  sampled G W -> sampled G (sample_step G W).
Proof.
  unfold sample_step. generalize (all_rules G). intros ns. revert W.
  induction ns as [|n ns IH]; intros W HW; simpl; [exact HW|].
  apply IH.
  destruct (listed (map fst W) n); [exact HW|].
  destruct (lookup G n) as [body|] eqn:L; [|exact HW].
  destruct (sample W body) as [ts|] eqn:E; [|exact HW].
  constructor; [|exact HW]. simpl.
  apply (D_Sym G n body ts L). now apply (sample_sound W).
Qed.

Lemma samples_sound (fuel : nat) (W : list (string * list string)) :
  sampled G W -> sampled G (samples fuel G W).
Proof.
  revert W. induction fuel as [|k IH]; intros W HW; simpl; [exact HW|].
  apply IH. now apply sample_step_sound.
Qed.

Lemma productive_sound (n : string) :
  productive G = true -> In n (all_rules G) -> exists ts, derivable G n ts.
Proof.
  unfold productive. rewrite forallb_forall. intros P Hn.
  apply P, listed_In, in_map_iff in Hn. destruct Hn as [[m ts] [E Hin]].
  simpl in E. subst m. exists ts.
  pose proof (samples_sound 20 [] ltac:(constructor)) as S.
  unfold sampled in S. rewrite Forall_forall in S. exact (S _ Hin).
Qed.

End SampleFacts.

Lemma if_both (a b : bool) : (if a then b else false) = true -> a = true /\ b = true.
Proof. destruct a; [now split|discriminate]. Qed.

Lemma grammars_checked :
  Forall (fun G =>
    (if names_defined G then
       if distinct (all_rules G) then
         if supertypes_plain G then
           if forallb (listed (used G)) (all_rules G) then productive G else false
         else false
       else false
     else false) = true) yap_grammars.
Proof. each_grammar run_chart. Qed.

(** X16: each of the three grammars is well formed.  Every name used in a
    rule, in the extras, the conflicts, the supertypes or as the word is the
    name of a rule; no rule is defined twice; every supertype is a choice of
    rules; every rule is reached from [source_file] or from the extras; and
    every rule derives at least one sequence of lexemes. *)
Theorem grammars_well_formed (G : Grammar) (n : string) :
  In G yap_grammars -> In n (all_rules G) ->
  names_defined G = true
  /\ distinct (all_rules G) = true
  /\ supertypes_plain G = true
  /\ In n (used G)
  /\ exists ts, derivable G n ts.
Proof.
  intros Hin Hn.
  pose proof (proj1 (Forall_forall _ _) grammars_checked G Hin) as C. cbv beta in C.
  apply if_both in C. destruct C as [C1 C].
  apply if_both in C. destruct C as [C2 C].
  apply if_both in C. destruct C as [C4 C].
  apply if_both in C. destruct C as [C3 C].
  split; [exact C1|]. split; [exact C2|]. split; [exact C4|]. split.
  - rewrite forallb_forall in C3. exact (listed_In _ _ (C3 n Hn)).
  - apply productive_sound; [exact C|exact Hn].
Qed.

Lemma grammars_well_formed_witness :
  In Draft2.grammar yap_grammars
  /\ In "match" (all_rules Draft2.grammar)
  /\ names_defined Draft2.grammar = true
  /\ distinct (all_rules Draft2.grammar) = true
  /\ supertypes_plain Draft2.grammar = true
  /\ In "match" (used Draft2.grammar)
  /\ exists ts, derivable Draft2.grammar "match" ts.
Proof.
  assert (H1 : In Draft2.grammar yap_grammars) by (unfold yap_grammars; simpl; tauto).
  assert (H2 : In "match" (all_rules Draft2.grammar))
    by (apply listed_in; vm_compute; reflexivity).
  split; [exact H1|]. split; [exact H2|].
  exact (grammars_well_formed _ _ H1 H2).
Defined.

(** ** Patterns and terms *)

Section RenameFacts.
Variable G : Grammar.
Variable m : list (string * string).
Variable C : list string.
Hypothesis closed : closed_rules G C = true.
Hypothesis rest : rest_untouched G m C = true.
Hypothesis step :
  forall n body ts,
    In n (map fst m) -> lookup G n = Some body ->
    derives G (rename (renaming m) body) ts -> derives G (Sym (renaming m n)) ts.
Local Open Scope list_scope.

Lemma renaming_other (n : string) :
  listed (map fst m) n = false -> renaming m n = n.
Proof.
  unfold renaming. intros H.
  destruct (find (fun p => String.eqb (fst p) n) m) as [p|] eqn:F; [|reflexivity].
  apply find_some in F. destruct F as [Hp E]. apply String.eqb_eq in E.
  assert (K : listed (map fst m) n = true).
  { unfold listed. apply existsb_exists. exists (fst p).
    split; [now apply in_map|]. rewrite E. apply String.eqb_refl. }
  rewrite K in H. discriminate H.
Qed.

Lemma rename_untouched (r : Rule) :
  untouched m r = true -> rename (renaming m) r = r.
Proof.
  unfold untouched.
  induction r as [|s|re|n|a IHa b IHb|a IHa b IHb|a IHa|o k a IHa|f a IHa|a IHa k|a IHa];
    cbn [symbols rename]; intros H; try reflexivity.
  - simpl in H. rewrite andb_true_r in H. apply negb_true_iff in H.
    now rewrite renaming_other.
  - rewrite forallb_app in H. apply andb_true_iff in H. destruct H as [Ha Hb].
    now rewrite IHa, IHb.
  - rewrite forallb_app in H. apply andb_true_iff in H. destruct H as [Ha Hb].
    now rewrite IHa, IHb.
  - now rewrite IHa.
  - now rewrite IHa.
  - now rewrite IHa.
  - now rewrite IHa.
Qed.

Lemma rename_derives (r : Rule) (ts : list string) :
  derives G r ts ->
  forallb (listed C) (symbols r) = true -> derives G (rename (renaming m) r) ts.
Proof.
  induction 1 as
    [ | s | re s Hm | r s Hm | n body ts Hl D IH | a b t1 t2 D1 IH1 D2 IH2
    | a b ts D IH | a b ts D IH | r | r t1 t2 D1 IH1 D2 IH2
    | a n r ts D IH | f r ts D IH | r n ts D IH ];
    cbn [symbols rename]; intros S.
  - constructor.
  - constructor.
  - now constructor.
  - now constructor.
  - simpl in S. rewrite andb_true_r in S. apply listed_In in S.
    unfold closed_rules in closed. rewrite forallb_forall in closed.
    pose proof (closed n S) as Cn. rewrite Hl in Cn. specialize (IH Cn).
    destruct (listed (map fst m) n) eqn:E.
    + apply (step n body ts); [now apply listed_In|exact Hl|exact IH].
    + unfold rest_untouched in rest. rewrite forallb_forall in rest.
      pose proof (rest n S) as Rn. rewrite E, Hl in Rn.
      rewrite (renaming_other n E). rewrite (rename_untouched body Rn) in IH.
      now apply (D_Sym G n body).
  - rewrite forallb_app in S. apply andb_true_iff in S. destruct S as [Sa Sb].
    apply D_Seq; [now apply IH1|now apply IH2].
  - rewrite forallb_app in S. apply andb_true_iff in S. destruct S as [Sa Sb].
    apply D_ChoiceL. now apply IH.
  - rewrite forallb_app in S. apply andb_true_iff in S. destruct S as [Sa Sb].
    apply D_ChoiceR. now apply IH.
  - constructor.
  - apply D_RepeatCons; [now apply IH1|now apply IH2].
  - apply D_Prec. now apply IH.
  - apply D_Field. now apply IH.
  - apply D_Alias. now apply IH.
Qed.

End RenameFacts.

Lemma pattern_rules_checked :
  closed_rules GrammarJs.grammar pattern_rules = true
  /\ rest_untouched GrammarJs.grammar pattern_terms pattern_rules = true
  /\ listed pattern_rules "pattern" = true.
Proof. repeat split; run_chart. Qed.

Lemma atom_is_type (a : Rule) (ts : list string) :
  In a (alternatives (Dsl.choice [Sym "variable"; Sym "hole"; Sym "literal"; Sym "struct";
                                  Sym "tuple"; Sym "list"; Sym "tagged"])) ->
  derives GrammarJs.grammar a ts -> derives GrammarJs.grammar (Sym "type") ts.
Proof.
  intros Hin D.
  apply (enter_rule GrammarJs.grammar "type" _ (Sym "expr") ts eq_refl);
    [vm_compute; tauto|].
  apply (enter_rule GrammarJs.grammar "expr" _ (Sym "atom") ts eq_refl);
    [vm_compute; tauto|].
  apply (enter_rule GrammarJs.grammar "atom" _ a ts eq_refl); [|exact D].
  simpl in Hin. vm_compute. tauto.
Qed.

Lemma pattern_step (n : string) (body : Rule) (ts : list string) :
  In n (map fst pattern_terms) -> lookup GrammarJs.grammar n = Some body ->
  derives GrammarJs.grammar (rename (renaming pattern_terms) body) ts ->
  derives GrammarJs.grammar (Sym (renaming pattern_terms n)) ts.
Proof.
  intros Hin L D. simpl in Hin.
  destruct Hin as [<-|[<-|[<-|[<-|[<-|[<-|[<-|[<-|[<-|[<-|[]]]]]]]]]]];
    vm_compute in L; injection L as <-;
    cbn [rename] in D;
    change (renaming pattern_terms "pattern") with "type" in *;
    change (renaming pattern_terms "pattern_variable") with "variable" in *;
    change (renaming pattern_terms "pattern_literal") with "literal" in *;
    change (renaming pattern_terms "pattern_tagged") with "tagged" in *;
    change (renaming pattern_terms "pattern_struct") with "struct" in *;
    change (renaming pattern_terms "pattern_tuple") with "tuple" in *;
    change (renaming pattern_terms "pattern_list") with "list" in *;
    change (renaming pattern_terms "pattern_row") with "row" in *;
    change (renaming pattern_terms "pattern_key_value") with "key_value" in *;
    change (renaming pattern_terms "wildcard") with "hole" in *;
    change (renaming pattern_terms "identifier") with "identifier" in *;
    change (renaming pattern_terms "literal") with "literal" in *.
  - invert_derives;
      try (refine (atom_is_type _ ts _ D); vm_compute; tauto).
    apply (enter_rule GrammarJs.grammar "type" _ (Sym "row") ts eq_refl);
      [vm_compute; tauto|assumption].
  - apply (enter_rule GrammarJs.grammar "variable" _ (Sym "identifier") ts eq_refl);
      [vm_compute; tauto|exact D].
  - exact D.
  - apply (D_Sym GrammarJs.grammar "tagged" _ ts ltac:(vm_compute; reflexivity)). exact D.
  - apply (D_Sym GrammarJs.grammar "struct" _ ts ltac:(vm_compute; reflexivity)). exact D.
  - apply (D_Sym GrammarJs.grammar "tuple" _ ts ltac:(vm_compute; reflexivity)). exact D.
  - apply (D_Sym GrammarJs.grammar "list" _ ts ltac:(vm_compute; reflexivity)). exact D.
  - apply (D_Sym GrammarJs.grammar "row" _ ts ltac:(vm_compute; reflexivity)). exact D.
  - invert_derives. subst.
    apply (D_Sym GrammarJs.grammar "key_value" _ _ ltac:(vm_compute; reflexivity)).
    apply D_Seq; [|apply D_Seq; [constructor|assumption]].
    apply (enter_rule GrammarJs.grammar "key" _ (Sym "identifier") _ eq_refl);
      [vm_compute; tauto|assumption].
  - apply (D_Sym GrammarJs.grammar "hole" _ ts ltac:(vm_compute; reflexivity)). exact D.
Qed.

Lemma pattern_terms_listed :
  forallb (fun e => if listed pattern_rules (fst e)
                    then String.eqb (renaming pattern_terms (fst e)) (snd e)
                    else false) pattern_terms = true.
Proof. run_chart. Qed.

Lemma chart_rest_pattern_js :
  verdicts GrammarJs.grammar 8 ["{"; "a"; ":"; "x"; "}"] [Sym "pattern_struct"] = Some [true].
Proof. run_chart. Qed.

(** X17: in src/grammar.js the pattern rules mirror the term rules, rule by
    rule: whatever lexemes [pattern] derives are derived by [type], and so
    for [pattern_variable] and [variable], [pattern_literal] and [literal],
    [pattern_tagged] and [tagged], [pattern_struct] and [struct],
    [pattern_tuple] and [tuple], [pattern_list] and [list], [pattern_row]
    and [row], [pattern_key_value] and [key_value], [wildcard] and
    [hole]. *)
Theorem patterns_are_types (p t : string) (ts : list string) :
  In (p, t) pattern_terms ->
  derivable GrammarJs.grammar p ts -> derivable GrammarJs.grammar t ts.
Proof.
  intros Hin D. destruct pattern_rules_checked as [C [R _]].
  pose proof pattern_terms_listed as K. rewrite forallb_forall in K.
  specialize (K (p, t) Hin). cbn [fst snd] in K.
  destruct (listed pattern_rules p) eqn:L; [|discriminate K].
  apply String.eqb_eq in K. rewrite <- K.
  apply (rename_derives GrammarJs.grammar pattern_terms pattern_rules C R pattern_step
           (Sym p) ts D).
  cbn [symbols forallb]. now rewrite L.
Qed.

Lemma patterns_are_types_witness :
  In ("pattern_struct", "struct") pattern_terms
  /\ derivable GrammarJs.grammar "pattern_struct" ["{"; "a"; ":"; "x"; "}"]
  /\ derivable GrammarJs.grammar "struct" ["{"; "a"; ":"; "x"; "}"].
Proof.
  assert (H0 : In ("pattern_struct", "struct") pattern_terms)
    by (unfold pattern_terms; simpl; tauto).
  assert (H : derivable GrammarJs.grammar "pattern_struct" ["{"; "a"; ":"; "x"; "}"])
    by exact (verdict_yes _ _ _ _ _ chart_rest_pattern_js 0 _ eq_refl eq_refl).
  split; [exact H0|]. split; [exact H|exact (patterns_are_types _ _ _ H0 H)].
Defined.

(** ** Parenthesised lists *)

Lemma parens_items (G : Grammar) (r : Rule) (ts : list string) :
  derives G (Dsl.parens (Dsl.buildDomain r)) ts <->
  exists item items,
    ts = ("(" :: join_with "," (item :: items) ++ [")"])%list
    /\ derives G r item /\ Forall (derives G r) items.
Proof.
  unfold Dsl.parens, Dsl.buildDomain. cbn [Dsl.seq]. split.
  - intros D. apply derives_Seq in D. destruct D as [o [rest [-> [Do D]]]].
    apply derives_Str in Do. subst o.
    apply derives_Seq in D. destruct D as [inner [c [-> [Di Dc]]]].
    apply derives_Str in Dc. subst c.
    apply sep1_list in Di. destruct Di as [item [items [-> [D F]]]].
    now exists item, items.
  - intros [item [items [-> [D F]]]].
    apply (D_Seq G _ _ ["("]); [constructor|].
    apply D_Seq; [|constructor].
    apply sep1_list. now exists item, items.
Qed.

(** X18: [parens(buildDomain(rule))], the shape of the domain of a pi type
    in the second grammar of src/unnamed/part_000, derives exactly an
    opening parenthesis, one or more items of the rule with commas between
    them, and a closing parenthesis; [buildDomain] is [sep1] with a comma;
    and a [pidomain] of that grammar is such a list of typings, never
    empty. *)
Theorem parenthesised_domain (G : Grammar) (r : Rule) (ts : list string) :
  (derives G (Dsl.parens (Dsl.buildDomain r)) ts <->
   exists item items,
     ts = ("(" :: join_with "," (item :: items) ++ [")"])%list
     /\ derives G r item /\ Forall (derives G r) items)
  /\ Dsl.buildDomain r = Dsl.sep1 r ","
  /\ (derivable Draft2.grammar "pidomain" ts <->
      exists item items,
        ts = ("(" :: join_with "," (item :: items) ++ [")"])%list
        /\ Forall (derivable Draft2.grammar "typing") (item :: items)).
Proof.
  split; [apply parens_items|]. split; [reflexivity|].
  unfold derivable. split.
  - intros D. apply derives_Sym in D. destruct D as [body [L D]].
    injection L as <-. apply derives_Prec in D.
    apply parens_items in D. destruct D as [item [items [-> [D F]]]].
    exists item, items. split; [reflexivity|].
    constructor; [now apply derives_Field in D|].
    revert F. apply Forall_impl. intros x Hx. now apply derives_Field in Hx.
  - intros [item [items [-> F]]].
    apply (D_Sym Draft2.grammar "pidomain" _ _ eq_refl).
    apply D_Prec. apply parens_items. exists item, items.
    split; [reflexivity|].
    split; [apply D_Field; now apply Forall_inv in F|].
    apply Forall_inv_tail in F. revert F. apply Forall_impl.
    intros x Hx. now apply D_Field.
Qed.

(** ** Pi and arrow *)























(** ** The highlight query *)

(** X19: the highlight query of src/unnamed/part_001 fits src/grammar.js:
    every string it asks for is a token of that grammar, every node a rule,
    every field a field of the rule it is asked of, and every child of a
    kind that the rules named at its place lead to.  It does not fit the
    two grammars of src/unnamed/part_000, which have no rule [typed_param]
    and no rule [pattern_variable]. *)
Theorem highlights_fit_grammar_js :
  Forall (fun q => fits GrammarJs.grammar q = true) highlights
  /\ Forall (fun G =>
       filter (fun k => negb (listed (all_rules G) k)) (flat_map kinds_of highlights)
       = ["typed_param"; "pattern_variable"]
       /\ forallb (fits G) highlights = false)
     [Draft1.grammar; Draft2.grammar].
Proof.
  split.
  - apply Forall_forall. intros q Hq.
    assert (K : forallb (fits GrammarJs.grammar) highlights = true) by run_chart.
    rewrite forallb_forall in K. now apply K.
  - repeat constructor; run_chart.
Qed.

(** ** Binding strength *)

Lemma always_sound (G : Grammar) (n m : string) (a : Action) (ln lm : Level) :
  always G n m a = true -> In ln (levels G n) -> In lm (levels G m) ->
  resolve ln lm = a.
Proof.
  unfold always. rewrite forallb_forall. intros H Hn Hm.
  specialize (H ln Hn). rewrite forallb_forall in H. specialize (H lm Hm).
  destruct (resolve ln lm), a; try discriminate; reflexivity.
Qed.

Lemma binding_checked :
  Forall (fun G =>
    (if always G "application" "operation" Reduce
     then always G "operation" "application" Shift else false) = true
    /\ forallb (fun b => if always G "operation" b Reduce
                         then always G b "operation" Shift else false) binders = true)
    yap_grammars.
Proof. each_grammar ltac:(split; run_chart). Qed.

(** X20: in the three grammars application binds tighter than every binary
    operator, and every binary operator binds tighter than the binders pi,
    lambda and mu and than a tagged constructor.  A complete application
    followed by an operator is closed first, and after an operator an
    application is read to its end; a complete operation followed by the
    arrow of a binder is closed first, and the body of a binder takes in the
    operators that follow. *)
Theorem binding_order (G : Grammar) (b : string) (la lo lb : Level) :
  In G yap_grammars -> In b binders ->
  In la (levels G "application") -> In lo (levels G "operation") ->
  In lb (levels G b) ->
  resolve la lo = Reduce /\ resolve lo la = Shift
  /\ resolve lo lb = Reduce /\ resolve lb lo = Shift.
Proof.
  intros Hin Hb Ha Ho Hl.
  destruct (proj1 (Forall_forall _ _) binding_checked G Hin) as [A B].
  apply if_both in A. destruct A as [A1 A2].
  rewrite forallb_forall in B. specialize (B b Hb).
  apply if_both in B. destruct B as [B1 B2].
  split; [exact (always_sound G _ _ _ la lo A1 Ha Ho)|].
  split; [exact (always_sound G _ _ _ lo la A2 Ho Ha)|].
  split; [exact (always_sound G _ _ _ lo lb B1 Ho Hl)|].
  exact (always_sound G _ _ _ lb lo B2 Hl Ho).
Qed.

Lemma binding_order_witness :
  In Draft2.grammar yap_grammars /\ In "lambda" binders
  /\ In (60%Z, Some AssocRight) (levels Draft2.grammar "application")
  /\ In (22%Z, Some AssocLeft) (levels Draft2.grammar "operation")
  /\ In (10%Z, Some AssocRight) (levels Draft2.grammar "lambda")
  /\ resolve (60%Z, Some AssocRight) (22%Z, Some AssocLeft) = Reduce
  /\ resolve (22%Z, Some AssocLeft) (60%Z, Some AssocRight) = Shift
  /\ resolve (22%Z, Some AssocLeft) (10%Z, Some AssocRight) = Reduce
  /\ resolve (10%Z, Some AssocRight) (22%Z, Some AssocLeft) = Shift.
Proof.
  assert (H1 : In Draft2.grammar yap_grammars) by (unfold yap_grammars; simpl; tauto).
  assert (H2 : In "lambda" binders) by (unfold binders; simpl; tauto).
  assert (H3 : In (60%Z, Some AssocRight) (levels Draft2.grammar "application"))
    by (vm_compute; tauto).
  assert (H4 : In (22%Z, Some AssocLeft) (levels Draft2.grammar "operation"))
    by (vm_compute; tauto).
  assert (H5 : In (10%Z, Some AssocRight) (levels Draft2.grammar "lambda"))
    by (vm_compute; tauto).
  split; [exact H1|]. split; [exact H2|]. split; [exact H3|]. split; [exact H4|].
  split; [exact H5|].
  exact (binding_order _ _ _ _ _ H1 H2 H3 H4 H5).
Defined.
